(** * The dmdb dialect of sequelize-dm8: a shallow embedding

    The development follows the dialect's four source files:
    - [lib/dialects/dmdb/connection-manager.js]  (module [ConnectionManager]),
    - [lib/dialects/dmdb/data-types.js]          (module [DataTypes]),
    - [lib/dialects/dmdb/query-generator.js]     (module [QueryGenerator]),
    - [lib/dialects/dmdb/query.js]               (module [Query]).

    JavaScript strings are modelled as [string], a character standing for
    a code unit below 256; numbers are the integers among the doubles;
    objects that the code enumerates are association lists in
    enumeration order, and an object that the code builds puts a key
    that is an array index in its place before the other keys; an
    exception is the [Throw] branch of [completion]; the regular
    expressions of the dialect are terms of [Regex.re], run by a
    backtracking matcher; and what the code gets from files outside the
    dialect (the escaper and the quoting of the abstract generator, the
    utilities, the driver, wkx) are Section variables.

    The modules with the embedding come first, then [Reference] with the
    definitions the statements compare the code with, then the
    statements. *)

From Stdlib Require Import String Ascii List Bool Arith Lia ZArith.
From Stdlib Require Import DecimalString.
Import ListNotations.
Open Scope string_scope.

(** ** JavaScript values and completions *)

Module JS.

(** Primitive values, as far as the dialect inspects them. *)
Inductive value : Type :=
| VUndefined
| VNull
| VBool (b : bool)
| VNum (z : Z)
| VStr (s : string).

(** [ToBoolean]. *)
Definition truthy (v : value) : bool :=
  match v with
  | VUndefined | VNull => false
  | VBool b => b
  | VNum z => negb (Z.eqb z 0)
  | VStr s => negb (String.eqb s "")
  end.

(** The double nearest to an integer, ties going to the even
    significand: up to 2^53 in magnitude every integer is a double,
    from there on only the multiples of a power of two are. (A result
    of 2^1024 or more stands for Infinity.) *)
Definition toDouble (z : Z) : Z :=
  let a := Z.abs z in
  let ulp := (2 ^ Z.max 0 (Z.log2 a - 52))%Z in
  let q := (a / ulp)%Z in
  let r := (a mod ulp)%Z in
  let q' :=
    if (2 * r <? ulp)%Z then q
    else if (ulp <? 2 * r)%Z then (q + 1)%Z
    else if Z.even q then q else (q + 1)%Z in
  (Z.sgn z * (q' * ulp))%Z.

(** [ToString] on the primitives. An integer below 10^21 in magnitude
    is printed with all its digits, as here; from 10^21 on JavaScript
    prints an exponent, which is not modelled. *)
Definition toString (v : value) : string :=
  match v with
  | VUndefined => "undefined"
  | VNull => "null"
  | VBool true => "true"
  | VBool false => "false"
  | VNum z => NilZero.string_of_int (Z.to_int z)
  | VStr s => s
  end.

(** Strict equality [===] on primitives. *)
Definition strictEq (a b : value) : bool :=
  match a, b with
  | VUndefined, VUndefined => true
  | VNull, VNull => true
  | VBool x, VBool y => Bool.eqb x y
  | VNum x, VNum y => Z.eqb x y
  | VStr x, VStr y => String.eqb x y
  | _, _ => false
  end.

(** The errors the embedded code can raise by itself. *)
Inductive exn : Type :=
| TypeError (msg : string)
| ReferenceError (ident : string)
| Error (msg : string).

(** Outcome of a synchronous call. *)
Inductive completion (A : Type) : Type :=
| Return (a : A)
| Throw (e : exn).
Arguments Return {A} a.
Arguments Throw {A} e.

Definition bind {A B} (c : completion A) (k : A -> completion B)
  : completion B :=
  match c with
  | Return a => k a
  | Throw e => Throw e
  end.

(** Objects as enumerated: keys in enumeration order. *)
Definition obj (A : Type) : Type := list (string * A).

Fixpoint get {A} (o : obj A) (k : string) : option A :=
  match o with
  | [] => None
  | (k', v) :: o' => if String.eqb k' k then Some v else get o' k
  end.

(** The keys that are array indices, the canonical decimal numerals of
    0 to 2^32 - 2, are enumerated first, in ascending order; the other
    keys follow in the order in which they were created. *)
Definition isDecimal (c : ascii) : bool :=
  let n := nat_of_ascii c in ((48 <=? n)%nat && (n <=? 57)%nat)%bool.

Fixpoint decimal (s : string) (acc : Z) : option Z :=
  match s with
  | EmptyString => Some acc
  | String c t =>
      if isDecimal c
      then decimal t (acc * 10 + Z.of_nat (nat_of_ascii c - 48))%Z
      else None
  end.

Definition arrayIndex (k : string) : option Z :=
  match k with
  | EmptyString => None
  | String c t =>
      if (Ascii.eqb c "0"%char && negb (String.eqb t EmptyString))%bool
      then None
      else
        match decimal k 0 with
        | Some n => if (n <? 4294967295)%Z then Some n else None
        | None => None
        end
  end.

(** A new key [k] is enumerated before the key [k']. *)
Definition precedes (k k' : string) : bool :=
  match arrayIndex k, arrayIndex k' with
  | Some n, Some n' => (n <? n')%Z
  | Some _, None => true
  | None, _ => false
  end.

(** [o[k] = v] for a key the object has: the key keeps its place. *)
Fixpoint overwrite {A} (o : obj A) (k : string) (v : A) : obj A :=
  match o with
  | [] => []
  | (k', v') :: o' =>
      if String.eqb k' k then (k', v) :: o'
      else (k', v') :: overwrite o' k v
  end.

(** [o[k] = v] for a key the object does not have: an array index goes
    to its place among the array indices, another key goes last. *)
Fixpoint define {A} (o : obj A) (k : string) (v : A) : obj A :=
  match o with
  | [] => [(k, v)]
  | (k', v') :: o' =>
      if precedes k k' then (k, v) :: o
      else (k', v') :: define o' k v
  end.

(** [o[k] = v]. *)
Definition set {A} (o : obj A) (k : string) (v : A) : obj A :=
  match get o k with
  | Some _ => overwrite o k v
  | None => define o k v
  end.

Definition keys {A} (o : obj A) : list string := map fst o.

(** Object spread [{...a, ...b}]. *)
Definition spread {A} (a b : obj A) : obj A :=
  fold_left (fun acc kv => set acc (fst kv) (snd kv)) b a.

End JS.

Import JS.

Declare Scope js_scope.
Notation "x <- c ;; k" := (JS.bind c (fun x => k))
  (at level 61, c at next level, right associativity) : js_scope.
Open Scope js_scope.

(** ** String primitives used by the dialect *)

Module Str.

(** [s.startsWith(pat)]. *)
Fixpoint startsWith (pat s : string) : bool :=
  match pat, s with
  | EmptyString, _ => true
  | String a p, String b t => Ascii.eqb a b && startsWith p t
  | String _ _, EmptyString => false
  end.

(** [s.includes(pat)]. *)
Fixpoint includes (pat s : string) : bool :=
  startsWith pat s
  || match s with
     | EmptyString => false
     | String _ t => includes pat t
     end.

(** [s.substr(n)]. *)
Fixpoint drop (n : nat) (s : string) : string :=
  match n, s with
  | O, _ => s
  | S n', String _ t => drop n' t
  | S _, EmptyString => EmptyString
  end.

(** [s.replace(pat, rep)] with a string pattern: the first occurrence. *)
Fixpoint replaceFirst (pat rep s : string) : string :=
  if startsWith pat s then rep ++ drop (String.length pat) s
  else match s with
       | EmptyString => EmptyString
       | String c t => String c (replaceFirst pat rep t)
       end.

(** [s.replace(/pat/g, rep)] for a literal, non-empty [pat]: a match is
    replaced and the scan resumes after it ([skip] counts the characters
    of the match still to be passed over). *)
Fixpoint replaceAllFrom (pat rep : string) (skip : nat) (s : string)
  : string :=
  match s with
  | EmptyString => EmptyString
  | String c t =>
      match skip with
      | S k => replaceAllFrom pat rep k t
      | O =>
          if startsWith pat s
          then rep ++ replaceAllFrom pat rep (String.length pat - 1) t
          else String c (replaceAllFrom pat rep 0 t)
      end
  end.

Definition replaceAll (pat rep s : string) : string :=
  replaceAllFrom pat rep 0 s.

(** [l.join(sep)]. *)
Definition join (sep : string) (l : list string) : string :=
  String.concat sep l.

(** [s.split(c)] for a one-character separator. *)
Fixpoint splitOn (sep : ascii) (s : string) : list string :=
  match s with
  | EmptyString => [EmptyString]
  | String c t =>
      if Ascii.eqb c sep then EmptyString :: splitOn sep t
      else match splitOn sep t with
           | [] => [String c EmptyString]
           | w :: ws => String c w :: ws
           end
  end.

(** [s.toUpperCase()] on code units below 256: the letters a to z and
    the Latin-1 letters from 224 to 254 (247, the division sign, is no
    letter) go 32 down, and the sharp s (223) becomes SS. The micro
    sign (181) and the y with diaeresis (255) have capitals above 255,
    outside the strings modelled here, and are left as they are. *)
Definition upperChar (c : ascii) : string :=
  let n := nat_of_ascii c in
  if ((97 <=? n)%nat && (n <=? 122)%nat)%bool
  then String (ascii_of_nat (n - 32)) EmptyString
  else if (n =? 223)%nat then "SS"
  else if ((224 <=? n)%nat && (n <=? 254)%nat && negb (n =? 247)%nat)%bool
  then String (ascii_of_nat (n - 32)) EmptyString
  else String c EmptyString.

Fixpoint toUpperCase (s : string) : string :=
  match s with
  | EmptyString => EmptyString
  | String c t => upperChar c ++ toUpperCase t
  end.

End Str.

(** ** connection-manager.js *)

Module ConnectionManager.

(** What the manager reads of a driver connection: the four flags of
    [validate] (an absent property reads as [false]). *)
Record Connection : Type := {
  _fatalError : bool;
  _protocolError : bool;
  _closing : bool;
  closed : bool
}.

(** The error object thrown by the driver. *)
Record DriverError : Type := {
  errCode : value;
  errMessage : string
}.

(** The classes of [SequelizeErrors] that [connect] raises. *)
Inductive ConnectionErrorKind : Type :=
| ConnectionRefusedError
| AccessDeniedError
| HostNotFoundError
| HostNotReachableError
| InvalidConnectionError
| ConnectionError.

(** [new SequelizeErrors.X(err)]: the class and the wrapped driver error
    ([parent] and [original] of the error object). *)
Record SequelizeError : Type := {
  kind : ConnectionErrorKind;
  parent : DriverError
}.

Record Config : Type := {
  username : value;
  password : value;
  host : value;
  port : value;
  database : value;
  pool_max : value;
  pool_idle : value;
  dialectOptions : obj value
}.

(** [connectionConfig] of [connect], an object literal with a spread,
    then the schema appended when [config.database] is truthy. *)
Definition connectionConfig (config : Config) : obj value :=
  let base :=
    spread
      [ ("connectString",
         VStr ("dm://" ++ toString (username config) ++ ":"
               ++ toString (password config) ++ "@"
               ++ toString (host config) ++ ":"
               ++ toString (port config) ++ "?autoCommit=true"));
        ("poolMax", pool_max config);
        ("poolTimeout", pool_idle config) ]
      (dialectOptions config) in
  if truthy (database config)
  then
    let cs := match get base "connectString" with
              | Some v => v
              | None => VUndefined
              end in
    set base "connectString"
      (VStr (toString cs ++ "&schema=" ++ toString (database config)))
  else base.

(** The [switch (err.errCode)] of the [catch] block. *)
Definition classify (err : DriverError) : ConnectionErrorKind :=
  if strictEq (errCode err) (VStr "ECONNREFUSED") then ConnectionRefusedError
  else if strictEq (errCode err) (VStr "ER_ACCESS_DENIED_ERROR")
  then AccessDeniedError
  else if strictEq (errCode err) (VStr "ENOTFOUND") then HostNotFoundError
  else if strictEq (errCode err) (VStr "EHOSTUNREACH")
  then HostNotReachableError
  else if strictEq (errCode err) (VStr "EINVAL") then InvalidConnectionError
  else ConnectionError.

(** Outcome of an awaited driver call or of an async method. *)
Inductive settled (A E : Type) : Type :=
| Resolved (a : A)
| Rejected (e : E).
Arguments Resolved {A E} a.
Arguments Rejected {A E} e.

Section Driver.
(** The driver: [lib.createPool] and [pool.getConnection]. *)
Variable Pool : Type.
Variable createPool : obj value -> settled Pool DriverError.
Variable getConnection : Pool -> settled Connection DriverError.

Definition wrap (err : DriverError) : SequelizeError :=
  {| kind := classify err; parent := err |}.

Definition connect (config : Config)
  : settled Connection SequelizeError :=
  match createPool (connectionConfig config) with
  | Rejected err => Rejected (wrap err)
  | Resolved pool =>
      match getConnection pool with
      | Rejected err => Rejected (wrap err)
      | Resolved connection => Resolved connection
      end
  end.
End Driver.

(** What [disconnect] does to the outside, in order. *)
Inductive event : Type :=
| Debug (msg : string)
| DriverClose.

(** [disconnect(connection)]; [closeResult] is what the driver passes to
    the callback of [connection.close] ([None]: no error). *)
Definition disconnect (connection : Connection)
    (closeResult : option DriverError)
  : list event * settled unit DriverError :=
  if _closing connection
  then ([Debug "connection tried to disconnect but was already at CLOSED state"],
        Resolved tt)
  else ([DriverClose],
        match closeResult with
        | None => Resolved tt
        | Some e => Rejected e
        end).

(** The argument of [validate]: a connection object or a primitive. *)
Inductive handle : Type :=
| Absent (v : value)
| Present (c : Connection).

(** [validate(connection)]: the value of the [&&] chain. A falsy
    argument ends the chain; a truthy primitive has none of the four
    properties, so every negation is [true]. *)
Definition validate (connection : handle) : value :=
  match connection with
  | Absent v => if truthy v then VBool true else v
  | Present c =>
      if _fatalError c then VBool false
      else if _protocolError c then VBool false
      else if _closing c then VBool false
      else VBool (negb (closed c))
  end.

End ConnectionManager.

(** ** data-types.js *)

Module DataTypes.

Section Geometry.
(** wkx: [wkx.Geometry.parse(buf).toGeoJSON({ shortCrs: true })]. *)
Variable GeoJSON : Type.
Variable wkxParseToGeoJSON : list Byte.byte -> completion GeoJSON.

(** The driver value handed to [GEOMETRY.parse]: [value.buffer()] gives
    a buffer or nothing. *)
Definition field : Type := option (list Byte.byte).

(** [GEOMETRY.parse(value)]; [None] is JavaScript's [null]. *)
Definition GEOMETRY_parse (value : field)
  : completion (option GeoJSON) :=
  match value with
  | None => Return None
  | Some buf =>
      if Nat.eqb (List.length buf) 0 then Return None
      else
        g <- wkxParseToGeoJSON (skipn 4 buf) ;;
        Return (Some g)
  end.
End Geometry.

(** *** The GEOMETRY constructor *)

Definition SUPPORTED_GEOMETRY_TYPES : list string :=
  ["POINT"; "LINESTRING"; "POLYGON"].

(** [_.isEmpty] on a primitive: everything but a non-empty string. *)
Definition isEmpty (v : value) : bool :=
  match v with
  | VStr s => String.eqb s EmptyString
  | _ => true
  end.

(** A constructed GEOMETRY type: the [type] the base constructor stored
    and the [sqlType] chosen here. *)
Record Geometry : Type := { geometryType : value; sqlType : string }.

(** [new GEOMETRY(type, srid)] after [super(type, srid)] has set
    [this.type]; [key] is [this.key] of the base class. *)
Definition GEOMETRY_new (key : string) (type : value)
  : completion Geometry :=
  if isEmpty type
  then Return {| geometryType := type; sqlType := key |}
  else
    match type with
    | VStr t =>
        if existsb (String.eqb t) SUPPORTED_GEOMETRY_TYPES
        then Return {| geometryType := type; sqlType := t |}
        else Throw (Error ("Supported geometry types are: "
                           ++ Str.join ", " SUPPORTED_GEOMETRY_TYPES))
    | _ => Throw (Error ("Supported geometry types are: "
                         ++ Str.join ", " SUPPORTED_GEOMETRY_TYPES))
    end.

(** [GEOMETRY.prototype.toSql()]. *)
Definition GEOMETRY_toSql (g : Geometry) : string := sqlType g.

(** *** ENUM *)

(** [Math.max(...lengths)]; [None] is [-Infinity], the maximum of no
    number. *)
Fixpoint mathMax (l : list nat) : option nat :=
  match l with
  | [] => None
  | n :: more =>
      match mathMax more with
      | Some m => Some (Nat.max n m)
      | None => Some n
      end
  end.

Section Enum.
(** [options.escape]. *)
Variable escape : string -> string.

(** [ENUM.prototype.toSql(options)] for the permitted [values]. *)
Definition ENUM_toSql (values : list string) : string :=
  let values := map escape values in
  let enumValueLength := mathMax (map String.length values) in
  "CHAR("
    ++ match enumValueLength with
       | Some n => toString (VNum (Z.of_nat n))
       | None => "-Infinity"
       end
    ++ ")".
End Enum.

End DataTypes.

(** ** Regular expressions

    A backtracking matcher in the style of the ECMAScript specification
    (continuations, ordered alternatives, greedy and lazy quantifiers,
    capture groups, back-references and negative look-ahead), so that the
    dialect's regular expressions are embedded term by term. *)

Module Regex.

Inductive re : Type :=
| Eps
| Cls (invert : bool) (p : ascii -> bool)
| Cat (r1 r2 : re)
| Alt (r1 r2 : re)
| Rep (min : nat) (max : option nat) (greedy : bool) (r : re)
| Grp (i : nat) (r : re)
| Bref (i : nat)
| NLook (r : re)
| Eos.

(** The input still to be read and the captures made so far. *)
Record state : Type := { rest : string; caps : list (nat * string) }.

Definition cont : Type := state -> option state.

Fixpoint capture (i : nat) (cs : list (nat * string)) : option string :=
  match cs with
  | [] => None
  | (j, w) :: cs' => if Nat.eqb j i then Some w else capture i cs'
  end.

Fixpoint groupsOf (r : re) : list nat :=
  match r with
  | Cat r1 r2 | Alt r1 r2 => (groupsOf r1 ++ groupsOf r2)%list
  | Rep _ _ _ r' | NLook r' => groupsOf r'
  | Grp i r' => i :: groupsOf r'
  | _ => []
  end.

Definition clearCaps (inner : list nat) (st : state) : state :=
  {| rest := rest st;
     caps := filter (fun c => negb (existsb (Nat.eqb (fst c)) inner))
               (caps st) |}.

(** The first [n] characters of [s]. *)
Fixpoint take (n : nat) (s : string) : string :=
  match n, s with
  | S n', String c t => String c (take n' t)
  | _, _ => EmptyString
  end.

(** What was read between two states of one run. *)
Definition consumed (before after : string) : string :=
  take (String.length before - String.length after) before.

(** [Canonicalize] of the [i] flag on code units below 256, and the code
    units that share a canonical form with [c]. *)
Definition isLower (n : nat) : bool :=
  ((97 <=? n) && (n <=? 122) || (224 <=? n) && (n <=? 254) && negb (n =? 247))%nat%bool.

Definition isUpper (n : nat) : bool :=
  ((65 <=? n) && (n <=? 90) || (192 <=? n) && (n <=? 222) && negb (n =? 215))%nat%bool.

Definition canon (c : ascii) : ascii :=
  let n := nat_of_ascii c in
  if isLower n then ascii_of_nat (n - 32) else c.

Definition variants (c : ascii) : list ascii :=
  let n := nat_of_ascii c in
  (c :: (if isLower n then [ascii_of_nat (n - 32)] else [])
     ++ (if isUpper n then [ascii_of_nat (n + 32)] else []))%list.

Section Matcher.
(** The [i] flag. *)
Variable icase : bool.

Definition charMatches (invert : bool) (p : ascii -> bool) (c : ascii)
  : bool :=
  xorb invert (if icase then existsb p (variants c) else p c).

Definition charEq (a b : ascii) : bool :=
  if icase then Ascii.eqb (canon a) (canon b) else Ascii.eqb a b.

(** Reads [w] at the head of [s]. *)
Fixpoint readWord (w s : string) : option string :=
  match w, s with
  | EmptyString, _ => Some s
  | String a w', String b t => if charEq a b then readWord w' t else None
  | String _ _, EmptyString => None
  end.

Definition orElse (a : option state) (b : unit -> option state)
  : option state :=
  match a with
  | Some x => Some x
  | None => b tt
  end.

(** [RepeatMatcher]: an iteration that reads nothing once [min] is
    reached fails; the captures of the body are reset on entry. [fuel]
    bounds the number of turns, and [run] supplies one per required turn
    and per character left, which is never used up. *)
Fixpoint rep (body : cont -> cont) (inner : list nat) (fuel : nat)
    (min : nat) (max : option nat) (greedy : bool) (k : cont)
    (st : state) {struct fuel} : option state :=
  match fuel with
  | O => None
  | S fuel' =>
      match max with
      | Some O => k st
      | _ =>
          let d : cont := fun st' =>
            if ((min =? 0)%nat
                && (String.length (rest st') =? String.length (rest st))%nat)%bool
            then None
            else rep body inner fuel' (Nat.pred min)
                   (option_map Nat.pred max) greedy k st' in
          let enter := fun _ : unit => body d (clearCaps inner st) in
          if negb (min =? 0)%nat then enter tt
          else if greedy then orElse (enter tt) (fun _ => k st)
          else orElse (k st) enter
      end
  end.

Fixpoint run (r : re) (k : cont) (st : state) {struct r}
  : option state :=
  match r with
  | Eps => k st
  | Cls invert p =>
      match rest st with
      | String c t =>
          if charMatches invert p c
          then k {| rest := t; caps := caps st |}
          else None
      | EmptyString => None
      end
  | Cat r1 r2 => run r1 (fun st' => run r2 k st') st
  | Alt r1 r2 => orElse (run r1 k st) (fun _ => run r2 k st)
  | Rep min max greedy r' =>
      rep (run r') (groupsOf r')
        (min + String.length (rest st) + 1) min max greedy k st
  | Grp i r' =>
      run r'
        (fun st' =>
           k {| rest := rest st';
                caps := (i, consumed (rest st) (rest st')) :: caps st' |})
        st
  | Bref i =>
      match capture i (caps st) with
      | None => k st
      | Some w =>
          match readWord w (rest st) with
          | Some t => k {| rest := t; caps := caps st |}
          | None => None
          end
      end
  | NLook r' =>
      match run r' (fun st' => Some st') st with
      | Some _ => None
      | None => k st
      end
  | Eos =>
      match rest st with
      | EmptyString => k st
      | String _ _ => None
      end
  end.

(** A match: the matched text ([match[0]]) and the groups. *)
Record result : Type := {
  matched : string;
  groups : list (nat * string)
}.

Definition group (i : nat) (m : result) : option string :=
  capture i (groups m).

(** A match that starts at the head of [s]. *)
Definition matchHere (r : re) (s : string) : option result :=
  match run r (fun st => Some st) {| rest := s; caps := [] |} with
  | Some st => Some {| matched := consumed s (rest st);
                       groups := caps st |}
  | None => None
  end.

(** [s.match(r)] without the [g] flag: the leftmost match. *)
Fixpoint search (r : re) (s : string) : option result :=
  match matchHere r s with
  | Some m => Some m
  | None =>
      match s with
      | EmptyString => None
      | String _ t => search r t
      end
  end.

(** [s.split(r)] for a separator that never matches the empty string;
    [skip] counts the characters of a separator still to pass over. *)
Fixpoint splitFrom (r : re) (skip : nat) (s : string) : list string :=
  match s with
  | EmptyString => [EmptyString]
  | String c t =>
      match skip with
      | S n => splitFrom r n t
      | O =>
          match option_map (fun m => String.length (matched m))
                  (matchHere r s) with
          | Some (S n) => EmptyString :: splitFrom r n t
          | _ =>
              match splitFrom r 0 t with
              | w :: ws => String c w :: ws
              | [] => [String c EmptyString]
              end
          end
      end
  end.

Definition split (r : re) (s : string) : list string :=
  splitFrom r 0 s.

End Matcher.

(** *** Atoms *)

Fixpoint mem (c : ascii) (s : string) : bool :=
  match s with
  | EmptyString => false
  | String a t => Ascii.eqb a c || mem c t
  end.

Definition between (lo hi : ascii) (c : ascii) : bool :=
  ((nat_of_ascii lo <=? nat_of_ascii c)
   && (nat_of_ascii c <=? nat_of_ascii hi))%nat%bool.

(** [\s] on code units below 256: TAB, LF, VT, FF, CR, SP, NBSP. *)
Definition isSpace (c : ascii) : bool :=
  let n := nat_of_ascii c in
  ((9 <=? n) && (n <=? 13) || (n =? 32) || (n =? 160))%nat%bool.

(** [\w] and [\d]. *)
Definition isDigit (c : ascii) : bool := between "0" "9" c.
Definition isWord (c : ascii) : bool :=
  between "a" "z" c || between "A" "Z" c || isDigit c || Ascii.eqb c "_".

(** Line terminators below 256: LF and CR. *)
Definition isLineTerminator (c : ascii) : bool :=
  let n := nat_of_ascii c in ((n =? 10) || (n =? 13))%nat%bool.

Definition chr (c : ascii) : re := Cls false (Ascii.eqb c).
Definition oneOf (s : string) : re := Cls false (fun c => mem c s).
Definition noneOf (s : string) : re := Cls true (fun c => mem c s).
Definition range (lo hi : ascii) : re := Cls false (between lo hi).
Definition dot : re := Cls true isLineTerminator.
Definition space : re := Cls false isSpace.
Definition spaceOrNot : re :=
  Cls false (fun c => isSpace c || negb (isSpace c)).

Fixpoint lit (s : string) : re :=
  match s with
  | EmptyString => Eps
  | String c EmptyString => chr c
  | String c t => Cat (chr c) (lit t)
  end.

Definition star (r : re) : re := Rep 0 None true r.
Definition lazyStar (r : re) : re := Rep 0 None false r.
Definition plus (r : re) : re := Rep 1 None true r.
Definition opt (r : re) : re := Rep 0 (Some 1) true r.
Definition times (lo hi : nat) (r : re) : re := Rep lo (Some hi) true r.

Fixpoint seq (rs : list re) : re :=
  match rs with
  | [] => Eps
  | [r] => r
  | r :: rs' => Cat r (seq rs')
  end.

Fixpoint alt (rs : list re) : re :=
  match rs with
  | [] => NLook Eps
  | [r] => r
  | r :: rs' => Alt r (alt rs')
  end.

End Regex.

(** ** query-generator.js *)

Module QueryGenerator.

Import Regex.

Definition dquote : string := String "034"%char EmptyString.
Definition newline : string := String "010"%char EmptyString.

(** [/^\s*((?:[a-z]+_){0,2}jsonb?(?:_[a-z]+){0,2})\([^)]*\)/i] *)
Definition jsonFunctionRegex : re :=
  seq [ star space;
        Grp 1 (seq [ times 0 2 (Cat (plus (range "a" "z")) (chr "_"));
                     lit "json";
                     opt (chr "b");
                     times 0 2 (Cat (chr "_") (plus (range "a" "z"))) ]);
        chr "(";
        star (noneOf ")");
        chr ")" ].

(** [/^\s*(->>?|@>|<@|\?[|&]?|\|{2}|#-)/i] *)
Definition jsonOperatorRegex : re :=
  seq [ star space;
        Grp 1 (alt [ Cat (lit "->") (opt (chr ">"));
                     lit "@>";
                     lit "<@";
                     Cat (chr "?") (opt (oneOf "|&"));
                     times 2 2 (chr "|");
                     lit "#-" ]) ].

(** [/^\s*((?:([`Q'])(?:(?!\2).|\2{2})*\2)|[\w\d\s]+|[().,;+-])/i],
    where Q stands for the double quote. *)
Definition tokenCaptureRegex : re :=
  seq [ star space;
        Grp 1 (alt [ seq [ Grp 2 (oneOf ("`" ++ dquote ++ "'"));
                           star (alt [ Cat (NLook (Bref 2)) dot;
                                       times 2 2 (Bref 2) ]);
                           Bref 2 ];
                     plus (Cls false
                             (fun c => isWord c || isDigit c || isSpace c));
                     oneOf "().,;+-" ]) ].

(** [/^(.+) (REFERENCES.{0,})$/], which the source writes with the star
    quantifier for [{0,}]. *)
Definition referencesRegex : re :=
  seq [ Grp 1 (plus dot);
        chr " ";
        Grp 2 (Cat (lit "REFERENCES") (star dot));
        Eos ].

(** [m[i]] of a successful match, for a group that took part in it. *)
Definition groupText (i : nat) (m : result) : string :=
  match group i m with
  | Some w => w
  | None => EmptyString
  end.

(** *** attributeToSQL *)

(** An abstract data type as the generator sees it: [type.toString(...)]
    and [type._binary]. *)
Record DataType : Type := { toSql : string; _binary : value }.

Record References : Type := { ref_model : string; ref_key : option string }.

Record Attribute : Type := {
  type : DataType;
  allowNull : value;
  autoIncrement : value;
  defaultValue : value;
  unique : value;
  primaryKey : value;
  comment : value;
  first : value;
  after : option string;
  references : option References;
  onDelete : option string;
  onUpdate : option string
}.

(** The argument of [attributeToSQL]: a plain object, or a bare type that
    is wrapped as [{ type: attribute }]. *)
Inductive attributeArg : Type :=
| Plain (a : Attribute)
| Bare (t : DataType).

Definition plainOf (a : attributeArg) : Attribute :=
  match a with
  | Plain a => a
  | Bare t =>
      {| type := t; allowNull := VUndefined; autoIncrement := VUndefined;
         defaultValue := VUndefined; unique := VUndefined;
         primaryKey := VUndefined; comment := VUndefined;
         first := VUndefined; after := None; references := None;
         onDelete := None; onUpdate := None |}
  end.

Record AttributeOptions : Type := {
  context : option string;
  opt_tableName : string;
  foreignKey : option string
}.

(** Truthiness of an optional string property. *)
Definition present (s : option string) : option string :=
  match s with
  | Some w => if String.eqb w EmptyString then None else Some w
  | None => None
  end.

Definition typeWithoutDefault : list string :=
  ["BLOB"; "TEXT"; "GEOMETRY"; "JSON"].

Definition has (l : list string) (s : string) : bool :=
  existsb (String.eqb s) l.

Definition isBoolean (v : value) : bool :=
  match v with
  | VBool _ => true
  | _ => false
  end.

Section Generator.
(** From the abstract generator and the utilities. *)
Variable escape : value -> string.
Variable quoteIdentifier : string -> string.
Variable quoteTable : string -> string.
Variable defaultValueSchemable : value -> bool.

(** The [DEFAULT] step of [attributeToSQL]. *)
Definition defaultClause (attributeString : string) (a : Attribute)
  : string :=
  if negb (has typeWithoutDefault attributeString)
     && negb (strictEq (_binary (type a)) (VBool true))
     && defaultValueSchemable (defaultValue a)
  then
    let dv :=
      if String.eqb attributeString "BIT" && isBoolean (defaultValue a)
      then VNum (if truthy (defaultValue a) then 1 else 0)
      else defaultValue a in
    " DEFAULT " ++ escape dv
  else EmptyString.

(** The [references] step of [attributeToSQL]. *)
Definition referencesClause (a : Attribute)
    (options : option AttributeOptions) : string :=
  match references a with
  | None => EmptyString
  | Some r =>
      (match options with
       | Some o =>
           match context o, present (foreignKey o) with
           | Some c, Some fk =>
               if String.eqb c "addColumn"
               then
                 let attrName := quoteIdentifier fk in
                 let fkName :=
                   quoteIdentifier
                     (opt_tableName o ++ "_" ++ attrName ++ "_foreign_idx") in
                 ", ADD CONSTRAINT " ++ fkName ++ " FOREIGN KEY ("
                   ++ attrName ++ ")"
               else EmptyString
           | _, _ => EmptyString
           end
       | None => EmptyString
       end)
      ++ " REFERENCES " ++ quoteTable (ref_model r)
      ++ (match present (ref_key r) with
          | Some k => " (" ++ quoteIdentifier k ++ ")"
          | None => " (" ++ quoteIdentifier "id" ++ ")"
          end)
      ++ (match present (onDelete a) with
          | Some d => " ON DELETE " ++ Str.toUpperCase d
          | None => EmptyString
          end)
      ++ (match present (onUpdate a) with
          | Some u => " ON UPDATE " ++ Str.toUpperCase u
          | None => EmptyString
          end)
  end.

Definition attributeToSQL (attribute : attributeArg)
    (options : option AttributeOptions) : string :=
  let a := plainOf attribute in
  let attributeString := toSql (type a) in
  attributeString
    ++ (if strictEq (allowNull a) (VBool false)
        then " NOT NULL" else EmptyString)
    ++ (if truthy (autoIncrement a)
        then " auto_increment" else EmptyString)
    ++ defaultClause attributeString a
    ++ (if strictEq (unique a) (VBool true)
        then " UNIQUE" else EmptyString)
    ++ (if truthy (primaryKey a) then " PRIMARY KEY" else EmptyString)
    ++ (if truthy (comment a)
        then " COMMENT " ++ escape (comment a) else EmptyString)
    ++ (if truthy (first a) then " FIRST" else EmptyString)
    ++ (match present (after a) with
        | Some f => " AFTER " ++ quoteIdentifier f
        | None => EmptyString
        end)
    ++ referencesClause a options.

(** *** createTableQuery *)

Record UniqueKey : Type := {
  indexName : option string;
  customIndex : value;
  uk_fields : list string
}.

Record TableOptions : Type := {
  initialAutoIncrement : value;
  uniqueKeys : option (list UniqueKey)
}.

(** The three accumulators of the column loop. *)
Record columns : Type := {
  primaryKeys : list string;
  foreignKeys : obj string;
  attrStr : list string
}.

(** [l.push(x)]. *)
Definition push (l : list string) (x : string) : list string :=
  (l ++ [x])%list.

Definition matchIsNull : exn :=
  TypeError "Cannot read property 1 of null".

(** One turn of [for (const attr in attributes)]. *)
Definition column (acc : columns) (attr dataType : string)
  : completion columns :=
  if Str.includes "PRIMARY KEY" dataType then
    let pks := push (primaryKeys acc) attr in
    if Str.includes "REFERENCES" dataType then
      match matchHere false referencesRegex dataType with
      | None => Throw matchIsNull
      | Some m =>
          Return
            {| primaryKeys := pks;
               foreignKeys := set (foreignKeys acc) attr (groupText 2 m);
               attrStr :=
                 push (attrStr acc)
                   (quoteIdentifier attr ++ " "
                      ++ Str.replaceFirst "PRIMARY KEY" EmptyString
                           (groupText 1 m)) |}
      end
    else
      Return
        {| primaryKeys := pks;
           foreignKeys := foreignKeys acc;
           attrStr :=
             push (attrStr acc)
               (quoteIdentifier attr ++ " "
                  ++ Str.replaceFirst "PRIMARY KEY" EmptyString dataType) |}
  else if Str.includes "REFERENCES" dataType then
    match matchHere false referencesRegex dataType with
    | None => Throw matchIsNull
    | Some m =>
        Return
          {| primaryKeys := primaryKeys acc;
             foreignKeys := set (foreignKeys acc) attr (groupText 2 m);
             attrStr :=
               push (attrStr acc)
                 (quoteIdentifier attr ++ " " ++ groupText 1 m) |}
    end
  else if Str.includes "JSON" dataType then
    Return
      {| primaryKeys := primaryKeys acc;
         foreignKeys := foreignKeys acc;
         attrStr :=
           push (attrStr acc)
             (quoteIdentifier attr ++ " " ++ dataType ++ " CHECK ("
                ++ quoteIdentifier attr ++ " IS JSON(LAX))") |}
  else
    Return
      {| primaryKeys := primaryKeys acc;
         foreignKeys := foreignKeys acc;
         attrStr :=
           push (attrStr acc) (quoteIdentifier attr ++ " " ++ dataType) |}.

Fixpoint columnLoop (acc : columns) (attributes : obj string)
  : completion columns :=
  match attributes with
  | [] => Return acc
  | (attr, dataType) :: more =>
      acc' <- column acc attr dataType ;;
      columnLoop acc' more
  end.

(** One turn of [_.each(options.uniqueKeys, ...)]: what is appended. *)
Definition uniqueClause (tableName : string) (columns : UniqueKey)
  : string :=
  if truthy (customIndex columns) then
    let name :=
      match indexName columns with
      | Some n => n
      | None =>
          "uniq_" ++ tableName ++ "_" ++ Str.join "_" (uk_fields columns)
      end in
    ", CONSTRAINT " ++ quoteIdentifier name ++ " UNIQUE ("
      ++ Str.join ", " (map quoteIdentifier (uk_fields columns)) ++ ")"
  else EmptyString.

Definition uniqueClauses (tableName : string)
    (options : option TableOptions) : string :=
  match options with
  | Some o =>
      match uniqueKeys o with
      | Some uks => String.concat EmptyString (map (uniqueClause tableName) uks)
      | None => EmptyString
      end
  | None => EmptyString
  end.

Definition primaryKeyClause (pks : list string) : string :=
  let pkString := Str.join ", " (map quoteIdentifier pks) in
  if (0 <? String.length pkString)%nat
  then ", PRIMARY KEY (" ++ pkString ++ ")"
  else EmptyString.

Definition foreignKeyClause (fk : string * string) : string :=
  ", FOREIGN KEY (" ++ quoteIdentifier (fst fk) ++ ") " ++ snd fk.

Definition autoIncrementClause (options : option TableOptions) : string :=
  match options with
  | Some o =>
      if truthy (initialAutoIncrement o)
      then " AUTO_INCREMENT=" ++ toString (initialAutoIncrement o)
      else EmptyString
  | None => EmptyString
  end.

Definition createTableQuery (tableName : string)
    (attributes : obj string) (options : option TableOptions)
  : completion string :=
  cols <- columnLoop
            {| primaryKeys := []; foreignKeys := []; attrStr := [] |}
            attributes ;;
  Return
    ("CREATE TABLE IF NOT EXISTS " ++ quoteTable tableName ++ " ("
       ++ (Str.join ", " (attrStr cols)
             ++ uniqueClauses tableName options
             ++ primaryKeyClause (primaryKeys cols)
             ++ String.concat EmptyString
                  (map foreignKeyClause (foreignKeys cols)))
       ++ ")" ++ autoIncrementClause options ++ ";").

(** *** upsertQuery *)

(** What [upsertQuery] reads of a raw model attribute. *)
Record RawAttribute : Type := {
  field : option string;
  ra_autoIncrement : value
}.

Record Model : Type := { rawAttributes : option (obj RawAttribute) }.

(** [Utils.removeNullValuesFromHash(_, this.options.omitNull)] and the
    rendering of the [idx]-th inserted value ([this.escape] or
    [this.format] with the bind parameter, as the options select). *)
Variable removeNullValuesFromHash : obj value -> obj value.
Variable valueSql : nat -> value -> option RawAttribute -> string.

Definition modelAttributeMap (model : Model) : obj RawAttribute :=
  match rawAttributes model with
  | None => []
  | Some attrs =>
      fold_left
        (fun m kv =>
           let m1 := set m (fst kv) (snd kv) in
           match present (field (snd kv)) with
           | Some f => set m1 f (snd kv)
           | None => m1
           end)
        attrs []
  end.

(** [identityInsert] after the loop over [insertValues]. *)
Definition identityInsertOf (map : obj RawAttribute)
    (insertValues : obj value) : bool :=
  existsb
    (fun kv =>
       match get map (fst kv) with
       | Some attribute =>
           strictEq (ra_autoIncrement attribute) (VBool true)
       | None => false
       end)
    insertValues.

Fixpoint selectFields (idx : nat) (fv : list (string * string))
    (selectQuery : string) : string :=
  match fv with
  | [] => selectQuery
  | (field, value) :: more =>
      let q1 :=
        if ((idx =? 0)%nat
            && negb (String.eqb field (dquote ++ "id" ++ dquote)))%bool
        then selectQuery ++ "NULL " ++ dquote ++ "id" ++ dquote ++ ", "
        else selectQuery in
      let q2 := if (0 <? idx)%nat then q1 ++ ", " else q1 in
      selectFields (S idx) more (q2 ++ value ++ " " ++ field)
  end.

(** The [forEach] over [Object.keys(updateValues)]. *)
Fixpoint updateFields (identityInsert : bool) (idx : nat)
    (keys : list string) (updateQuery : string)
    (updateQueryAddedFields : bool) : string :=
  match keys with
  | [] => updateQuery
  | key :: more =>
      if (identityInsert && (idx =? 0)%nat || String.eqb key "id")%bool
      then updateFields identityInsert (S idx) more updateQuery
             updateQueryAddedFields
      else
        updateFields identityInsert (S idx) more
          ((if updateQueryAddedFields
            then updateQuery ++ ", " else updateQuery)
             ++ "T1." ++ dquote ++ key ++ dquote
             ++ "=T2." ++ dquote ++ key ++ dquote)
          true
  end.

(** The two [forEach] loops of the INSERT clause share this shape;
    [render] gives the text added for a field. *)
Fixpoint insertFields (render : string -> string) (identityInsert : bool)
    (idx : nat) (fields : list string) (insertQuery : string)
    (added : bool) : string :=
  match fields with
  | [] => insertQuery
  | field :: more =>
      if (identityInsert && (idx =? 0)%nat)%bool
      then insertFields render identityInsert (S idx) more insertQuery
             added
      else
        insertFields render identityInsert (S idx) more
          ((if added then insertQuery ++ ", " else insertQuery)
             ++ render field)
          true
  end.

Definition updateClause (identityInsert : bool)
    (updateValues : obj value) : string :=
  updateFields identityInsert 0 (keys updateValues) "UPDATE SET " false.

Fixpoint renderValues (idx : nat) (map : obj RawAttribute)
    (insertValues : obj value) : list (string * string) :=
  match insertValues with
  | [] => []
  | (key, value) :: more =>
      (quoteIdentifier key, valueSql idx value (get map key))
        :: renderValues (S idx) map more
  end.

(** The [query] of the object that [upsertQuery] returns. *)
Definition upsertQuery (tableName : string)
    (insertValues updateValues : obj value) (model : Model) : string :=
  let map := modelAttributeMap model in
  let insertValues := removeNullValuesFromHash insertValues in
  let fv := renderValues 0 map insertValues in
  let fields := List.map fst fv in
  let identityInsert := identityInsertOf map insertValues in
  let selectQuery := selectFields 0 fv "SELECT " ++ " FROM DUAL" in
  let updateQuery := updateClause identityInsert updateValues in
  let insertQuery :=
    insertFields (fun f => "T2." ++ f) identityInsert 0 fields
      (insertFields (fun f => f) identityInsert 0 fields "INSERT (" false
         ++ ") VALUES (")
      false
    ++ ")" in
  "MERGE INTO " ++ quoteTable tableName ++ " AS T1 USING ("
    ++ selectQuery ++ ") AS T2" ++ newline
    ++ "      ON T1." ++ dquote ++ "id" ++ dquote ++ " = T2."
    ++ dquote ++ "id" ++ dquote ++ " " ++ newline
    ++ "      WHEN MATCHED THEN " ++ updateQuery ++ newline
    ++ "      WHEN NOT MATCHED THEN " ++ insertQuery ++ ";".

End Generator.

(** *** _checkValidJsonStatement *)

Record scan : Type := {
  currentIndex : Z;
  openingBrackets : nat;
  closingBrackets : nat;
  hasJsonFunction : bool;
  hasInvalidToken : bool
}.

(** [s.substr(start)]: a negative [start] counts from the end. *)
Definition substr (s : string) (start : Z) : string :=
  if (start <? 0)%Z
  then Str.drop (Z.to_nat (Z.max (Z.of_nat (String.length s) + start) 0)) s
  else Str.drop (Z.to_nat start) s.

(** [s.indexOf(c)], [-1] when [c] does not occur. *)
Fixpoint indexOf (c : ascii) (s : string) : Z :=
  match s with
  | EmptyString => (-1)%Z
  | String a t =>
      if Ascii.eqb a c then 0%Z
      else let i := indexOf c t in
           if (i <? 0)%Z then (-1)%Z else (i + 1)%Z
  end.

Definition advance (sc : scan) (n : Z) : scan :=
  {| currentIndex := currentIndex sc + n;
     openingBrackets := openingBrackets sc;
     closingBrackets := closingBrackets sc;
     hasJsonFunction := hasJsonFunction sc;
     hasInvalidToken := hasInvalidToken sc |}.

Definition sawJson (sc : scan) : scan :=
  {| currentIndex := currentIndex sc;
     openingBrackets := openingBrackets sc;
     closingBrackets := closingBrackets sc;
     hasJsonFunction := true;
     hasInvalidToken := hasInvalidToken sc |}.

(** How one turn of the [while] loop ends. *)
Inductive turn : Type :=
| Continue (sc : scan)
| Break (sc : scan).

Definition body (stmt : string) (sc : scan) : turn :=
  let string := substr stmt (currentIndex sc) in
  match matchHere true jsonFunctionRegex string with
  | Some functionMatches =>
      Continue
        (sawJson (advance sc (indexOf "(" (matched functionMatches))))
  | None =>
      match matchHere true jsonOperatorRegex string with
      | Some operatorMatches =>
          Continue
            (sawJson
               (advance sc
                  (Z.of_nat (String.length (matched operatorMatches)))))
      | None =>
          match matchHere true tokenCaptureRegex string with
          | Some tokenMatches =>
              let capturedToken := groupText 1 tokenMatches in
              let len :=
                Z.of_nat (String.length (matched tokenMatches)) in
              if String.eqb capturedToken "(" then
                Continue
                  (advance
                     {| currentIndex := currentIndex sc;
                        openingBrackets := S (openingBrackets sc);
                        closingBrackets := closingBrackets sc;
                        hasJsonFunction := hasJsonFunction sc;
                        hasInvalidToken := hasInvalidToken sc |} len)
              else if String.eqb capturedToken ")" then
                Continue
                  (advance
                     {| currentIndex := currentIndex sc;
                        openingBrackets := openingBrackets sc;
                        closingBrackets := S (closingBrackets sc);
                        hasJsonFunction := hasJsonFunction sc;
                        hasInvalidToken := hasInvalidToken sc |} len)
              else if String.eqb capturedToken ";" then
                Break
                  {| currentIndex := currentIndex sc;
                     openingBrackets := openingBrackets sc;
                     closingBrackets := closingBrackets sc;
                     hasJsonFunction := hasJsonFunction sc;
                     hasInvalidToken := true |}
              else Continue (advance sc len)
          | None => Break sc
          end
      end
  end.

(** The [while] loop; [None] when [fuel] turns were not enough. *)
Fixpoint while (fuel : nat) (stmt : string) (sc : scan) : option scan :=
  if (currentIndex sc <? Z.of_nat (String.length stmt))%Z then
    match fuel with
    | O => None
    | S fuel' =>
        match body stmt sc with
        | Continue sc' => while fuel' stmt sc'
        | Break sc' => Some sc'
        end
    end
  else Some sc.

(** The check after the loop. *)
Definition verdict (stmt : string) (sc : scan) : completion bool :=
  if hasJsonFunction sc
     && (hasInvalidToken sc
         || negb (openingBrackets sc =? closingBrackets sc)%nat)
  then Throw (Error ("Invalid json statement: " ++ stmt))
  else Return (hasJsonFunction sc).

(** The argument of [_checkValidJsonStatement]: a string or another
    value. *)
Definition _checkValidJsonStatementWith (fuel : nat) (stmt : value)
  : option (completion bool) :=
  match stmt with
  | VStr s =>
      option_map (verdict s)
        (while fuel s
           {| currentIndex := 0; openingBrackets := 0;
              closingBrackets := 0; hasJsonFunction := false;
              hasInvalidToken := false |})
  | _ => Some (Return false)
  end.

(** [_checkValidJsonStatement(stmt)], with one turn per character: a
    turn that continues moves forward, which makes this enough. *)
Definition _checkValidJsonStatement (stmt : value)
  : option (completion bool) :=
  _checkValidJsonStatementWith
    (match stmt with VStr s => String.length s | _ => 0 end) stmt.

(** *** handleSequelizeMethod: the type of a cast *)

(** [r.test(s)]. *)
Definition test (icase : bool) (r : re) (s : string) : bool :=
  match search icase r s with
  | Some _ => true
  | None => false
  end.

(** The value of [smth.type] after the [Utils.Cast] branch of
    [handleSequelizeMethod]; [json] is [smth.json]. *)
Definition castType (json : value) (type : string) : string :=
  if test true (lit "timestamp") type then "datetime"
  else if truthy json && test true (lit "boolean") type then "char"
  else if test true (lit "double precision") type
          || test true (lit "boolean") type
          || test true (lit "integer") type
  then "decimal"
  else if test true (lit "text") type then "char"
  else type.

(** *** attributesToSQL *)

(** An entry of the attribute map: its [field] and what
    [attributeToSQL] reads of it. *)
Record ModelAttribute : Type := {
  columnField : option string;
  definition : attributeArg
}.

Section Attributes.
Variable escape : value -> string.
Variable quoteIdentifier : string -> string.
Variable quoteTable : string -> string.
Variable defaultValueSchemable : value -> bool.

(** The key [attribute.field || key] of an entry. *)
Definition columnName (entry : string * ModelAttribute) : string :=
  match present (columnField (snd entry)) with
  | Some f => f
  | None => fst entry
  end.

Definition attributesToSQL (attributes : obj ModelAttribute)
    (options : option AttributeOptions) : obj string :=
  fold_left
    (fun result entry =>
       set result (columnName entry)
         (attributeToSQL escape quoteIdentifier quoteTable
            defaultValueSchemable (definition (snd entry)) options))
    attributes [].
End Attributes.

(** *** changeColumnQuery *)

(** [(?=r)] for an [r] without groups: [r] does not fail to match. *)
Definition lookahead (r : re) : re := NLook (NLook r).

(** [/.+?(?=REFERENCES)/] *)
Definition beforeReferencesRegex : re :=
  Cat (Rep 1 None false dot) (lookahead (lit "REFERENCES")).

(** [s.replace(r, rep)] for an expression without the [g] flag and a
    replacement without patterns: the leftmost match is replaced. *)
Fixpoint replaceMatch (r : re) (rep s : string) : string :=
  match matchHere false r s with
  | Some m => rep ++ Str.drop (String.length (matched m)) s
  | None =>
      match s with
      | EmptyString => EmptyString
      | String c t => String c (replaceMatch r rep t)
      end
  end.

Section Change.
Variable quoteIdentifier : string -> string.
Variable quoteTable : string -> string.

(** The two accumulators of the loop of [changeColumnQuery]. *)
Record changes : Type := {
  attrString : list string;
  constraintString : list string
}.

(** One turn of [for (const attributeName in attributes)]. *)
Definition change (acc : changes) (attributeName definition : string)
  : changes :=
  if Str.includes "REFERENCES" definition then
    let attrName := quoteIdentifier attributeName in
    let definition :=
      replaceMatch beforeReferencesRegex EmptyString definition in
    {| attrString := attrString acc;
       constraintString :=
         push (constraintString acc)
           ("FOREIGN KEY (" ++ attrName ++ ") " ++ definition) |}
  else
    {| attrString :=
         push (attrString acc)
           ("`" ++ attributeName ++ "` `" ++ attributeName ++ "` "
              ++ definition);
       constraintString := constraintString acc |}.

Definition changeColumnQuery (tableName : string) (attributes : obj string)
  : string :=
  let acc :=
    fold_left (fun acc kv => change acc (fst kv) (snd kv)) attributes
      {| attrString := []; constraintString := [] |} in
  let finalQuery :=
    match attrString acc with
    | [] => EmptyString
    | _ :: _ =>
        "CHANGE " ++ Str.join ", " (attrString acc)
          ++ match constraintString acc with
             | [] => EmptyString
             | _ :: _ => " "
             end
    end in
  let finalQuery :=
    match constraintString acc with
    | [] => finalQuery
    | _ :: _ => finalQuery ++ "ADD " ++ Str.join ", " (constraintString acc)
    end in
  "ALTER TABLE " ++ quoteTable tableName ++ " " ++ finalQuery ++ ";".

(** [renameColumnQuery(tableName, attrBefore, attributes)]. *)
Definition renameColumnQuery (tableName attrBefore : string)
    (attributes : obj string) : string :=
  let attrString :=
    fold_left
      (fun attrString kv =>
         push attrString
           ("`" ++ attrBefore ++ "` `" ++ fst kv ++ "` " ++ snd kv))
      attributes [] in
  "ALTER TABLE " ++ quoteTable tableName ++ " CHANGE "
    ++ Str.join ", " attrString ++ ";".
End Change.

End QueryGenerator.

(** ** query.js *)

Module Query.

Import Regex.

Definition backtick : string := "`".

(** [/Duplicate entry '([\s\S]{0,})' for key '?((.|\s){0,}?)'?$/], which
    the source writes with the star quantifier for [{0,}]. *)
Definition duplicateEntryRegex : re :=
  seq [ lit "Duplicate entry '";
        Grp 1 (star spaceOrNot);
        lit "' for key ";
        opt (chr "'");
        Grp 2 (lazyStar (Grp 3 (Alt dot space)));
        opt (chr "'");
        Eos ].

(** [/CONSTRAINT ([`Q])(.{0,})\1 FOREIGN KEY \(\1(.{0,})\1\) REFERENCES
    \1(.{0,})\1 \(\1(.{0,})\1\)/], Q the double quote and the star
    quantifier for [{0,}] in the source. *)
Definition foreignKeyRegex : re :=
  seq [ lit "CONSTRAINT ";
        Grp 1 (oneOf (backtick ++ QueryGenerator.dquote));
        Grp 2 (star dot); Bref 1;
        lit " FOREIGN KEY ("; Bref 1; Grp 3 (star dot); Bref 1;
        lit ") REFERENCES "; Bref 1; Grp 4 (star dot); Bref 1;
        lit " ("; Bref 1; Grp 5 (star dot); Bref 1; chr ")" ].

(** [new RegExp(`${quoteChar}, *${quoteChar}`)] for a quote character. *)
Definition fieldSeparator (quoteChar : string) : re :=
  seq [ lit quoteChar; chr ","; star (chr " "); lit quoteChar ].

(** The error handed over by the driver. *)
Record DriverError : Type := {
  errno : value;
  code : value;
  message : string
}.

Record UniqueKey : Type := { msg : option string; fields : list string }.

Record Model : Type := { uniqueKeys : obj UniqueKey }.

(** [this]: the query object. *)
Record query : Type := {
  model : option Model;
  instance : option (obj value);
  isSelectQuery : bool
}.

Record ValidationErrorItem : Type := {
  item_message : string;
  item_type : string;
  item_path : string;
  item_value : value;
  item_instance : option (obj value);
  item_validatorKey : string
}.

Record UniqueConstraint : Type := {
  uc_message : string;
  uc_errors : list ValidationErrorItem;
  uc_parent : DriverError;
  uc_fields : obj value;
  uc_stack : value
}.

Record ForeignKeyConstraint : Type := {
  fk_reltype : string;
  fk_table : value;
  fk_fields : option (list string);
  fk_value : value;
  fk_index : value;
  fk_parent : DriverError;
  fk_stack : value
}.

Inductive SequelizeError : Type :=
| UniqueConstraintError (e : UniqueConstraint)
| ForeignKeyConstraintError (e : ForeignKeyConstraint)
| DatabaseError (parent : DriverError) (stack : value).

(** The names that [{}] inherits from [Object.prototype]: reading one
    of them from a plain object gives a truthy value that has none of
    the properties the code asks for, and the [in] operator finds
    them. *)
Definition inherited : list string :=
  ["constructor"; "__defineGetter__"; "__defineSetter__"; "hasOwnProperty";
   "__lookupGetter__"; "__lookupSetter__"; "isPrototypeOf";
   "propertyIsEnumerable"; "toString"; "valueOf"; "__proto__";
   "toLocaleString"].

(** The bindings of the module scope of query.js: its [require]s, its
    [debug] and its class. *)
Definition moduleScope : list string :=
  ["Utils"; "AbstractQuery"; "sequelizeErrors"; "_"; "logger"; "debug";
   "Query"].

Section Scope.
(** The properties of the global object, where an identifier that no
    enclosing scope declares is looked up. *)
Variable globals : obj value.
(** [AbstractQuery.prototype.getUniqueConstraintErrorMessage]. *)
Variable getUniqueConstraintErrorMessage : string -> string.

(** Reading a free identifier of [formatError]. *)
Definition resolve (ident : string) : completion value :=
  match get globals ident with
  | Some v => Return v
  | None => Throw (ReferenceError ident)
  end.

Definition orUndefined (s : option string) : value :=
  match s with
  | Some w => VStr w
  | None => VUndefined
  end.

(** [_.zipObject(props, values)]. *)
Fixpoint zipObject (props : list string) (values : list string)
    (acc : obj value) : obj value :=
  match props with
  | [] => acc
  | p :: props' =>
      zipObject props' (tl values) (set acc p (orUndefined (hd_error values)))
  end.

(** The [case ER_DUP_ENTRY] block. *)
Definition duplicateEntry (this : query) (err : DriverError)
  : completion SequelizeError :=
  let match_ := search false duplicateEntryRegex (message err) in
  let values :=
    option_map
      (fun m => Str.splitOn "-" (QueryGenerator.groupText 1 m)) match_ in
  let fieldKey :=
    option_map
      (fun m =>
         last (Str.splitOn "." (QueryGenerator.groupText 2 m))
           EmptyString)
      match_ in
  let fieldVal :=
    option_map (fun m => QueryGenerator.groupText 1 m) match_ in
  let key := toString (orUndefined fieldKey) in
  let uniqueKey :=
    match model this with
    | Some mdl =>
        match get (uniqueKeys mdl) key with
        | Some uk => Some uk
        | None =>
            if existsb (String.eqb key) inherited
            then Some {| msg := None; fields := [] |}
            else None
        end
    | None => None
    end in
  let message :=
    match uniqueKey with
    | Some uk =>
        match QueryGenerator.present (msg uk) with
        | Some text => text
        | None => "Validation error"
        end
    | None => "Validation error"
    end in
  let fields :=
    match uniqueKey with
    | Some uk =>
        zipObject (fields uk)
          (match values with Some vs => vs | None => [] end) []
    | None =>
        if String.eqb key "__proto__" then []
        else set [] key (orUndefined fieldVal)
    end in
  let errors :=
    map
      (fun fv =>
         {| item_message := getUniqueConstraintErrorMessage (fst fv);
            item_type := "unique violation";
            item_path := fst fv;
            item_value := snd fv;
            item_instance := instance this;
            item_validatorKey := "not_unique" |})
      fields in
  errStack <- resolve "errStack" ;;
  Return
    (UniqueConstraintError
       {| uc_message := message; uc_errors := errors; uc_parent := err;
          uc_fields := fields; uc_stack := errStack |}).

(** The [case ER_ROW_IS_REFERENCED: case ER_NO_REFERENCED_ROW:] block. *)
Definition foreignKey (this : query) (err : DriverError)
    (errCode : value) : completion SequelizeError :=
  let match_ := search false foreignKeyRegex (message err) in
  let quoteChar :=
    match match_ with
    | Some m => QueryGenerator.groupText 1 m
    | None => backtick
    end in
  let fields :=
    option_map
      (fun m =>
         split false (fieldSeparator quoteChar)
           (QueryGenerator.groupText 3 m))
      match_ in
  referenced <- resolve "ER_ROW_IS_REFERENCED" ;;
  let value :=
    match fields, instance this with
    | Some (f :: _), Some inst =>
        match get inst f with
        | Some v => if truthy v then v else VUndefined
        | None => VUndefined
        end
    | _, _ => VUndefined
    end in
  errStack <- resolve "errStack" ;;
  Return
    (ForeignKeyConstraintError
       {| fk_reltype :=
            if String.eqb (toString errCode) (toString referenced)
            then "parent" else "child";
          fk_table :=
            orUndefined
              (option_map (QueryGenerator.groupText 4) match_);
          fk_fields := fields;
          fk_value := value;
          fk_index :=
            orUndefined
              (option_map (QueryGenerator.groupText 2) match_);
          fk_parent := err;
          fk_stack := errStack |}).

(** [formatError(err)]: the [switch] evaluates its case labels in
    order until one is strictly equal to [errCode]. *)
Definition formatError (this : query) (err : DriverError)
  : completion SequelizeError :=
  let errCode := if truthy (errno err) then errno err else code err in
  dup <- resolve "ER_DUP_ENTRY" ;;
  if strictEq errCode dup then duplicateEntry this err
  else
    referenced <- resolve "ER_ROW_IS_REFERENCED" ;;
    if strictEq errCode referenced then foreignKey this err errCode
    else
      noRow <- resolve "ER_NO_REFERENCED_ROW" ;;
      if strictEq errCode noRow then foreignKey this err errCode
      else
        errStack <- resolve "errStack" ;;
        Return (DatabaseError err errStack).
End Scope.

(** *** run *)

(** The second argument of [connection.execute]. *)
Inductive bindings : Type :=
| Given (parameters : list value)
| EmptyObject.

(** The call [connection.execute(sql, parameters, execOptions, handler)]
    that [run] issues. *)
Record execute : Type := {
  sent_sql : string;
  sent_parameters : bindings
}.

(** The first statement of [run]: the text stored in [this.sql]. *)
Definition rewrite (this : query) (sql : string) : string :=
  if isSelectQuery this
     && (Str.includes " = true" sql || Str.includes " = false" sql)
  then Str.replaceAll " = false" " = 0" (Str.replaceAll " = true" " = 1" sql)
  else sql.

Definition run (this : query) (sql : string)
    (parameters : option (list value)) : execute :=
  {| sent_sql := rewrite this sql;
     sent_parameters :=
       match parameters with
       | Some p => Given p
       | None => EmptyObject
       end |}.

(** *** formatResults: the ids of a bulk insert *)

(** The [for] loop that collects the ids, [i] running from [startId]
    up to [bound], with [i++] on doubles; [None] when [fuel] turns were
    not enough. *)
Fixpoint insertedIds (fuel : nat) (field : string) (i bound : Z)
    (result : list (obj value)) : option (list (obj value)) :=
  if (i <? bound)%Z then
    match fuel with
    | O => None
    | S fuel' =>
        insertedIds fuel' field (toDouble (i + 1)) bound
          (result ++ [[(field, VNum i)]])%list
    end
  else Some result.

(** [result] of a bulk insert on a model whose primary key is its
    auto-increment attribute, stored in the column [field], for an
    insert id and a row count that are integers among the doubles. The
    loop is given one turn per unit between [startId] and the bound,
    which is enough unless some [i + 1] is rounded back to [i] or
    below; then the loop of the source does not end, and the result is
    [None]. *)
Definition bulkInsertResult (field : string) (startId affectedRows : Z)
  : option (list (obj value)) :=
  let bound := toDouble (startId + affectedRows) in
  insertedIds (Z.to_nat (bound - startId)) field startId bound [].

(** *** formatResults: the version query *)

(** A row as the driver hands it over: an array, an object, or a
    primitive. *)
Inductive row : Type :=
| RowArray (cells : list value)
| RowObject (columns : obj value)
| RowValue (v : value).

(** The argument of [substr] is evaluated before [substr] is called,
    so on a truthy value that is no string the call of [indexOf] is
    what fails. *)
Definition indexOfNonString : exn :=
  TypeError "version.indexOf is not a function".

(** The [isVersionQuery] branch of [formatResults]. *)
Definition versionOf (data : list row) : completion value :=
  let version :=
    match data with
    | RowArray cells :: _ =>
        match cells with
        | c :: _ => c
        | [] => VUndefined
        end
    | RowObject columns :: _ =>
        match get columns "BANNER" with
        | Some v => v
        | None => VUndefined
        end
    | RowValue v :: _ => v
    | [] => VUndefined
    end in
  if truthy version then
    match version with
    | VStr s =>
        Return
          (VStr (QueryGenerator.substr s (QueryGenerator.indexOf "V" s)))
    | _ => Throw indexOfNonString
    end
  else Return VNull.

(** *** handleShowIndexesQuery *)

(** A row of the index listing. *)
Record IndexRow : Type := {
  Key_name : string;
  Seq_in_index : Z;
  Column_name : value;
  Sub_part : value;
  Collation : value;
  Table : value;
  Non_unique : value;
  Index_type : value
}.

Record IndexField : Type := {
  attribute : value;
  length : value;
  order : value
}.

Record Index : Type := {
  primary : bool;
  index_fields : list (option IndexField);
  name : string;
  tableName : value;
  unique : bool;
  index_type : value
}.

(** [a[n] = v] on an array: the array grows, with holes, up to [n]. *)
Fixpoint assignAt (A : Type) (a : list (option A)) (n : nat) (v : A)
  : list (option A) :=
  match n, a with
  | O, [] => [Some v]
  | O, _ :: t => Some v :: t
  | S n', [] => None :: assignAt A [] n' v
  | S n', x :: t => x :: assignAt A t n' v
  end.

Definition fieldOf (item : IndexRow) : IndexField :=
  {| attribute := Column_name item;
     length := if truthy (Sub_part item) then Sub_part item else VUndefined;
     order := if strictEq (Collation item) (VStr "A")
              then VStr "ASC" else VUndefined |}.

(** [fields[item.Seq_in_index - 1] = ...]: a negative index names a
    property that is no element of the array. *)
Definition place (fields : list (option IndexField)) (item : IndexRow)
  : list (option IndexField) :=
  if (0 <=? Seq_in_index item - 1)%Z
  then assignAt IndexField fields (Z.to_nat (Seq_in_index item - 1))
         (fieldOf item)
  else fields.

Definition fieldsOfUndefined : exn :=
  TypeError "Cannot set property of undefined".

(** One call of the reducer: the accumulator maps a name to the first
    row of that name and to the [fields] array put on that row. *)
Definition collect (acc : obj (IndexRow * list (option IndexField)))
    (item : IndexRow)
  : completion (obj (IndexRow * list (option IndexField))) :=
  match get acc (Key_name item) with
  | Some (first, fields) =>
      Return (set acc (Key_name item) (first, place fields item))
  | None =>
      if existsb (String.eqb (Key_name item)) inherited
      then Throw fieldsOfUndefined
      else Return (set acc (Key_name item) (item, place [] item))
  end.

Fixpoint reduce (data : list IndexRow)
    (acc : obj (IndexRow * list (option IndexField)))
  : completion (obj (IndexRow * list (option IndexField))) :=
  match data with
  | [] => Return acc
  | item :: more =>
      acc' <- collect acc item ;;
      reduce more acc'
  end.

Definition indexOfGroup (group : string * (IndexRow * list (option IndexField)))
  : Index :=
  let item := fst (snd group) in
  {| primary := String.eqb (Key_name item) "PRIMARY";
     index_fields := snd (snd group);
     name := Key_name item;
     tableName := Table item;
     unique := negb (strictEq (Non_unique item) (VNum 1));
     index_type := Index_type item |}.

Definition handleShowIndexesQuery (data : list IndexRow)
  : completion (list Index) :=
  groups <- reduce data [] ;;
  Return (map indexOfGroup groups).

End Query.

(** * Reference definitions

    What the statements below compare the code with, and the concrete
    inputs they are evaluated at. *)

Module Reference.

(** ** Connections *)

(** The code table of the connection errors: the class named for each
    driver error code; a code that is not listed is generic. *)
Definition codeTable : obj ConnectionManager.ConnectionErrorKind :=
  [ ("ECONNREFUSED", ConnectionManager.ConnectionRefusedError);
    ("ER_ACCESS_DENIED_ERROR", ConnectionManager.AccessDeniedError);
    ("ENOTFOUND", ConnectionManager.HostNotFoundError);
    ("EHOSTUNREACH", ConnectionManager.HostNotReachableError);
    ("EINVAL", ConnectionManager.InvalidConnectionError) ].

Definition kindOfCode (code : value) : ConnectionManager.ConnectionErrorKind :=
  match code with
  | VStr s =>
      match get codeTable s with
      | Some k => k
      | None => ConnectionManager.ConnectionError
      end
  | _ => ConnectionManager.ConnectionError
  end.

(** A connection that the driver reports closed although [disconnect]
    was never asked to close it. *)
Definition closedByPeer : ConnectionManager.Connection :=
  {| ConnectionManager._fatalError := false;
     ConnectionManager._protocolError := false;
     ConnectionManager._closing := false;
     ConnectionManager.closed := true |}.

(** A driver that refuses every connection. *)
Definition refused : ConnectionManager.DriverError :=
  {| ConnectionManager.errCode := VStr "ECONNREFUSED";
     ConnectionManager.errMessage := "connect ECONNREFUSED 127.0.0.1:5236" |}.

Definition localConfig : ConnectionManager.Config :=
  {| ConnectionManager.username := VStr "SYSDBA";
     ConnectionManager.password := VStr "SYSDBA";
     ConnectionManager.host := VStr "127.0.0.1";
     ConnectionManager.port := VNum 5236;
     ConnectionManager.database := VStr "sequelize_test";
     ConnectionManager.pool_max := VNum 5;
     ConnectionManager.pool_idle := VNum 30000;
     ConnectionManager.dialectOptions := [] |}.

(** ** Generated SQL *)

(** Identifiers and tables in double quotes, values as quoted text. *)
Definition quote (s : string) : string :=
QueryGenerator.dquote ++ s ++ QueryGenerator.dquote.

Definition sqlEscape (v : value) : string := "'" ++ toString v ++ "'".

(** [Utils.defaultValueSchemable] on primitives: all but [undefined]. *)
Definition schemable (v : value) : bool :=
match v with
| VUndefined => false
| _ => true
end.

(** The attribute with another default value. *)
Definition withDefault (v : value) (a : QueryGenerator.Attribute)
  : QueryGenerator.Attribute :=
{| QueryGenerator.type := QueryGenerator.type a;
   QueryGenerator.allowNull := QueryGenerator.allowNull a;
   QueryGenerator.autoIncrement := QueryGenerator.autoIncrement a;
   QueryGenerator.defaultValue := v;
   QueryGenerator.unique := QueryGenerator.unique a;
   QueryGenerator.primaryKey := QueryGenerator.primaryKey a;
   QueryGenerator.comment := QueryGenerator.comment a;
   QueryGenerator.first := QueryGenerator.first a;
   QueryGenerator.after := QueryGenerator.after a;
   QueryGenerator.references := QueryGenerator.references a;
   QueryGenerator.onDelete := QueryGenerator.onDelete a;
   QueryGenerator.onUpdate := QueryGenerator.onUpdate a |}.

(** [{ type: DataTypes.TEXT, allowNull: false, defaultValue: 'n/a' }]. *)
Definition notes : QueryGenerator.Attribute :=
{| QueryGenerator.type :=
     {| QueryGenerator.toSql := "TEXT"; QueryGenerator._binary := VUndefined |};
   QueryGenerator.allowNull := VBool false;
   QueryGenerator.autoIncrement := VUndefined;
   QueryGenerator.defaultValue := VStr "n/a";
   QueryGenerator.unique := VUndefined;
   QueryGenerator.primaryKey := VUndefined;
   QueryGenerator.comment := VUndefined;
   QueryGenerator.first := VUndefined;
   QueryGenerator.after := None;
   QueryGenerator.references := None;
   QueryGenerator.onDelete := None;
   QueryGenerator.onUpdate := None |}.

(** A model whose identity column [uid] is declared after [name]:
    [define('users', { name: STRING, uid: { type: INTEGER,
    primaryKey: true, autoIncrement: true } })]. *)
Definition usersModel : QueryGenerator.Model :=
{| QueryGenerator.rawAttributes :=
     Some [ ("name", {| QueryGenerator.field := Some "name";
                        QueryGenerator.ra_autoIncrement := VUndefined |});
            ("uid", {| QueryGenerator.field := Some "uid";
                       QueryGenerator.ra_autoIncrement := VBool true |}) ] |}.

(** The values of [users.upsert({ name: 'john', uid: 7 })]. *)
Definition john : obj value := [("name", VStr "john"); ("uid", VNum 7)].

(** The rendering of an inserted value as a literal. *)
Definition literal (idx : nat) (v : value)
    (attribute : option QueryGenerator.RawAttribute) : string :=
sqlEscape v.

(** A JSON path that smuggles a second statement after a comparison. *)
Definition smuggled : string := "json_extract(a)=1; DROP TABLE users".

(** ** Driver errors *)

(** The duplicate-entry error of the scenario, and a query on a model
    with the unique key [name_secret]. *)
Definition duplicate : Query.DriverError :=
{| Query.errno := VUndefined;
   Query.code := VNum 1062;
   Query.message := "Duplicate entry 'john-7' for key 'users.name_secret'" |}.

Definition usersQuery : Query.query :=
{| Query.model :=
     Some {| Query.uniqueKeys :=
               [ ("name_secret",
                  {| Query.msg := None;
                     Query.fields := ["name"; "secretValue"] |}) ] |};
   Query.instance := None;
   Query.isSelectQuery := false |}.

(** The constants that the upstream MySQL dialect declares at the top of
    its query.js, as globals. *)
Definition mysqlConstants : obj value :=
[ ("ER_DUP_ENTRY", VNum 1062);
  ("ER_ROW_IS_REFERENCED", VNum 1451);
  ("ER_NO_REFERENCED_ROW", VNum 1452);
  ("errStack", VUndefined) ].

Definition mustBeUnique (field : string) : string :=
field ++ " must be unique".

(** ** Boolean literals in SELECT statements *)

(** One pass over the text in which every occurrence of [ = true] becomes
    [ = 1] and every occurrence of [ = false] becomes [ = 0]; [skip]
    counts the characters of an occurrence still to pass over. *)
Fixpoint booleansAsBitsFrom (skip : nat) (s : string) : string :=
match s with
| EmptyString => EmptyString
| String c t =>
    match skip with
    | S k => booleansAsBitsFrom k t
    | O =>
        if Str.startsWith " = true" s
        then " = 1" ++ booleansAsBitsFrom 6 t
        else if Str.startsWith " = false" s
        then " = 0" ++ booleansAsBitsFrom 7 t
        else String c (booleansAsBitsFrom 0 t)
    end
end.

Definition booleansAsBits (s : string) : string := booleansAsBitsFrom 0 s.

(** [w] and [r] part ways at a character that both have. *)
Fixpoint differ (w r : string) : bool :=
match w, r with
| String a w', String b r' => if Ascii.eqb a b then differ w' r' else true
| _, _ => false
end.

(** Every non-empty suffix of [w] parts ways with [r]. *)
Fixpoint allSuffixesDiffer (w r : string) : bool :=
match w with
| EmptyString => true
| String _ w' => differ w r && allSuffixesDiffer w' r
end.

(** ** What a regular expression matches

    The states a run can go through, without the order in which the
    matcher tries them: [matches icase r st st'] when [r] can read from
    [st] to [st']. *)

(** [n] turns of a quantified expression, its captures reset on entry. *)
Inductive iter (M : Regex.state -> Regex.state -> Prop) (inner : list nat)
  : nat -> Regex.state -> Regex.state -> Prop :=
| iter_O : forall st, iter M inner 0 st st
| iter_S : forall n st mid st',
    M (Regex.clearCaps inner st) mid ->
    iter M inner n mid st' ->
    iter M inner (S n) st st'.

Fixpoint matches (icase : bool) (r : Regex.re) (st st' : Regex.state)
  : Prop :=
match r with
| Regex.Eps => st' = st
| Regex.Cls invert p =>
    exists c,
      Regex.rest st = String c (Regex.rest st')
      /\ Regex.charMatches icase invert p c = true
      /\ Regex.caps st' = Regex.caps st
| Regex.Cat r1 r2 =>
    exists mid, matches icase r1 st mid /\ matches icase r2 mid st'
| Regex.Alt r1 r2 => matches icase r1 st st' \/ matches icase r2 st st'
| Regex.Rep min max greedy r' =>
    exists n,
      min <= n /\ iter (matches icase r') (Regex.groupsOf r') n st st'
| Regex.Grp i r' =>
    exists mid,
      matches icase r' st mid
      /\ st' = {| Regex.rest := Regex.rest mid;
                  Regex.caps :=
                    (i, Regex.consumed (Regex.rest st) (Regex.rest mid))
                      :: Regex.caps mid |}
| Regex.Bref i =>
    Regex.caps st' = Regex.caps st
    /\ match Regex.capture i (Regex.caps st) with
       | None => Regex.rest st' = Regex.rest st
       | Some w => Regex.readWord icase w (Regex.rest st)
                   = Some (Regex.rest st')
       end
| Regex.NLook r' => st' = st
| Regex.Eos => st' = st /\ Regex.rest st = EmptyString
end.

(** Quantifier bounds in order. *)
Fixpoint boundsOrdered (r : Regex.re) : bool :=
match r with
| Regex.Cat r1 r2 | Regex.Alt r1 r2 => boundsOrdered r1 && boundsOrdered r2
| Regex.Rep min max _ r' =>
    match max with
    | Some m => (min <=? m)%nat
    | None => true
    end && boundsOrdered r'
| Regex.Grp _ r' | Regex.NLook r' => boundsOrdered r'
| _ => true
end.

(** Every character of [s] passes [p]. *)
Fixpoint allChars (p : ascii -> bool) (s : string) : bool :=
match s with
| EmptyString => true
| String c t => p c && allChars p t
end.

(** ** Tables *)

(** No line terminator in the text. *)
Definition singleLine (s : string) : bool :=
allChars (fun c => negb (Regex.isLineTerminator c)) s.

(** A type string has a REFERENCES clause when the word comes after some
    text and a space, on a single line. *)
Definition hasReferencesClause (dataType : string) : Prop :=
exists base tail,
  dataType = base ++ " REFERENCES" ++ tail
  /\ base <> EmptyString
  /\ singleLine dataType = true.

(** What the statement is to show for a column [(attr, dataType)]: its
    definition and, when the type string ends in a REFERENCES clause,
    the clause that is moved behind the columns. *)
Inductive rendered (quoteIdentifier : string -> string)
  : string * string -> string * option (string * string) -> Prop :=
| rendered_deferred : forall attr base ref,
    Str.startsWith "REFERENCES" ref = true ->
    rendered quoteIdentifier (attr, base ++ " " ++ ref)
      (quoteIdentifier attr ++ " "
         ++ (if Str.includes "PRIMARY KEY" (base ++ " " ++ ref)
             then Str.replaceFirst "PRIMARY KEY" EmptyString base
             else base),
       Some (attr, ref))
| rendered_inline : forall attr dataType,
    Str.includes "REFERENCES" dataType = false ->
    rendered quoteIdentifier (attr, dataType)
      (quoteIdentifier attr ++ " "
         ++ (if Str.includes "PRIMARY KEY" dataType
             then Str.replaceFirst "PRIMARY KEY" EmptyString dataType
             else if Str.includes "JSON" dataType
             then dataType ++ " CHECK (" ++ quoteIdentifier attr
                  ++ " IS JSON(LAX))"
             else dataType),
       None).

(** The columns whose type string says PRIMARY KEY. *)
Definition primaryKeyColumns (attributes : obj string) : list string :=
map fst (filter (fun c => Str.includes "PRIMARY KEY" (snd c)) attributes).

(** The clauses moved behind the columns, in column order. *)
Fixpoint deferred (cols : list (string * option (string * string)))
  : obj string :=
match cols with
| [] => []
| (_, Some r) :: more => r :: deferred more
| (_, None) :: more => deferred more
end.

(** [users(id, name, owner)] with a reference to [people]. *)
Definition usersTable : obj string :=
[ ("id", "INTEGER auto_increment PRIMARY KEY");
  ("name", "VARCHAR(255)");
  ("owner", "INTEGER REFERENCES people (id)") ].

(** ** Measures on regular expressions *)

(** The least number of characters a match of [r] reads. *)
Fixpoint minLen (r : Regex.re) : nat :=
match r with
| Regex.Cls _ _ => 1
| Regex.Cat r1 r2 => minLen r1 + minLen r2
| Regex.Alt r1 r2 => Nat.min (minLen r1) (minLen r2)
| Regex.Rep min _ _ r' => min * minLen r'
| Regex.Grp _ r' => minLen r'
| _ => 0
end.

(** All code units below 256. *)
Definition allAscii : list ascii := map ascii_of_nat (seq 0 256).

(** Every character that [r] can read passes [P]; an expression with a
    back-reference is not looked into. *)
Fixpoint within (icase : bool) (P : ascii -> bool) (r : Regex.re) : bool :=
match r with
| Regex.Cls invert p =>
    forallb (fun c => implb (Regex.charMatches icase invert p c) (P c))
      allAscii
| Regex.Cat r1 r2 | Regex.Alt r1 r2 => within icase P r1 && within icase P r2
| Regex.Rep _ _ _ r' | Regex.Grp _ r' => within icase P r'
| Regex.Bref _ => false
| _ => true
end.

(** A matcher asks its continuation only about states that have no more
    left to read than the state it started in. *)
Definition forwardOnly (body : Regex.cont -> Regex.cont) : Prop :=
forall (k1 k2 : Regex.cont) (st : Regex.state),
  (forall st',
      String.length (Regex.rest st') <= String.length (Regex.rest st) ->
      k1 st' = k2 st') ->
  body k1 st = body k2 st.

Definition notParen (c : ascii) : bool := negb (Ascii.eqb c "(").
Definition isParen (c : ascii) : bool := Ascii.eqb c "(".
Definition anything (c : ascii) : bool := true.

(** ** The UPDATE SET clause of an upsert *)

Definition assignment (key : string) : string :=
"T1." ++ QueryGenerator.dquote ++ key ++ QueryGenerator.dquote
  ++ "=T2." ++ QueryGenerator.dquote ++ key ++ QueryGenerator.dquote.

(** The updated keys that are assigned: all but [id] and, when an
    inserted value belongs to an auto-increment attribute, the first. *)
Fixpoint assignedFrom (identityInsert : bool) (idx : nat)
    (keys : list string) : list string :=
match keys with
| [] => []
| key :: more =>
    if (identityInsert && (idx =? 0)%nat || String.eqb key "id")%bool
    then assignedFrom identityInsert (S idx) more
    else key :: assignedFrom identityInsert (S idx) more
end.

(** ** Lookups *)

(** The last entry of [l] that passes [p]. *)
Fixpoint findLast (A : Type) (p : A -> bool) (l : list A) : option A :=
match l with
| [] => None
| x :: more =>
    match findLast A p more with
    | Some y => Some y
    | None => if p x then Some x else None
    end
end.

(** A configuration whose dialect options set the pool size and the
    connection string themselves. *)
Definition tunedConfig : ConnectionManager.Config :=
{| ConnectionManager.username := VStr "SYSDBA";
   ConnectionManager.password := VStr "SYSDBA";
   ConnectionManager.host := VStr "127.0.0.1";
   ConnectionManager.port := VNum 5236;
   ConnectionManager.database := VStr "sequelize_test";
   ConnectionManager.pool_max := VNum 5;
   ConnectionManager.pool_idle := VNum 30000;
   ConnectionManager.dialectOptions :=
     [ ("poolMax", VNum 20);
       ("connectString", VStr "dm://app:secret@db:5236?autoCommit=false") ] |}.

(** ** A model with a foreign key *)

Definition integerColumn : QueryGenerator.Attribute :=
{| QueryGenerator.type :=
     {| QueryGenerator.toSql := "INTEGER"; QueryGenerator._binary := VUndefined |};
   QueryGenerator.allowNull := VBool false;
   QueryGenerator.autoIncrement := VBool true;
   QueryGenerator.defaultValue := VUndefined;
   QueryGenerator.unique := VUndefined;
   QueryGenerator.primaryKey := VBool true;
   QueryGenerator.comment := VUndefined;
   QueryGenerator.first := VUndefined;
   QueryGenerator.after := None;
   QueryGenerator.references := None;
   QueryGenerator.onDelete := None;
   QueryGenerator.onUpdate := None |}.

Definition ownerColumn : QueryGenerator.Attribute :=
{| QueryGenerator.type :=
     {| QueryGenerator.toSql := "INTEGER"; QueryGenerator._binary := VUndefined |};
   QueryGenerator.allowNull := VUndefined;
   QueryGenerator.autoIncrement := VUndefined;
   QueryGenerator.defaultValue := VUndefined;
   QueryGenerator.unique := VUndefined;
   QueryGenerator.primaryKey := VUndefined;
   QueryGenerator.comment := VUndefined;
   QueryGenerator.first := VUndefined;
   QueryGenerator.after := None;
   QueryGenerator.references :=
     Some {| QueryGenerator.ref_model := "people";
             QueryGenerator.ref_key := None |};
   QueryGenerator.onDelete := Some "cascade";
   QueryGenerator.onUpdate := None |}.

(** The attributes of a [tasks] model: [ownerId] is stored in the
    column [owner_id]. *)
Definition tasksAttributes : obj QueryGenerator.ModelAttribute :=
[ ("id",
   {| QueryGenerator.columnField := Some "id";
      QueryGenerator.definition := QueryGenerator.Plain integerColumn |});
  ("ownerId",
   {| QueryGenerator.columnField := Some "owner_id";
      QueryGenerator.definition := QueryGenerator.Plain ownerColumn |}) ].

(** ** Characters a match cannot do without *)

(** Some character of the text passes [P]. *)
Fixpoint someChar (P : ascii -> bool) (s : string) : bool :=
match s with
| EmptyString => false
| String c t => P c || someChar P t
end.

(** Every text that [r] reads has a character that passes [P]. *)
Fixpoint needs (icase : bool) (P : ascii -> bool) (r : Regex.re) : bool :=
match r with
| Regex.Cls invert p =>
    forallb (fun c => implb (Regex.charMatches icase invert p c) (P c))
      allAscii
| Regex.Cat r1 r2 => needs icase P r1 || needs icase P r2
| Regex.Alt r1 r2 => needs icase P r1 && needs icase P r2
| Regex.Rep min _ _ r' => (0 <? min)%nat && needs icase P r'
| Regex.Grp _ r' => needs icase P r'
| _ => false
end.

(** The characters without which no JSON function call and no JSON
    operator is recognised. *)
Definition jsonMark (c : ascii) : bool := Regex.mem c "(-@?|#".

Definition unmarked (s : string) : bool :=
allChars (fun c => negb (jsonMark c)) s.

(** ** The clauses of an upsert in closed form *)

Definition notId (key : string) : bool := negb (String.eqb key "id").

(** The list without its first element when the identity column is
    being inserted. *)
Definition afterIdentity (A : Type) (identityInsert : bool) (l : list A)
  : list A :=
if identityInsert then tl l else l.

(** A value and its column in the SELECT list. *)
Definition selected (fv : string * string) : string :=
snd fv ++ " " ++ fst fv.

(** The [NULL] column put before a SELECT list that does not start with
    the [id] column. *)
Definition nullId (fv : list (string * string)) : string :=
match fv with
| [] => EmptyString
| (field, _) :: _ =>
    if String.eqb field (QueryGenerator.dquote ++ "id" ++ QueryGenerator.dquote)
    then EmptyString
    else "NULL " ++ QueryGenerator.dquote ++ "id" ++ QueryGenerator.dquote ++ ", "
end.

(** ** Results of queries *)

(** The names of a list in the order of their first appearance. *)
Definition distinct (l : list string) : list string :=
fold_left
  (fun seen x => if existsb (String.eqb x) seen then seen else (seen ++ [x])%list)
  l [].

(** The element of an array at an index, if there is one there. *)
Definition elementAt (A : Type) (n : nat) (a : list (option A)) : option A :=
match nth_error a n with
| Some (Some v) => Some v
| _ => None
end.

Definition notV (c : ascii) : bool := negb (Ascii.eqb c "V").

(** The rows of the index listing of a table with a two-column primary
    key, listed second column first, and a unique index. *)
Definition indexRows : list Query.IndexRow :=
[ {| Query.Key_name := "PRIMARY"; Query.Seq_in_index := 2;
     Query.Column_name := VStr "b"; Query.Sub_part := VNull;
     Query.Collation := VStr "A"; Query.Table := VStr "t";
     Query.Non_unique := VNum 0; Query.Index_type := VStr "BTREE" |};
  {| Query.Key_name := "t_email"; Query.Seq_in_index := 1;
     Query.Column_name := VStr "email"; Query.Sub_part := VNum 10;
     Query.Collation := VNull; Query.Table := VStr "t";
     Query.Non_unique := VNum 0; Query.Index_type := VStr "BTREE" |};
  {| Query.Key_name := "PRIMARY"; Query.Seq_in_index := 1;
     Query.Column_name := VStr "a"; Query.Sub_part := VNull;
     Query.Collation := VStr "A"; Query.Table := VStr "t";
     Query.Non_unique := VNum 0; Query.Index_type := VStr "BTREE" |} ].

(** A name that [{}] does not inherit and that is no array index. *)
Definition plainName (k : string) : bool :=
negb (existsb (String.eqb k) Query.inherited)
&& match arrayIndex k with
   | Some _ => false
   | None => true
   end.

(** What the reducer has collected after the rows [rows]. *)
Definition collected (rows : list Query.IndexRow)
  (acc : obj (Query.IndexRow * list (option Query.IndexField))) : Prop :=
NoDup (keys acc)
/\ keys acc = distinct (map Query.Key_name rows)
/\ forall k,
     get acc k
     = match find (fun r => String.eqb (Query.Key_name r) k) rows with
       | Some first =>
           Some (first,
                 fold_left Query.place
                   (filter (fun r => String.eqb (Query.Key_name r) k) rows) [])
       | None => None
       end.

(** ** Errors *)

(** The driver error that a formatted error carries. *)
Definition parentOf (e : Query.SequelizeError) : Query.DriverError :=
match e with
| Query.UniqueConstraintError u => Query.uc_parent u
| Query.ForeignKeyConstraintError f => Query.fk_parent f
| Query.DatabaseError parent _ => parent
end.

(** [err.errno || err.code]. *)
Definition errCodeOf (err : Query.DriverError) : value :=
if truthy (Query.errno err) then Query.errno err else Query.code err.

(** The identifiers that [formatError] reads without declaring them. *)
Definition freeIdentifiers : list string :=
["ER_DUP_ENTRY"; "ER_ROW_IS_REFERENCED"; "ER_NO_REFERENCED_ROW"; "errStack"].

(** ** Changing a column *)

(** From every position of [p] the text [p ++ tail] goes on on the same
    line and does not start with REFERENCES. *)
Fixpoint untilReferences (p tail : string) : bool :=
match p with
| EmptyString => true
| String c p' =>
    negb (Regex.isLineTerminator c)
    && negb (Str.startsWith "REFERENCES" (p ++ tail))
    && untilReferences p' tail
end.

(** ** The attributes of a model by name *)

(** The attribute is called [k], by its key or by its column. *)
Definition goesBy (k : string) (kv : string * QueryGenerator.RawAttribute)
  : bool :=
String.eqb (fst kv) k
|| match QueryGenerator.present (QueryGenerator.field (snd kv)) with
   | Some f => String.eqb f k
   | None => false
   end.

(** ** Models with a keyword inside a literal *)

(** [{ type: INTEGER, comment: 'REFERENCES' }]. *)
Definition notedColumn : QueryGenerator.Attribute :=
{| QueryGenerator.type :=
     {| QueryGenerator.toSql := "INTEGER"; QueryGenerator._binary := VUndefined |};
   QueryGenerator.allowNull := VUndefined;
   QueryGenerator.autoIncrement := VUndefined;
   QueryGenerator.defaultValue := VUndefined;
   QueryGenerator.unique := VUndefined;
   QueryGenerator.primaryKey := VUndefined;
   QueryGenerator.comment := VStr "REFERENCES";
   QueryGenerator.first := VUndefined;
   QueryGenerator.after := None;
   QueryGenerator.references := None;
   QueryGenerator.onDelete := None;
   QueryGenerator.onUpdate := None |}.

(** The attributes of a [notes] model: a key and a commented column. *)
Definition notesAttributes : obj QueryGenerator.ModelAttribute :=
[ ("id",
   {| QueryGenerator.columnField := Some "id";
      QueryGenerator.definition := QueryGenerator.Plain integerColumn |});
  ("note",
   {| QueryGenerator.columnField := Some "note";
      QueryGenerator.definition := QueryGenerator.Plain notedColumn |}) ].

(** [{ type: STRING, defaultValue: 'PRIMARY KEY', primaryKey: true }]. *)
Definition labelColumn : QueryGenerator.Attribute :=
{| QueryGenerator.type :=
     {| QueryGenerator.toSql := "VARCHAR(255)";
        QueryGenerator._binary := VUndefined |};
   QueryGenerator.allowNull := VUndefined;
   QueryGenerator.autoIncrement := VUndefined;
   QueryGenerator.defaultValue := VStr "PRIMARY KEY";
   QueryGenerator.unique := VUndefined;
   QueryGenerator.primaryKey := VBool true;
   QueryGenerator.comment := VUndefined;
   QueryGenerator.first := VUndefined;
   QueryGenerator.after := None;
   QueryGenerator.references := None;
   QueryGenerator.onDelete := None;
   QueryGenerator.onUpdate := None |}.

(** The attributes of a [labels] model: its key. *)
Definition labelsAttributes : obj QueryGenerator.ModelAttribute :=
[ ("label",
   {| QueryGenerator.columnField := Some "label";
      QueryGenerator.definition := QueryGenerator.Plain labelColumn |}) ].

End Reference.

(** * Properties *)

(** ** Objects *)

Section ObjectProperties.

Variable A : Type.

Lemma get_absent (o : obj A) (k : string) :
  ~ In k (keys o) -> get o k = None.
Proof.
induction o as [|[k0 v0] o IH]; intros H; [reflexivity|].
cbn in H |- *. destruct (String.eqb_spec k0 k) as [->|Hne].
- exfalso. apply H. left. reflexivity.
- apply IH. intros Hin. apply H. right. exact Hin.
Qed.

Lemma get_In_keys (o : obj A) (k : string) (v : A) :
  get o k = Some v -> In k (keys o).
Proof.
induction o as [|[k0 v0] o IH]; [discriminate|]. cbn.
destruct (String.eqb_spec k0 k) as [->|Hne];
  [intros _; left; reflexivity|intros H; right; exact (IH H)].
Qed.

Lemma get_None_keys (o : obj A) (k : string) :
  get o k = None -> ~ In k (keys o).
Proof.
induction o as [|[k0 v0] o IH]; [intros _ []|]. cbn.
destruct (String.eqb_spec k0 k) as [->|Hne]; [discriminate|].
intros H [Heq|Hin]; [congruence|exact (IH H Hin)].
Qed.

Lemma In_get (o : obj A) (k : string) (v : A) :
  NoDup (keys o) -> In (k, v) o -> get o k = Some v.
Proof.
induction o as [|[k0 v0] o IH]; intros Hnd Hin; [destruct Hin|].
inversion Hnd as [|? ? Hnotin Hnd']; subst. cbn.
destruct Hin as [Heq|Hin].
- injection Heq as -> ->. rewrite String.eqb_refl. reflexivity.
- destruct (String.eqb_spec k0 k) as [->|Hne]; [|exact (IH Hnd' Hin)].
  exfalso. apply Hnotin. apply (in_map fst) in Hin. exact Hin.
Qed.

(** *** A key the object has *)

Lemma keys_overwrite (o : obj A) (k : string) (v : A) :
  keys (overwrite o k v) = keys o.
Proof.
induction o as [|[k0 v0] o IH]; [reflexivity|]. cbn.
destruct (String.eqb k0 k); cbn; [reflexivity|]. f_equal. exact IH.
Qed.

Lemma get_overwrite (o : obj A) (k k' : string) (v : A) :
  In k (keys o) ->
  get (overwrite o k v) k' = if String.eqb k k' then Some v else get o k'.
Proof.
induction o as [|[k0 v0] o IH]; intros H; [destruct H|]. cbn.
destruct (String.eqb_spec k0 k) as [->|Hne]; cbn.
- destruct (String.eqb k k'); reflexivity.
- rewrite IH by (destruct H as [H|H]; [cbn in H; congruence|exact H]).
  destruct (String.eqb_spec k0 k') as [->|Hne'];
    [destruct (String.eqb_spec k k'); [congruence|reflexivity]|reflexivity].
Qed.

Lemma In_overwrite (o : obj A) (k k' : string) (v v' : A) :
  In (k', v') (overwrite o k v) -> (k', v') = (k, v) \/ In (k', v') o.
Proof.
induction o as [|[k0 v0] o IH]; [intros []|]. cbn.
destruct (String.eqb_spec k0 k) as [->|Hne]; cbn.
- intros [H|H]; [left; symmetry; exact H|right; right; exact H].
- intros [H|H]; [right; left; exact H|].
  destruct (IH H) as [H'|H']; [left; exact H'|right; right; exact H'].
Qed.

(** *** A key the object does not have *)

Lemma In_define (o : obj A) (k : string) (v : A) (e : string * A) :
  In e (define o k v) <-> e = (k, v) \/ In e o.
Proof.
induction o as [|[k0 v0] o IH]; cbn.
- split; [intros [H|[]]; left; symmetry; exact H|].
  intros [H|[]]. left. symmetry. exact H.
- destruct (precedes k k0); cbn.
  + split.
    * intros [H|H]; [left; symmetry; exact H|right; exact H].
    * intros [H|H]; [left; symmetry; exact H|right; exact H].
  + rewrite IH. split.
    * intros [H|[H|H]]; [right; left; exact H|left; exact H
                        |right; right; exact H].
    * intros [H|[H|H]]; [right; left; exact H|left; exact H
                        |right; right; exact H].
Qed.

Lemma keys_define (o : obj A) (k k' : string) (v : A) :
  In k' (keys (define o k v)) <-> k' = k \/ In k' (keys o).
Proof.
unfold keys. rewrite !in_map_iff. split.
- intros [e [<- He]]. apply In_define in He.
  destruct He as [->|He]; [left; reflexivity|].
  right. exists e. split; [reflexivity|exact He].
- intros [->|[e [<- He]]].
  + exists (k, v). split; [reflexivity|]. apply In_define. left. reflexivity.
  + exists e. split; [reflexivity|]. apply In_define. right. exact He.
Qed.

Lemma NoDup_define (o : obj A) (k : string) (v : A) :
  ~ In k (keys o) -> NoDup (keys o) -> NoDup (keys (define o k v)).
Proof.
induction o as [|[k0 v0] o IH]; intros Hk Hnd; cbn.
- constructor; [intros []|constructor].
- destruct (precedes k k0); cbn.
  + constructor; assumption.
  + inversion Hnd as [|? ? Hnotin Hnd']; subst.
    constructor.
    * intros Hin. apply keys_define in Hin. destruct Hin as [->|Hin].
      -- apply Hk. left. reflexivity.
      -- exact (Hnotin Hin).
    * apply IH; [|exact Hnd']. intros Hin. apply Hk. right. exact Hin.
Qed.

Lemma get_define (o : obj A) (k k' : string) (v : A) :
  ~ In k (keys o) ->
  get (define o k v) k' = if String.eqb k k' then Some v else get o k'.
Proof.
induction o as [|[k0 v0] o IH]; intros H; [reflexivity|]. cbn.
destruct (precedes k k0); [reflexivity|]. cbn [get].
rewrite IH by (intros Hin; apply H; right; exact Hin).
destruct (String.eqb_spec k0 k') as [->|Hne]; [|reflexivity].
destruct (String.eqb_spec k k') as [->|_]; [|reflexivity].
exfalso. apply H. left. reflexivity.
Qed.

(** A key that is no array index goes last. *)
Lemma define_last (o : obj A) (k : string) (v : A) :
  arrayIndex k = None -> define o k v = (o ++ [(k, v)])%list.
Proof.
intros Hk.
induction o as [|[k0 v0] o IH]; [reflexivity|]. cbn.
unfold precedes. rewrite Hk. rewrite IH. reflexivity.
Qed.

(** *** Assignment *)

Lemma get_set (o : obj A) (k k' : string) (v : A) :
  get (set o k v) k' = if String.eqb k k' then Some v else get o k'.
Proof.
unfold set. destruct (get o k) as [x|] eqn:Hk.
- apply get_overwrite. exact (get_In_keys _ _ _ Hk).
- apply get_define. exact (get_None_keys _ _ Hk).
Qed.

Lemma keys_set_nodup (o : obj A) (k : string) (v : A) :
  NoDup (keys o) -> NoDup (keys (set o k v)).
Proof.
intros Hnd. unfold set. destruct (get o k) as [x|] eqn:Hk.
- rewrite keys_overwrite. exact Hnd.
- apply NoDup_define; [exact (get_None_keys _ _ Hk)|exact Hnd].
Qed.

Lemma set_fresh (o : obj A) (k : string) (v : A) :
  ~ In k (keys o) -> arrayIndex k = None ->
  set o k v = (o ++ [(k, v)])%list.
Proof.
intros H Hk. unfold set. rewrite (get_absent _ _ H).
apply define_last. exact Hk.
Qed.

Lemma keys_set (o : obj A) (k k' : string) (v : A) :
  In k' (keys (set o k v)) -> k' = k \/ In k' (keys o).
Proof.
unfold set. destruct (get o k).
- rewrite keys_overwrite. intros H. right. exact H.
- intros H. apply keys_define in H. exact H.
Qed.

Lemma In_set (o : obj A) (k k' : string) (v v' : A) :
  In (k', v') (set o k v) -> (k', v') = (k, v) \/ In (k', v') o.
Proof.
unfold set. destruct (get o k).
- apply In_overwrite.
- intros H. apply In_define in H. exact H.
Qed.

Lemma keys_set_present (o : obj A) (k : string) (v : A) :
  In k (keys o) -> keys (set o k v) = keys o.
Proof.
intros H. unfold set. destruct (get o k) as [x|] eqn:Hk.
- apply keys_overwrite.
- exfalso. exact (get_None_keys _ _ Hk H).
Qed.

(** A spread property wins over the property of the same name that
    precedes it. *)
Lemma get_spread (a b : obj A) (k : string) :
  NoDup (keys b) ->
  get (spread a b) k
  = match get b k with
    | Some v => Some v
    | None => get a k
    end.
Proof.
unfold spread. revert a. induction b as [|[k0 v0] b IH]; intros a H.
- reflexivity.
- inversion H as [|? ? Hnotin Hnd]; subst. cbn [fold_left fst snd].
  rewrite (IH _ Hnd), get_set. cbn [get].
  destruct (String.eqb_spec k0 k) as [->|Hne]; [|reflexivity].
  rewrite (get_absent _ _ Hnotin). reflexivity.
Qed.

End ObjectProperties.

(** ** connection-manager.js *)

Section ConnectionManagerProperties.

Import ConnectionManager Reference.

Lemma classify_kindOfCode (err : DriverError) :
  classify err = kindOfCode (errCode err).
Proof.
  unfold classify, kindOfCode.
  destruct (errCode err) as [| |b|z|s]; try reflexivity.
  cbn [strictEq codeTable get].
  repeat rewrite (String.eqb_sym s).
  repeat match goal with
         | |- context [String.eqb ?lit s] => destruct (String.eqb lit s)
         end; reflexivity.
Qed.

(** C6. [connect] fails exactly when the driver does: when
    [createPool] rejects with a driver error, and when [createPool]
    gives a pool and [getConnection] rejects with one, [connect]
    rejects with the error whose class the code table gives for the
    code of that driver error (ConnectionRefusedError for ECONNREFUSED,
    AccessDeniedError for ER_ACCESS_DENIED_ERROR, HostNotFoundError
    for ENOTFOUND, HostNotReachableError for EHOSTUNREACH,
    InvalidConnectionError for EINVAL, the generic ConnectionError for
    every other code) and whose parent is that driver error; when
    both calls succeed [connect] gives the connection. Every error
    that [connect] raises arises in one of these two ways. *)
Theorem connect_classifies_by_code :
  forall (Pool : Type)
         (createPool : obj value -> settled Pool DriverError)
         (getConnection : Pool -> settled Connection DriverError)
         (config : Config),
    (forall err,
        createPool (connectionConfig config) = Rejected err ->
        connect Pool createPool getConnection config
        = Rejected {| kind := kindOfCode (errCode err); parent := err |})
    /\ (forall pool err,
          createPool (connectionConfig config) = Resolved pool ->
          getConnection pool = Rejected err ->
          connect Pool createPool getConnection config
          = Rejected {| kind := kindOfCode (errCode err); parent := err |})
    /\ (forall pool connection,
          createPool (connectionConfig config) = Resolved pool ->
          getConnection pool = Resolved connection ->
          connect Pool createPool getConnection config
          = Resolved connection)
    /\ (forall e,
          connect Pool createPool getConnection config = Rejected e ->
          kind e = kindOfCode (errCode (parent e))
          /\ (createPool (connectionConfig config) = Rejected (parent e)
              \/ exists pool,
                   createPool (connectionConfig config) = Resolved pool
                   /\ getConnection pool = Rejected (parent e)))
    /\ (forall err,
          kindOfCode (errCode err)
          = if strictEq (errCode err) (VStr "ECONNREFUSED")
            then ConnectionRefusedError
            else if strictEq (errCode err) (VStr "ER_ACCESS_DENIED_ERROR")
            then AccessDeniedError
            else if strictEq (errCode err) (VStr "ENOTFOUND")
            then HostNotFoundError
            else if strictEq (errCode err) (VStr "EHOSTUNREACH")
            then HostNotReachableError
            else if strictEq (errCode err) (VStr "EINVAL")
            then InvalidConnectionError
            else ConnectionError).
Proof.
  intros Pool createPool getConnection config. unfold connect.
  split; [|split; [|split; [|split]]].
  - intros err H. rewrite H. unfold wrap.
    rewrite classify_kindOfCode. reflexivity.
  - intros pool err Hp Hg. rewrite Hp, Hg. unfold wrap.
    rewrite classify_kindOfCode. reflexivity.
  - intros pool connection Hp Hg. rewrite Hp, Hg. reflexivity.
  - intros e.
    destruct (createPool (connectionConfig config)) as [pool|err] eqn:Hpool.
    + destruct (getConnection pool) as [c|err] eqn:Hget; [discriminate|].
      intros H; injection H as <-. cbn [wrap kind parent]. split.
      * apply classify_kindOfCode.
      * right. exists pool. split; [reflexivity|assumption].
    + intros H; injection H as <-. cbn [wrap kind parent]. split.
      * apply classify_kindOfCode.
      * left. reflexivity.
  - intros err. symmetry. apply classify_kindOfCode.
Qed.

Lemma connect_classifies_by_code_witness :
  connect unit (fun _ => Rejected refused) (fun _ => Rejected refused)
    localConfig
  = Rejected {| kind := ConnectionRefusedError; parent := refused |}
  /\ connect unit (fun _ => Resolved tt) (fun _ => Rejected refused)
       localConfig
     = Rejected {| kind := ConnectionRefusedError; parent := refused |}.
Proof.
  split.
  - destruct (connect_classifies_by_code unit
                (fun _ => Rejected refused) (fun _ => Rejected refused)
                localConfig) as [H _].
    exact (H refused eq_refl).
  - destruct (connect_classifies_by_code unit
                (fun _ => Resolved tt) (fun _ => Rejected refused)
                localConfig) as [_ [H _]].
    exact (H tt refused eq_refl eq_refl).
Defined.

(** The listed codes one by one, and the fall-through. *)
Lemma kindOfCode_table :
  kindOfCode (VStr "ECONNREFUSED") = ConnectionRefusedError
  /\ kindOfCode (VStr "ER_ACCESS_DENIED_ERROR") = AccessDeniedError
  /\ kindOfCode (VStr "ENOTFOUND") = HostNotFoundError
  /\ kindOfCode (VStr "EHOSTUNREACH") = HostNotReachableError
  /\ kindOfCode (VStr "EINVAL") = InvalidConnectionError
  /\ kindOfCode (VStr "ETIMEDOUT") = ConnectionError
  /\ kindOfCode VUndefined = ConnectionError.
Proof. repeat split. Qed.

(** C5, at the connection the claim and the code disagree on: the
    [closed] flag is set and [_closing] is not, and [disconnect] calls
    the driver. *)
Theorem disconnect_closed_connection_calls_driver :
  forall closeResult : option DriverError,
    fst (disconnect closedByPeer closeResult) = [DriverClose].
Proof. intros closeResult. reflexivity. Qed.

(** What [disconnect] does, by the only flag it reads. *)
Lemma disconnect_closing (c : Connection) (r : option DriverError) :
  _closing c = true ->
  ~ In DriverClose (fst (disconnect c r)) /\ snd (disconnect c r) = Resolved tt.
Proof.
  intros H. unfold disconnect. rewrite H. cbn. split; [|reflexivity].
  intros [Hd|[]]; discriminate.
Qed.

Lemma disconnect_not_closing (c : Connection) (r : option DriverError) :
  _closing c = false ->
  fst (disconnect c r) = [DriverClose]
  /\ (snd (disconnect c r) = Resolved tt <-> r = None).
Proof.
  intros H. unfold disconnect. rewrite H. cbn. split; [reflexivity|].
  destruct r; split; intros; congruence.
Qed.

(** C8. On a connection object [validate] is [false] as soon as one of
    the four flags is set and [true] when none is. *)
Theorem validate_flags :
  forall c : Connection,
    validate (Present c)
    = VBool (negb (_fatalError c || _protocolError c
                   || _closing c || closed c)).
Proof.
  intros [f p cl cd]. unfold validate. cbn.
  destruct f, p, cl, cd; reflexivity.
Qed.

(** Without a connection object a falsy argument itself comes back. *)
Lemma validate_absent (v : value) :
  truthy v = false -> validate (Absent v) = v.
Proof. intros H. unfold validate. rewrite H. reflexivity. Qed.

End ConnectionManagerProperties.

(** ** data-types.js *)

Section DataTypesProperties.

Import DataTypes.

Variable GeoJSON : Type.
Variable wkx : list Byte.byte -> completion GeoJSON.

(** C9. [GEOMETRY.parse] gives [null] for a missing or empty buffer;
    otherwise it hands the buffer without its first four bytes to the
    WKB parser and returns the GeoJSON value obtained. *)
Theorem GEOMETRY_parse_strips_header :
  GEOMETRY_parse GeoJSON wkx None = Return None
  /\ GEOMETRY_parse GeoJSON wkx (Some []) = Return None
  /\ (forall (b : Byte.byte) (more : list Byte.byte),
        GEOMETRY_parse GeoJSON wkx (Some (b :: more))
        = (g <- wkx (skipn 4 (b :: more)) ;; Return (Some g)))
  /\ (forall (h1 h2 h3 h4 : Byte.byte) (wkb : list Byte.byte),
        GEOMETRY_parse GeoJSON wkx (Some (h1 :: h2 :: h3 :: h4 :: wkb))
        = (g <- wkx wkb ;; Return (Some g))).
Proof. repeat split. Qed.

End DataTypesProperties.

(** ** The matcher reads what the expression matches *)

Section RegexProperties.

Import Regex Reference.

Variable icase : bool.

Lemma rep_enter_sound (body : cont -> cont) (inner : list nat)
    (M : state -> state -> Prop) (d k : cont) (st res : state) (min : nat) :
  (forall k st res, body k st = Some res ->
                    exists st', M st st' /\ k st' = Some res) ->
  (forall mid, d mid = Some res ->
               exists n st', Nat.pred min <= n /\ iter M inner n mid st'
                             /\ k st' = Some res) ->
  body d (clearCaps inner st) = Some res ->
  exists n st', min <= n /\ iter M inner n st st' /\ k st' = Some res.
Proof.
intros Hbody Hd H.
destruct (Hbody _ _ _ H) as [mid [Hm Hdm]].
destruct (Hd _ Hdm) as [n [st' [Hn [Hit Hk]]]].
exists (S n), st'. repeat split; [lia| |exact Hk].
econstructor; eassumption.
Qed.

Lemma rep_sound (body : cont -> cont) (inner : list nat)
    (M : state -> state -> Prop) :
  (forall k st res, body k st = Some res ->
                    exists st', M st st' /\ k st' = Some res) ->
  forall fuel min max greedy k st res,
    match max with Some m => min <= m | None => True end ->
    rep body inner fuel min max greedy k st = Some res ->
    exists n st', min <= n /\ iter M inner n st st' /\ k st' = Some res.
Proof.
intros Hbody. induction fuel as [|fuel IH];
  intros min max greedy k st res Hb H; [discriminate|].
cbn [rep] in H.
assert (Hstop : forall res, min = 0 -> k st = Some res ->
                exists n st', min <= n /\ iter M inner n st st'
                              /\ k st' = Some res).
{ intros res' -> Hk. exists 0, st. repeat split; [lia|constructor|exact Hk]. }
assert (Hnext : forall res mid,
  rep body inner fuel (Nat.pred min) (option_map Nat.pred max) greedy k mid
  = Some res ->
  max <> Some 0 ->
  exists n st', Nat.pred min <= n /\ iter M inner n mid st'
                /\ k st' = Some res).
{ intros res' mid Hr Hmax. apply IH in Hr; [exact Hr|].
  destruct max as [m|]; cbn; [|exact I].
  destruct m; [congruence|cbn; lia]. }
assert (Henter : forall res,
  max <> Some 0 ->
  body (fun st' =>
          if ((min =? 0)%nat
              && (String.length (rest st') =? String.length (rest st))%nat)%bool
          then None
          else rep body inner fuel (Nat.pred min) (option_map Nat.pred max)
                 greedy k st')
       (clearCaps inner st) = Some res ->
  exists n st', min <= n /\ iter M inner n st st' /\ k st' = Some res).
{ intros res' Hmax He.
  eapply (rep_enter_sound _ _ _ _ _ _ _ _ Hbody); [|exact He].
  intros mid Hd. cbv beta in Hd.
  destruct ((min =? 0)%nat
            && (String.length (rest mid) =? String.length (rest st))%nat)%bool;
    [discriminate|].
  apply Hnext in Hd; [exact Hd|exact Hmax]. }
clear Hnext IH.
assert (Hbody' : forall res,
  max <> Some 0 ->
  (if negb (min =? 0)%nat
   then body (fun st' =>
          if ((min =? 0)%nat
              && (String.length (rest st') =? String.length (rest st))%nat)%bool
          then None
          else rep body inner fuel (Nat.pred min) (option_map Nat.pred max)
                 greedy k st')
       (clearCaps inner st)
   else if greedy
   then orElse
          (body (fun st' =>
             if ((min =? 0)%nat
                 && (String.length (rest st') =? String.length (rest st))%nat)%bool
             then None
             else rep body inner fuel (Nat.pred min) (option_map Nat.pred max)
                    greedy k st')
             (clearCaps inner st))
          (fun _ => k st)
   else orElse (k st)
          (fun _ => body (fun st' =>
             if ((min =? 0)%nat
                 && (String.length (rest st') =? String.length (rest st))%nat)%bool
             then None
             else rep body inner fuel (Nat.pred min) (option_map Nat.pred max)
                    greedy k st')
             (clearCaps inner st))) = Some res ->
  exists n st', min <= n /\ iter M inner n st st' /\ k st' = Some res).
{ intros res' Hmax H'.
  set (e := body _ (clearCaps inner st)) in *.
  destruct (min =? 0)%nat eqn:Hmin; cbn [negb] in H';
    [|apply Henter; assumption].
  apply Nat.eqb_eq in Hmin. unfold orElse in H'.
  destruct greedy.
  - destruct e as [x|] eqn:He.
    + apply (Henter _ Hmax H').
    + apply (Hstop _ Hmin H').
  - destruct (k st) as [x|] eqn:Hk.
    + apply (Hstop _ Hmin H').
    + apply (Henter _ Hmax H'). }
destruct max as [[|m]|].
- apply Hstop; [lia|exact H].
- apply Hbody'; [discriminate|exact H].
- apply Hbody'; [discriminate|exact H].
Qed.

(** Whatever the matcher finds is a match of the expression, and the
    continuation accepted the state it ended in. *)
Lemma run_sound (r : re) :
  boundsOrdered r = true ->
  forall k st res,
    run icase r k st = Some res ->
    exists st', matches icase r st st' /\ k st' = Some res.
Proof.
induction r as [|invert p|r1 IH1 r2 IH2|r1 IH1 r2 IH2
               |min max greedy r' IH|i r' IH|i|r' IH|];
  intros Hwf k st res H; cbn [run] in H; cbn [matches].
- exists st. split; [reflexivity|exact H].
- destruct (rest st) as [|c t] eqn:Hrest; [discriminate|].
  destruct (charMatches icase invert p c) eqn:Hc; [|discriminate].
  exists {| rest := t; caps := caps st |}. split; [|exact H].
  exists c. repeat split; assumption.
- cbn [boundsOrdered] in Hwf. apply andb_prop in Hwf.
  destruct Hwf as [Hwf1 Hwf2].
  destruct (IH1 Hwf1 _ _ _ H) as [mid [Hm1 H2]].
  destruct (IH2 Hwf2 _ _ _ H2) as [st' [Hm2 Hk]].
  exists st'. split; [|exact Hk]. exists mid. split; assumption.
- cbn [boundsOrdered] in Hwf. apply andb_prop in Hwf.
  destruct Hwf as [Hwf1 Hwf2]. unfold orElse in H.
  destruct (run icase r1 k st) eqn:H1.
  + injection H as <-. destruct (IH1 Hwf1 _ _ _ H1) as [st' [Hm Hk]].
    exists st'. split; [left; exact Hm|exact Hk].
  + destruct (IH2 Hwf2 _ _ _ H) as [st' [Hm Hk]].
    exists st'. split; [right; exact Hm|exact Hk].
- cbn [boundsOrdered] in Hwf. apply andb_prop in Hwf.
  destruct Hwf as [Hb Hwf].
  apply (rep_sound _ _ (matches icase r') (IH Hwf)) in H.
  + destruct H as [n [st' [Hn [Hit Hk]]]].
    exists st'. split; [|exact Hk]. exists n. split; assumption.
  + destruct max as [m|]; [apply Nat.leb_le; exact Hb|exact I].
- cbn [boundsOrdered] in Hwf.
  destruct (IH Hwf _ _ _ H) as [mid [Hm Hk]].
  eexists. split; [|exact Hk]. exists mid. split; [exact Hm|reflexivity].
- destruct (capture i (caps st)) as [w|] eqn:Hcap.
  + destruct (readWord icase w (rest st)) as [t|] eqn:Hw; [|discriminate].
    exists {| rest := t; caps := caps st |}. split; [|exact H].
    split; reflexivity.
  + exists st. split; [|exact H]. split; reflexivity.
- destruct (run icase r' (fun st' => Some st') st); [discriminate|].
  exists st. split; [reflexivity|exact H].
- destruct (rest st) eqn:Hrest; [|discriminate].
  exists st. split; [|exact H]. split; reflexivity.
Qed.

Lemma matchHere_sound (r : re) (s : string) (m : result) :
  boundsOrdered r = true ->
  matchHere icase r s = Some m ->
  exists st',
    matches icase r {| rest := s; caps := [] |} st'
    /\ m = {| matched := consumed s (rest st'); groups := caps st' |}.
Proof.
intros Hwf H. unfold matchHere in H.
destruct (run icase r (fun st => Some st) {| rest := s; caps := [] |})
  as [st|] eqn:Hrun; [|discriminate].
injection H as <-.
destruct (run_sound r Hwf _ _ _ Hrun) as [st' [Hm Hk]].
injection Hk as ->. exists st. split; [exact Hm|reflexivity].
Qed.

Lemma clearCaps_nil (st : state) : clearCaps [] st = st.
Proof.
destruct st as [s cs]. unfold clearCaps. cbn. f_equal.
induction cs as [|c cs IH]; [reflexivity|]. cbn. rewrite IH. reflexivity.
Qed.

(** Turns of a single character class read a word of that class. *)
Lemma iter_class (invert : bool) (p : ascii -> bool) (n : nat)
    (st st' : state) :
  iter (matches icase (Cls invert p)) [] n st st' ->
  exists w,
    rest st = w ++ rest st'
    /\ String.length w = n
    /\ allChars (charMatches icase invert p) w = true
    /\ caps st' = caps st.
Proof.
induction 1 as [st|n st mid st' Hm _ IH].
- exists EmptyString. repeat split.
- rewrite clearCaps_nil in Hm. destruct Hm as [c [Hrest [Hc Hcaps]]].
  destruct IH as [w [Hw [Hlen [Hall Hc']]]].
  exists (String c w). cbn. rewrite Hrest, Hw, Hlen, Hc, Hall.
  repeat split. congruence.
Qed.

Lemma take_append (w r : string) : take (String.length w) (w ++ r) = w.
Proof.
induction w as [|c w IH]; cbn.
- destruct r; reflexivity.
- rewrite IH. reflexivity.
Qed.

Lemma length_append (w r : string) :
  String.length (w ++ r) = String.length w + String.length r.
Proof. induction w as [|c w IH]; cbn; [reflexivity|]. rewrite IH. reflexivity. Qed.

Lemma consumed_append (w r : string) : consumed (w ++ r) r = w.
Proof.
unfold consumed. rewrite length_append.
replace (String.length w + String.length r - String.length r)
  with (String.length w) by lia.
apply take_append.
Qed.

Lemma append_empty_r (w : string) : w ++ EmptyString = w.
Proof. induction w as [|c w IH]; cbn; [reflexivity|]. rewrite IH. reflexivity. Qed.

Lemma append_assoc (a b c : string) : (a ++ b) ++ c = a ++ b ++ c.
Proof. induction a as [|x a IH]; cbn; [reflexivity|]. rewrite IH. reflexivity. Qed.

Lemma run_class_cons (invert : bool) (p : ascii -> bool) (k : cont)
    (c : ascii) (t : string) (cs : list (nat * string)) :
  run icase (Cls invert p) k {| rest := String c t; caps := cs |}
  = if charMatches icase invert p c
    then k {| rest := t; caps := cs |}
    else None.
Proof. reflexivity. Qed.

(** A greedy, unbounded quantifier over a character class finds a match
    whenever it can read a word of the class after which the
    continuation accepts. *)
Lemma rep_class_complete (invert : bool) (p : ascii -> bool) (k : cont)
    (r : string) (cs : list (nat * string)) :
  k {| rest := r; caps := cs |} <> None ->
  forall w fuel min,
    allChars (charMatches icase invert p) w = true ->
    min <= String.length w ->
    String.length w < fuel ->
    rep (run icase (Cls invert p)) [] fuel min None true k
      {| rest := w ++ r; caps := cs |} <> None.
Proof.
intros Hk. induction w as [|c w IH]; intros fuel min Hall Hmin Hfuel;
  (destruct fuel as [|fuel]; [cbn in Hfuel; lia|]); cbn [rep].
- cbn in Hmin. replace min with 0 by lia. cbn [Nat.eqb negb].
  unfold orElse.
  match goal with
  | |- match ?e with _ => _ end <> None => destruct e
  end; [discriminate|exact Hk].
- rewrite clearCaps_nil. cbn [append]. rewrite !run_class_cons.
  cbn [allChars] in Hall. apply andb_prop in Hall. destruct Hall as [Hc Hall].
  rewrite Hc. cbn [rest String.length].
  replace (String.length (w ++ r) =? S (String.length (w ++ r)))%nat
    with false by (symmetry; apply Nat.eqb_neq; lia).
  rewrite andb_false_r.
  assert (Hrec :
    rep (run icase (Cls invert p)) [] fuel (Nat.pred min) None true k
      {| rest := w ++ r; caps := cs |} <> None).
  { apply IH; [exact Hall|cbn in Hmin; lia|cbn in Hfuel; lia]. }
  cbn [option_map].
  destruct (rep (run icase (Cls invert p)) [] fuel (Nat.pred min) None true k
              {| rest := w ++ r; caps := cs |}) eqn:E; [|congruence].
  destruct (min =? 0)%nat; cbn [negb]; unfold orElse; discriminate.
Qed.

Lemma allChars_app (p : ascii -> bool) (a b : string) :
  allChars p (a ++ b) = allChars p a && allChars p b.
Proof.
induction a as [|c a IH]; cbn; [reflexivity|].
rewrite IH. apply andb_assoc.
Qed.

End RegexProperties.

(** ** What a match reads *)

Section RegexWords.

Import Regex Reference.

Variable icase : bool.

Lemma readWord_length (w s t : string) :
  readWord icase w s = Some t ->
  String.length s = String.length w + String.length t.
Proof.
revert s. induction w as [|a w IH]; intros s H.
- cbn in H. injection H as ->. reflexivity.
- destruct s as [|b s]; [discriminate|]. cbn in H.
  destruct (charEq icase a b); [|discriminate].
  cbn. rewrite (IH _ H). reflexivity.
Qed.

Lemma iter_minLen (M : state -> state -> Prop) (inner : list nat)
    (m n : nat) (st st' : state) :
  (forall a b, M a b -> String.length (rest b) + m <= String.length (rest a)) ->
  iter M inner n st st' ->
  String.length (rest st') + n * m <= String.length (rest st).
Proof.
intros HM. induction 1 as [st|n st mid st' Hm _ IH]; [cbn; lia|].
apply HM in Hm. cbn [clearCaps rest] in Hm. cbn [Nat.mul]. lia.
Qed.

(** A match reads at least [minLen] characters. *)
Lemma matches_minLen (r : re) :
  forall st st',
    matches icase r st st' ->
    String.length (rest st') + minLen r <= String.length (rest st).
Proof.
induction r as [|invert p|r1 IH1 r2 IH2|r1 IH1 r2 IH2
               |min max greedy r' IH|i r' IH|i|r' IH|];
  intros st st' H; cbn [matches minLen] in *.
- subst. lia.
- destruct H as [c [Hr _]]. rewrite Hr. cbn. lia.
- destruct H as [mid [H1 H2]]. apply IH1 in H1. apply IH2 in H2. lia.
- destruct H as [H|H]; [apply IH1 in H|apply IH2 in H]; lia.
- destruct H as [n [Hn Hit]].
  apply (iter_minLen _ _ (minLen r')) in Hit; [|exact IH].
  assert (min * minLen r' <= n * minLen r')
    by (apply Nat.mul_le_mono_r; exact Hn).
  lia.
- destruct H as [mid [H ->]]. apply IH in H. cbn [rest]. lia.
- destruct H as [_ H]. destruct (capture i (caps st)) as [w|].
  + apply readWord_length in H. lia.
  + rewrite H. lia.
- subst. lia.
- destruct H as [-> _]. lia.
Qed.

Lemma length_take (n : nat) (s : string) :
  String.length (take n s) = Nat.min n (String.length s).
Proof.
revert n. induction s as [|c s IH]; intros [|n]; cbn; try reflexivity.
rewrite IH. reflexivity.
Qed.

(** The text of a match is at least [minLen] long. *)
Lemma matchHere_minLen (r : re) (s : string) (m : result) :
  boundsOrdered r = true ->
  matchHere icase r s = Some m ->
  minLen r <= String.length (matched m).
Proof.
intros Hwf H. destruct (matchHere_sound icase r s m Hwf H) as [st' [Hm ->]].
apply matches_minLen in Hm. cbn [matched rest] in *.
unfold consumed. rewrite length_take. lia.
Qed.

Lemma In_allAscii (c : ascii) : In c allAscii.
Proof.
unfold allAscii. rewrite <- (ascii_nat_embedding c).
apply in_map. apply in_seq. pose proof (nat_ascii_bounded c). lia.
Qed.

Lemma iter_within (M : state -> state -> Prop) (inner : list nat)
    (P : ascii -> bool) (n : nat) (st st' : state) :
  (forall a b, M a b ->
               exists w, rest a = w ++ rest b /\ allChars P w = true) ->
  iter M inner n st st' ->
  exists w, rest st = w ++ rest st' /\ allChars P w = true.
Proof.
intros HM. induction 1 as [st|n st mid st' Hm _ IH].
- exists EmptyString. split; reflexivity.
- apply HM in Hm. cbn [clearCaps rest] in Hm.
  destruct Hm as [w1 [H1 Hp1]]. destruct IH as [w2 [H2 Hp2]].
  exists (w1 ++ w2). split.
  + rewrite H1, H2. symmetry. apply append_assoc.
  + rewrite allChars_app, Hp1, Hp2. reflexivity.
Qed.

(** A match reads a word whose characters are those the classes of the
    expression let through. *)
Lemma matches_within (P : ascii -> bool) (r : re) :
  within icase P r = true ->
  forall st st',
    matches icase r st st' ->
    exists w, rest st = w ++ rest st' /\ allChars P w = true.
Proof.
induction r as [|invert p|r1 IH1 r2 IH2|r1 IH1 r2 IH2
               |min max greedy r' IH|i r' IH|i|r' IH|];
  intros Hin st st' H; cbn [matches within] in *;
  try (subst; exists EmptyString; split; reflexivity).
- destruct H as [c [Hr [Hc _]]].
  exists (String c EmptyString). split; [exact Hr|]. cbn.
  rewrite forallb_forall in Hin. specialize (Hin c (In_allAscii c)).
  rewrite Hc in Hin. cbn in Hin. rewrite Hin. reflexivity.
- apply andb_prop in Hin. destruct Hin as [Hin1 Hin2].
  destruct H as [mid [H1 H2]].
  destruct (IH1 Hin1 _ _ H1) as [w1 [E1 Hp1]].
  destruct (IH2 Hin2 _ _ H2) as [w2 [E2 Hp2]].
  exists (w1 ++ w2). split.
  + rewrite E1, E2. symmetry. apply append_assoc.
  + rewrite allChars_app, Hp1, Hp2. reflexivity.
- apply andb_prop in Hin. destruct Hin as [Hin1 Hin2].
  destruct H as [H|H]; [apply (IH1 Hin1)|apply (IH2 Hin2)]; exact H.
- destruct H as [n [_ Hit]].
  apply (iter_within _ _ P) in Hit; [exact Hit|]. apply (IH Hin).
- destruct H as [mid [H ->]]. apply (IH Hin) in H. exact H.
- discriminate.
- destruct H as [-> _]. exists EmptyString. split; reflexivity.
Qed.

End RegexWords.

(** ** The fuel of a quantifier is never used up *)

Section RegexFuel.

Import Regex Reference.

Variable icase : bool.

Lemma rep_ext (body : cont -> cont) (inner : list nat) :
  forwardOnly body ->
  forall fuel min max greedy, forwardOnly (rep body inner fuel min max greedy).
Proof.
intros Hbody. induction fuel as [|fuel IH];
  intros min max greedy k1 k2 st Hk; [reflexivity|].
cbn [rep].
assert (Hst : k1 st = k2 st) by (apply Hk; lia).
assert (Henter :
  body (fun st' =>
          if ((min =? 0)%nat
              && (String.length (rest st') =? String.length (rest st))%nat)%bool
          then None
          else rep body inner fuel (Nat.pred min) (option_map Nat.pred max)
                 greedy k1 st')
       (clearCaps inner st)
  = body (fun st' =>
          if ((min =? 0)%nat
              && (String.length (rest st') =? String.length (rest st))%nat)%bool
          then None
          else rep body inner fuel (Nat.pred min) (option_map Nat.pred max)
                 greedy k2 st')
       (clearCaps inner st)).
{ apply Hbody. intros st' Hlen. cbn [clearCaps rest] in Hlen.
  destruct ((min =? 0)%nat
            && (String.length (rest st') =? String.length (rest st))%nat)%bool;
    [reflexivity|].
  apply IH. intros st'' Hlen'. apply Hk. lia. }
rewrite Henter, Hst. reflexivity.
Qed.

Lemma run_ext (r : re) : forwardOnly (run icase r).
Proof.
induction r as [|invert p|r1 IH1 r2 IH2|r1 IH1 r2 IH2
               |min max greedy r' IH|i r' IH|i|r' IH|];
  intros k1 k2 st Hk; cbn [run].
- apply Hk. lia.
- destruct (rest st) as [|c t] eqn:Hrest; [reflexivity|].
  destruct (charMatches icase invert p c); [|reflexivity].
  apply Hk. cbn. lia.
- apply IH1. intros st' Hlen. apply IH2. intros st'' Hlen'. apply Hk. lia.
- rewrite (IH1 k1 k2 st Hk), (IH2 k1 k2 st Hk). reflexivity.
- apply rep_ext; assumption.
- apply IH. intros st' Hlen. apply Hk. cbn. exact Hlen.
- destruct (capture i (caps st)) as [w|]; [|apply Hk; lia].
  destruct (readWord icase w (rest st)) as [t|] eqn:Hw; [|reflexivity].
  apply readWord_length in Hw. apply Hk. cbn. lia.
- rewrite (Hk st); [reflexivity|lia].
- rewrite (Hk st); [reflexivity|lia].
Qed.

(** With one unit of fuel per required turn and per character left, and
    one more, a quantifier gives the same answer as with any larger
    supply: [run] never cuts a match short. *)
Lemma rep_fuel (body : cont -> cont) (inner : list nat) :
  forwardOnly body ->
  forall fuel1 fuel2 min max greedy k st,
    min + String.length (rest st) < fuel1 ->
    min + String.length (rest st) < fuel2 ->
    rep body inner fuel1 min max greedy k st
    = rep body inner fuel2 min max greedy k st.
Proof.
intros Hbody. induction fuel1 as [|fuel1 IH];
  intros fuel2 min max greedy k st H1 H2; [lia|].
destruct fuel2 as [|fuel2]; [lia|]. cbn [rep].
assert (Henter :
  body (fun st' =>
          if ((min =? 0)%nat
              && (String.length (rest st') =? String.length (rest st))%nat)%bool
          then None
          else rep body inner fuel1 (Nat.pred min) (option_map Nat.pred max)
                 greedy k st')
       (clearCaps inner st)
  = body (fun st' =>
          if ((min =? 0)%nat
              && (String.length (rest st') =? String.length (rest st))%nat)%bool
          then None
          else rep body inner fuel2 (Nat.pred min) (option_map Nat.pred max)
                 greedy k st')
       (clearCaps inner st)).
{ apply Hbody. intros st' Hlen. cbn [clearCaps rest] in Hlen.
  destruct (min =? 0)%nat eqn:Hmin; cbn [andb].
  - apply Nat.eqb_eq in Hmin. subst min.
    destruct (String.length (rest st') =? String.length (rest st))%nat
      eqn:Hsame; [reflexivity|].
    apply Nat.eqb_neq in Hsame. apply IH; cbn; lia.
  - apply Nat.eqb_neq in Hmin. apply IH; lia. }
rewrite Henter. reflexivity.
Qed.

Lemma run_Rep_fuel (min : nat) (max : option nat) (greedy : bool) (r : re)
    (k : cont) (st : state) (extra : nat) :
  run icase (Rep min max greedy r) k st
  = rep (run icase r) (groupsOf r)
      (min + String.length (rest st) + 1 + extra) min max greedy k st.
Proof.
cbn [run]. apply rep_fuel; [apply run_ext|lia|lia].
Qed.

End RegexFuel.

(** ** query-generator.js: attributeToSQL *)

Section AttributeProperties.

Import QueryGenerator Reference.

Variable escape : value -> string.
Variable quoteIdentifier : string -> string.
Variable quoteTable : string -> string.
Variable defaultValueSchemable : value -> bool.

Lemma has_In (l : list string) (s : string) : In s l -> has l s = true.
Proof.
intros H. unfold has. apply existsb_exists. exists s. split; [exact H|].
apply String.eqb_refl.
Qed.

Lemma defaultClause_without_default (a : Attribute) :
  In (toSql (type a)) typeWithoutDefault ->
  defaultClause escape defaultValueSchemable (toSql (type a)) a = EmptyString.
Proof.
intros H. unfold defaultClause. rewrite (has_In _ _ H). reflexivity.
Qed.

(** C7. For a type rendered as BLOB, TEXT, GEOMETRY or JSON the column
    definition is the type followed by the NOT NULL, auto_increment,
    UNIQUE, PRIMARY KEY, COMMENT, FIRST, AFTER and REFERENCES parts: the
    DEFAULT part is empty, and the definition is the same whatever
    default value the attribute carries. *)
Theorem attributeToSQL_no_default :
  forall (attribute : attributeArg) (options : option AttributeOptions),
    In (toSql (type (plainOf attribute))) ["BLOB"; "TEXT"; "GEOMETRY"; "JSON"] ->
    defaultClause escape defaultValueSchemable
      (toSql (type (plainOf attribute))) (plainOf attribute) = EmptyString
    /\ attributeToSQL escape quoteIdentifier quoteTable defaultValueSchemable
         attribute options
       = toSql (type (plainOf attribute))
         ++ (if strictEq (allowNull (plainOf attribute)) (VBool false)
             then " NOT NULL" else EmptyString)
         ++ (if truthy (autoIncrement (plainOf attribute))
             then " auto_increment" else EmptyString)
         ++ (if strictEq (unique (plainOf attribute)) (VBool true)
             then " UNIQUE" else EmptyString)
         ++ (if truthy (primaryKey (plainOf attribute))
             then " PRIMARY KEY" else EmptyString)
         ++ (if truthy (comment (plainOf attribute))
             then " COMMENT " ++ escape (comment (plainOf attribute))
             else EmptyString)
         ++ (if truthy (first (plainOf attribute))
             then " FIRST" else EmptyString)
         ++ (match present (after (plainOf attribute)) with
             | Some f => " AFTER " ++ quoteIdentifier f
             | None => EmptyString
             end)
         ++ referencesClause quoteIdentifier quoteTable
              (plainOf attribute) options
    /\ (forall v : value,
          attributeToSQL escape quoteIdentifier quoteTable
            defaultValueSchemable
            (Plain (withDefault v (plainOf attribute))) options
          = attributeToSQL escape quoteIdentifier quoteTable
              defaultValueSchemable attribute options).
Proof.
intros attribute options H.
assert (Hd : forall a, In (toSql (type a)) typeWithoutDefault ->
                       defaultClause escape defaultValueSchemable
                         (toSql (type a)) a = EmptyString)
  by apply defaultClause_without_default.
split; [apply Hd, H|]. split.
- unfold attributeToSQL. rewrite (Hd _ H). reflexivity.
- intros v. unfold attributeToSQL.
  rewrite (Hd (plainOf attribute) H).
  rewrite (Hd (plainOf (Plain (withDefault v (plainOf attribute)))) H).
  reflexivity.
Qed.

End AttributeProperties.

Lemma attributeToSQL_no_default_witness :
  QueryGenerator.attributeToSQL Reference.sqlEscape Reference.quote
    Reference.quote Reference.schemable
    (QueryGenerator.Plain Reference.notes) None
  = "TEXT NOT NULL".
Proof.
destruct (attributeToSQL_no_default Reference.sqlEscape Reference.quote
            Reference.quote Reference.schemable
            (QueryGenerator.Plain Reference.notes) None)
  as [_ [H _]].
- right. left. reflexivity.
- exact H.
Defined.

(** The same attribute with a type that may carry a default. *)
Example attributeToSQL_default_elsewhere :
  QueryGenerator.attributeToSQL Reference.sqlEscape Reference.quote
    Reference.quote Reference.schemable
    (QueryGenerator.Plain
       {| QueryGenerator.type :=
            {| QueryGenerator.toSql := "VARCHAR(255)";
               QueryGenerator._binary := VUndefined |};
          QueryGenerator.allowNull := VBool false;
          QueryGenerator.autoIncrement := VUndefined;
          QueryGenerator.defaultValue := VStr "n/a";
          QueryGenerator.unique := VUndefined;
          QueryGenerator.primaryKey := VUndefined;
          QueryGenerator.comment := VUndefined;
          QueryGenerator.first := VUndefined;
          QueryGenerator.after := None;
          QueryGenerator.references := None;
          QueryGenerator.onDelete := None;
          QueryGenerator.onUpdate := None |}) None
  = "VARCHAR(255) NOT NULL DEFAULT 'n/a'".
Proof. reflexivity. Qed.

(** ** query-generator.js: createTableQuery *)

Section ReferencesRegex.

Import Regex QueryGenerator Reference.

Lemma matches_lit (w : string) (st st' : state) :
  matches false (lit w) st st' ->
  rest st = w ++ rest st' /\ caps st' = caps st.
Proof.
revert st. induction w as [|a w IH]; intros st H.
- cbn in H. subst st'. split; reflexivity.
- assert (Hchr : forall s s', matches false (chr a) s s' ->
                   rest s = String a (rest s') /\ caps s' = caps s).
  { intros s s' [c [Hr [Hc Hcs]]]. cbn in Hc.
    apply Ascii.eqb_eq in Hc. subst c. split; assumption. }
  destruct w as [|b w].
  + apply Hchr in H. exact H.
  + change (lit (String a (String b w)))
      with (Cat (chr a) (lit (String b w))) in H.
    destruct H as [mid [H1 H2]].
    apply Hchr in H1. apply IH in H2.
    destruct H1 as [H1 H1c], H2 as [H2 H2c].
    split; [|congruence].
    rewrite H1, H2. reflexivity.
Qed.

Lemma startsWith_prefix (w s : string) : Str.startsWith w (w ++ s) = true.
Proof.
induction w as [|c w IH]; cbn; [reflexivity|].
rewrite Ascii.eqb_refl. exact IH.
Qed.

(** What a match of the REFERENCES pattern says about the type string. *)
Lemma referencesRegex_sound (dataType : string) (m : result) :
  matchHere false referencesRegex dataType = Some m ->
  dataType = groupText 1 m ++ " " ++ groupText 2 m
  /\ Str.startsWith "REFERENCES" (groupText 2 m) = true.
Proof.
intros H. apply matchHere_sound in H; [|reflexivity].
destruct H as [st' [Hm ->]].
unfold referencesRegex in Hm. cbn [seq matches] in Hm.
destruct Hm as [st1 [[mid1 [Hplus ->]] [st2 [Hsp [st3 [Hg2 [-> Hend]]]]]]].
destruct Hplus as [n [_ Hplus]].
apply (iter_class false) in Hplus.
destruct Hplus as [w1 [Hw1 [_ [_ Hc1]]]].
destruct Hsp as [c [Hsp [Hc Hc2]]]. cbn [rest caps] in Hsp, Hc2, Hw1, Hc1.
unfold charMatches in Hc. cbn [xorb] in Hc.
apply Ascii.eqb_eq in Hc. subst c.
destruct Hg2 as [mid2 [[st4 [Hlit Hstar]] ->]].
apply matches_lit in Hlit. destruct Hlit as [Hlit Hc4].
destruct Hstar as [n2 [_ Hstar]].
apply (iter_class false) in Hstar.
destruct Hstar as [w2 [Hw2 [_ [_ Hc5]]]].
cbn in Hend. rewrite Hend in Hw2. rewrite append_empty_r in Hw2.
unfold groupText, group. cbn [groups capture Nat.eqb caps rest].
rewrite Hc5, Hc4, Hc2. cbn [capture Nat.eqb].
rewrite Hend.
assert (Hall : forall s, consumed s EmptyString = s).
{ intros s. rewrite <- (append_empty_r s) at 1. apply consumed_append. }
rewrite !Hall.
rewrite Hw1 at 2. rewrite consumed_append.
split.
- rewrite Hw1 at 1. rewrite Hsp. reflexivity.
- rewrite Hlit. apply startsWith_prefix.
Qed.

(** A type string with a REFERENCES clause is matched. *)
Lemma referencesRegex_complete (dataType : string) :
  hasReferencesClause dataType ->
  matchHere false referencesRegex dataType <> None.
Proof.
intros [base [tail [-> [Hbase Hline]]]].
unfold singleLine in Hline. rewrite !allChars_app in Hline.
apply andb_prop in Hline. destruct Hline as [Hb Ht].
apply andb_prop in Ht. destruct Ht as [_ Ht].
unfold matchHere.
match goal with
| |- match ?e with _ => _ end <> None =>
    assert (He : e <> None); [|destruct e; [discriminate|congruence]]
end.
unfold referencesRegex. cbn [seq]. cbn [run plus].
apply (rep_class_complete false true isLineTerminator).
- cbn [rest caps append].
  cbn -[rep String.length].
  match goal with
  | |- context [ {| rest := tail; caps := ?cs |} ] =>
      replace {| rest := tail; caps := cs |}
        with {| rest := tail ++ EmptyString; caps := cs |}
        by (rewrite append_empty_r; reflexivity)
  end.
  apply (rep_class_complete false true isLineTerminator).
  + discriminate.
  + exact Ht.
  + lia.
  + lia.
- exact Hb.
- destruct base; [congruence|cbn; lia].
- cbn [rest]. rewrite length_append. lia.
Qed.

End ReferencesRegex.

Section CreateTableProperties.

Import Str QueryGenerator Reference.

Variable quoteIdentifier : string -> string.
Variable quoteTable : string -> string.

(** One column: what [column] adds to the three accumulators. *)
Lemma column_rendered (acc : columns) (attr dataType : string) :
  (includes "REFERENCES" dataType = true -> hasReferencesClause dataType) ->
  exists col,
    rendered quoteIdentifier (attr, dataType) col
    /\ (forall r, snd col = Some r -> fst r = attr)
    /\ column quoteIdentifier acc attr dataType
       = Return
           {| primaryKeys :=
                if includes "PRIMARY KEY" dataType
                then push (primaryKeys acc) attr
                else primaryKeys acc;
              foreignKeys :=
                match snd col with
                | Some r => set (foreignKeys acc) attr (snd r)
                | None => foreignKeys acc
                end;
              attrStr := push (attrStr acc) (fst col) |}.
Proof.
intros Hwf. unfold column.
destruct (includes "REFERENCES" dataType) eqn:Href.
- destruct (Regex.matchHere false referencesRegex dataType) as [m|] eqn:Hm;
    [|exfalso; exact (referencesRegex_complete _ (Hwf eq_refl) Hm)].
  destruct (referencesRegex_sound _ _ Hm) as [Hdt Hstart].
  pose proof (rendered_deferred quoteIdentifier attr (groupText 1 m) _
                Hstart) as Hr.
  rewrite <- Hdt in Hr.
  eexists. split; [exact Hr|]. split.
  + intros r Hr'. cbn in Hr'. injection Hr' as <-. reflexivity.
  + cbn [fst snd]. destruct (includes "PRIMARY KEY" dataType); reflexivity.
- pose proof (rendered_inline quoteIdentifier attr _ Href) as Hr.
  eexists. split; [exact Hr|]. split.
  + intros r Hr'. discriminate.
  + cbn [fst snd]. destruct (includes "PRIMARY KEY" dataType);
      [reflexivity|].
    destruct (includes "JSON" dataType); reflexivity.
Qed.

(** The column loop: the definitions in column order, the primary-key
    columns in column order, the deferred clauses in column order. *)
Lemma columnLoop_rendered (attributes : obj string) :
  forall acc : columns,
    NoDup (keys attributes) ->
    (forall k, In k (keys (foreignKeys acc)) -> ~ In k (keys attributes)) ->
    (forall attr dataType,
        In (attr, dataType) attributes ->
        includes "REFERENCES" dataType = true ->
        hasReferencesClause dataType) ->
    (forall attr, In attr (keys attributes) -> arrayIndex attr = None) ->
    exists cols,
      Forall2 (rendered quoteIdentifier) attributes cols
      /\ columnLoop quoteIdentifier acc attributes
         = Return
             {| primaryKeys :=
                  (primaryKeys acc ++ primaryKeyColumns attributes)%list;
                foreignKeys := (foreignKeys acc ++ deferred cols)%list;
                attrStr := (attrStr acc ++ map fst cols)%list |}.
Proof.
induction attributes as [|[attr dataType] more IH];
  intros acc Hnd Hfresh Hwf Hnames.
- exists []. split; [constructor|]. cbn.
  rewrite !app_nil_r. destruct acc; reflexivity.
- destruct (column_rendered acc attr dataType) as [col [Hr [Hname Hcol]]].
  { intros Href. apply (Hwf attr dataType); [left; reflexivity|exact Href]. }
  cbn [columnLoop]. rewrite Hcol. cbn [bind].
  inversion Hnd as [|? ? Hnotin Hnd']; subst.
  match goal with
  | |- context [columnLoop quoteIdentifier ?a more] =>
      destruct (IH a Hnd') as [cols [Hall Hloop]]
  end.
  + cbn [foreignKeys]. intros k Hk Hin.
    destruct (snd col) as [r|].
    * apply keys_set in Hk. destruct Hk as [->|Hk].
      -- apply Hnotin. exact Hin.
      -- apply (Hfresh k Hk). right. exact Hin.
    * apply (Hfresh k Hk). right. exact Hin.
  + intros a d Hin. apply (Hwf a d). right. exact Hin.
  + intros a Hin. apply Hnames. right. exact Hin.
  + exists (col :: cols). split; [constructor; assumption|].
    rewrite Hloop. cbn [primaryKeys foreignKeys attrStr]. f_equal.
    assert (Hattr : ~ In attr (keys (foreignKeys acc))).
    { intros Hin. apply (Hfresh attr Hin). left. reflexivity. }
    f_equal.
    * unfold primaryKeyColumns. cbn [filter snd].
      destruct (includes "PRIMARY KEY" dataType);
        [|reflexivity].
      unfold push. rewrite <- List.app_assoc. reflexivity.
    * destruct col as [d [r|]]; cbn [snd deferred].
      -- rewrite (set_fresh _ _ _ _ Hattr (Hnames attr (or_introl eq_refl))),
           <- app_assoc.
         specialize (Hname r eq_refl). destruct r as [a ref].
         cbn in Hname. subst a. reflexivity.
      -- reflexivity.
    * unfold push. rewrite <- List.app_assoc. reflexivity.
Qed.

Lemma primaryKeyClause_nonempty (pks : list string) :
  (forall name, quoteIdentifier name <> EmptyString) ->
  primaryKeyClause quoteIdentifier pks
  = match pks with
    | [] => EmptyString
    | _ :: _ =>
        ", PRIMARY KEY (" ++ join ", " (map quoteIdentifier pks) ++ ")"
    end.
Proof.
intros Hq. unfold primaryKeyClause. destruct pks as [|pk pks]; [reflexivity|].
assert (H : (0 <? String.length (join ", " (map quoteIdentifier (pk :: pks))))%nat
            = true).
{ apply Nat.ltb_lt. unfold join. cbn [map String.concat].
  specialize (Hq pk).
  destruct (map quoteIdentifier pks); destruct (quoteIdentifier pk);
    try congruence; cbn; lia. }
rewrite H. reflexivity.
Qed.

(** The statement for a table whose type strings carry REFERENCES only
    as a clause (some text, a space, REFERENCES and what follows, on
    one line) and whose columns are not named by array indices: the
    column definitions, the unique constraints, a PRIMARY KEY clause
    over the columns whose type string has the words PRIMARY KEY, and a
    FOREIGN KEY clause per column with a REFERENCES clause, in column
    order. At which REFERENCES a type string is split, and what is left
    of a type string that has the words PRIMARY KEY more than once, is
    not said here. *)
Lemma createTableQuery_layout :
  forall (tableName : string) (attributes : obj string)
         (options : option TableOptions),
    NoDup (keys attributes) ->
    (forall attr dataType,
        In (attr, dataType) attributes ->
        includes "REFERENCES" dataType = true ->
        hasReferencesClause dataType) ->
    (forall attr, In attr (keys attributes) -> arrayIndex attr = None) ->
    (forall name, quoteIdentifier name <> EmptyString) ->
    exists cols : list (string * option (string * string)),
      Forall2 (rendered quoteIdentifier) attributes cols
      /\ createTableQuery quoteIdentifier quoteTable tableName attributes
           options
         = Return
             ("CREATE TABLE IF NOT EXISTS " ++ quoteTable tableName ++ " ("
                ++ (join ", " (map fst cols)
                      ++ uniqueClauses quoteIdentifier tableName options
                      ++ match primaryKeyColumns attributes with
                         | [] => EmptyString
                         | _ :: _ =>
                             ", PRIMARY KEY ("
                               ++ join ", "
                                    (map quoteIdentifier
                                       (primaryKeyColumns attributes))
                               ++ ")"
                         end
                      ++ String.concat EmptyString
                           (map (fun r =>
                                   ", FOREIGN KEY ("
                                     ++ quoteIdentifier (fst r) ++ ") "
                                     ++ snd r)
                                (deferred cols)))
                ++ ")" ++ autoIncrementClause options ++ ";").
Proof.
intros tableName attributes options Hnd Hwf Hnames Hq.
destruct (columnLoop_rendered attributes
            {| primaryKeys := []; foreignKeys := []; attrStr := [] |}
            Hnd) as [cols [Hall Hloop]].
- intros k [].
- exact Hwf.
- exact Hnames.
- exists cols. split; [exact Hall|].
  unfold createTableQuery. rewrite Hloop. cbn [bind app primaryKeys
    foreignKeys attrStr].
  rewrite (primaryKeyClause_nonempty _ Hq). reflexivity.
Qed.

End CreateTableProperties.

(** The statement for a table with a key and a reference. *)
Example createTableQuery_users :
  QueryGenerator.createTableQuery Reference.quote Reference.quote
    "users" Reference.usersTable None
  = Return
      ("CREATE TABLE IF NOT EXISTS " ++ Reference.quote "users" ++ " ("
         ++ Reference.quote "id" ++ " INTEGER auto_increment , "
         ++ Reference.quote "name" ++ " VARCHAR(255), "
         ++ Reference.quote "owner" ++ " INTEGER, PRIMARY KEY ("
         ++ Reference.quote "id" ++ "), FOREIGN KEY ("
         ++ Reference.quote "owner" ++ ") REFERENCES people (id));").
Proof. vm_compute. reflexivity. Qed.

(** A type string that only mentions the word makes the call throw. *)
Example createTableQuery_comment :
  QueryGenerator.createTableQuery Reference.quote Reference.quote "users"
    [("id", "INTEGER PRIMARY KEY"); ("n", "INTEGER COMMENT 'REFERENCES'")]
    None
  = Throw QueryGenerator.matchIsNull.
Proof. vm_compute. reflexivity. Qed.

(** C3, at two tables as [attributesToSQL] renders them. A column whose
    comment is the word REFERENCES has no REFERENCES clause, yet the
    test for the word sends it to the pattern, which does not match,
    and [createTableQuery] throws instead of giving a statement. A key
    whose default value is the text PRIMARY KEY loses that text from
    its default and keeps its own PRIMARY KEY words, so that the
    statement has two PRIMARY KEY clauses, one of them inside the
    column definition. *)
Theorem createTableQuery_keyword_in_literal :
  QueryGenerator.attributesToSQL Reference.sqlEscape Reference.quote
    Reference.quote Reference.schemable Reference.notesAttributes None
  = [ ("id", "INTEGER NOT NULL auto_increment PRIMARY KEY");
      ("note", "INTEGER COMMENT 'REFERENCES'") ]
  /\ QueryGenerator.createTableQuery Reference.quote Reference.quote "notes"
       (QueryGenerator.attributesToSQL Reference.sqlEscape Reference.quote
          Reference.quote Reference.schemable Reference.notesAttributes None)
       None
     = Throw QueryGenerator.matchIsNull
  /\ QueryGenerator.attributesToSQL Reference.sqlEscape Reference.quote
       Reference.quote Reference.schemable Reference.labelsAttributes None
     = [ ("label", "VARCHAR(255) DEFAULT 'PRIMARY KEY' PRIMARY KEY") ]
  /\ QueryGenerator.createTableQuery Reference.quote Reference.quote "labels"
       (QueryGenerator.attributesToSQL Reference.sqlEscape Reference.quote
          Reference.quote Reference.schemable Reference.labelsAttributes None)
       None
     = Return
         ("CREATE TABLE IF NOT EXISTS " ++ Reference.quote "labels" ++ " ("
            ++ Reference.quote "label"
            ++ " VARCHAR(255) DEFAULT '' PRIMARY KEY, PRIMARY KEY ("
            ++ Reference.quote "label" ++ "));").
Proof. vm_compute. repeat split. Qed.

(** ** query-generator.js: upsertQuery *)

Section UpsertProperties.

Import QueryGenerator Reference.

(** C1, at a model whose identity column is not the first updated key
    and is not called id: the UPDATE SET clause assigns the identity
    column [uid] and leaves out [name]. *)
Theorem upsertQuery_assigns_identity_column :
  identityInsertOf (modelAttributeMap usersModel) john = true
  /\ updateClause (identityInsertOf (modelAttributeMap usersModel) john) john
     = "UPDATE SET T1." ++ dquote ++ "uid" ++ dquote
       ++ "=T2." ++ dquote ++ "uid" ++ dquote
  /\ upsertQuery quote quote (fun hash => hash) literal
       "users" john john usersModel
     = "MERGE INTO " ++ quote "users" ++ " AS T1 USING (SELECT NULL "
       ++ quote "id" ++ ", 'john' " ++ quote "name" ++ ", '7' "
       ++ quote "uid" ++ " FROM DUAL) AS T2" ++ newline
       ++ "      ON T1." ++ quote "id" ++ " = T2." ++ quote "id" ++ " "
       ++ newline
       ++ "      WHEN MATCHED THEN UPDATE SET T1." ++ quote "uid"
       ++ "=T2." ++ quote "uid" ++ newline
       ++ "      WHEN NOT MATCHED THEN INSERT (" ++ quote "uid"
       ++ ") VALUES (T2." ++ quote "uid" ++ ");".
Proof. repeat split. Qed.

(** The clause, key by key: a key is left out exactly when it is [id],
    or when it comes first and an inserted value belongs to an
    auto-increment attribute. *)
Lemma updateFields_step (identityInsert : bool) (idx : nat) (key : string)
    (more : list string) (q : string) (added : bool) :
  updateFields identityInsert idx (key :: more) q added
  = if (identityInsert && (idx =? 0)%nat || String.eqb key "id")%bool
    then updateFields identityInsert (S idx) more q added
    else updateFields identityInsert (S idx) more
           ((if added then q ++ ", " else q)
              ++ "T1." ++ dquote ++ key ++ dquote
              ++ "=T2." ++ dquote ++ key ++ dquote) true.
Proof. reflexivity. Qed.

(** What the clause is made of, whatever the model. *)
Lemma updateFields_assigned (identityInsert : bool) (keys : list string) :
  forall (idx : nat) (q : string) (added : bool),
    updateFields identityInsert idx keys q added
    = q ++ match assignedFrom identityInsert idx keys with
           | [] => EmptyString
           | _ :: _ =>
               (if added then ", " else EmptyString)
                 ++ Str.join ", "
                      (map assignment (assignedFrom identityInsert idx keys))
           end.
Proof.
induction keys as [|key more IH]; intros idx q added.
- cbn. symmetry. apply append_empty_r.
- cbn [updateFields assignedFrom].
  destruct (identityInsert && (idx =? 0)%nat || String.eqb key "id")%bool;
    [apply IH|].
  rewrite IH. cbn [map]. unfold Str.join. cbn [String.concat].
  fold (assignment key).
  destruct (assignedFrom identityInsert (S idx) more) as [|k ks] eqn:E.
  + cbn [map]. rewrite append_empty_r.
    destruct added; rewrite ?append_assoc; reflexivity.
  + cbn [map]. destruct added; rewrite ?append_assoc; reflexivity.
Qed.

Lemma updateClause_assigned (identityInsert : bool) (updateValues : obj value) :
  updateClause identityInsert updateValues
  = "UPDATE SET "
    ++ Str.join ", "
         (map assignment (assignedFrom identityInsert 0 (keys updateValues))).
Proof.
unfold updateClause. rewrite updateFields_assigned.
destruct (assignedFrom identityInsert 0 (keys updateValues)); reflexivity.
Qed.

(** A column called [id] is never assigned. *)
Lemma assignedFrom_not_id (identityInsert : bool) (keys : list string) :
  forall idx, ~ In "id" (assignedFrom identityInsert idx keys).
Proof.
induction keys as [|key more IH]; intros idx H; [exact H|].
cbn [assignedFrom] in H.
destruct (String.eqb_spec key "id") as [->|Hne].
- rewrite orb_true_r in H. exact (IH _ H).
- rewrite orb_false_r in H.
  destruct (identityInsert && (idx =? 0)%nat)%bool; [exact (IH _ H)|].
  destruct H as [H|H]; [congruence|exact (IH _ H)].
Qed.

(** With the identity column first, or called [id], it is left out. *)
Example upsertQuery_identity_first :
  updateClause true [("id", VNum 1); ("name", VStr "john")]
  = "UPDATE SET T1." ++ dquote ++ "name" ++ dquote
    ++ "=T2." ++ dquote ++ "name" ++ dquote.
Proof. reflexivity. Qed.

End UpsertProperties.

(** ** query-generator.js: _checkValidJsonStatement *)

Section JsonStatementProperties.

Import QueryGenerator Reference.

(** C4, at a path where a JSON function call is followed by a
    comparison and then by a statement terminator: the scan stops at
    the [=] sign, never reaches the [;], and the path is accepted. *)
Theorem checkValidJsonStatement_accepts_terminator :
  _checkValidJsonStatement (VStr smuggled) = Some (Return true).
Proof. vm_compute. reflexivity. Qed.

(** The turns of the loop on that path. *)
Example smuggled_scan :
  while 5 smuggled
    {| currentIndex := 0; openingBrackets := 0; closingBrackets := 0;
       hasJsonFunction := false; hasInvalidToken := false |}
  = Some {| currentIndex := 15; openingBrackets := 1; closingBrackets := 1;
            hasJsonFunction := true; hasInvalidToken := false |}.
Proof. vm_compute. reflexivity. Qed.

(** A terminator that the scan does reach is refused, a quoted one is
    not a token, and a plain path is no JSON statement. *)
Example checkValidJsonStatement_examples :
  _checkValidJsonStatement (VStr "json_extract(a); DROP TABLE users")
  = Some (Throw (Error "Invalid json statement: json_extract(a); DROP TABLE users"))
  /\ _checkValidJsonStatement (VStr "json_extract(a))")
     = Some (Throw (Error "Invalid json statement: json_extract(a))"))
  /\ _checkValidJsonStatement (VStr "json_extract(a, ';')")
     = Some (Return true)
  /\ _checkValidJsonStatement (VStr "profile.id") = Some (Return false)
  /\ _checkValidJsonStatement (VNum 3) = Some (Return false).
Proof. vm_compute. repeat split. Qed.

End JsonStatementProperties.

(** ** _checkValidJsonStatement returns *)

Section JsonStatementTermination.

Import Regex QueryGenerator Reference.

Lemma class_within (icase : bool) (P : ascii -> bool) (invert : bool)
    (p : ascii -> bool) (c : ascii) :
  within icase P (Cls invert p) = true ->
  charMatches icase invert p c = true ->
  P c = true.
Proof.
intros Hin Hc. cbn [within] in Hin. rewrite forallb_forall in Hin.
specialize (Hin c (In_allAscii c)). rewrite Hc in Hin. exact Hin.
Qed.

Lemma indexOf_skip (a b : string) :
  allChars notParen a = true ->
  indexOf "(" (a ++ String "(" b) = Z.of_nat (String.length a).
Proof.
induction a as [|c a IH]; intros H; [reflexivity|].
cbn [allChars] in H. apply andb_prop in H. destruct H as [Hc Ha].
cbn [append indexOf String.length]. unfold notParen in Hc.
destruct (Ascii.eqb c "("); [discriminate|].
rewrite (IH Ha).
destruct (Z.of_nat (String.length a) <? 0)%Z eqn:E; [|lia].
apply Z.ltb_lt in E. lia.
Qed.

(** The opening bracket of a recognised function call is not the first
    character of the match. *)
Lemma jsonFunction_index (s : string) (m : result) :
  matchHere true jsonFunctionRegex s = Some m ->
  (0 < indexOf "(" (matched m))%Z.
Proof.
intros H. apply matchHere_sound in H; [|reflexivity].
destruct H as [st' [Hm ->]]. cbn [matched].
unfold jsonFunctionRegex in Hm.
match type of Hm with
| context [Grp 1 ?name] => remember name as NAME eqn:HNAME
end.
cbn [seq] in Hm.
destruct Hm as [mid0 [Hws [mid1 [[mid [Hname ->]] [mid2 [Hopen Hrest]]]]]].
apply (matches_within true notParen) in Hws; [|reflexivity].
destruct Hws as [w0 [E0 P0]]. cbn [rest] in E0.
pose proof (matches_minLen true _ _ _ Hname) as Hlen.
apply (matches_within true notParen) in Hname;
  [|subst NAME; vm_compute; reflexivity].
destruct Hname as [w1 [E1 P1]].
assert (Hmin : minLen NAME = 4) by (subst NAME; reflexivity).
rewrite Hmin, E1, length_append in Hlen.
unfold chr in Hopen. destruct Hopen as [c [Ec [Hc _]]]. cbn [rest] in Ec.
apply (class_within true isParen) in Hc; [|vm_compute; reflexivity].
apply Ascii.eqb_eq in Hc. subst c.
apply (matches_within true anything) in Hrest; [|vm_compute; reflexivity].
destruct Hrest as [w3 [E3 _]].
assert (Hs : s = ((w0 ++ w1) ++ String "(" w3) ++ rest st').
{ rewrite E0, E1, Ec, E3. rewrite !append_assoc. reflexivity. }
rewrite Hs, consumed_append, indexOf_skip.
- rewrite length_append. lia.
- rewrite allChars_app, P0, P1. reflexivity.
Qed.

(** A turn that does not leave the loop moves forward. *)
Lemma body_progress (stmt : string) (sc sc' : scan) :
  body stmt sc = Continue sc' ->
  (currentIndex sc < currentIndex sc')%Z.
Proof.
unfold body.
destruct (matchHere true jsonFunctionRegex (substr stmt (currentIndex sc)))
  as [fm|] eqn:Hf.
- intros H. injection H as <-. cbn [sawJson advance currentIndex].
  pose proof (jsonFunction_index _ _ Hf). lia.
- destruct (matchHere true jsonOperatorRegex (substr stmt (currentIndex sc)))
    as [om|] eqn:Ho.
  + intros H. injection H as <-. cbn [sawJson advance currentIndex].
    apply matchHere_minLen in Ho; [|reflexivity].
    change (minLen jsonOperatorRegex) with 1 in Ho. lia.
  + destruct (matchHere true tokenCaptureRegex
                (substr stmt (currentIndex sc))) as [tm|] eqn:Ht;
      [|discriminate].
    apply matchHere_minLen in Ht; [|reflexivity].
    change (minLen tokenCaptureRegex) with 1 in Ht.
    destruct (String.eqb (groupText 1 tm) "(");
      [intros H; injection H as <-; cbn [advance currentIndex]; lia|].
    destruct (String.eqb (groupText 1 tm) ")");
      [intros H; injection H as <-; cbn [advance currentIndex]; lia|].
    destruct (String.eqb (groupText 1 tm) ";"); [discriminate|].
    intros H; injection H as <-; cbn [advance currentIndex]; lia.
Qed.

(** One turn per character still to be read is enough. *)
Lemma while_enough (stmt : string) :
  forall (fuel : nat) (sc : scan),
    (Z.of_nat (String.length stmt) - currentIndex sc <= Z.of_nat fuel)%Z ->
    while fuel stmt sc <> None.
Proof.
induction fuel as [|fuel IH]; intros sc Hfuel.
- cbn [while].
  destruct (currentIndex sc <? Z.of_nat (String.length stmt))%Z eqn:E;
    [|discriminate].
  apply Z.ltb_lt in E. lia.
- cbn [while].
  destruct (currentIndex sc <? Z.of_nat (String.length stmt))%Z eqn:E;
    [|discriminate].
  destruct (body stmt sc) as [sc'|sc'] eqn:Hb; [|discriminate].
  apply body_progress in Hb. apply IH. lia.
Qed.

(** [_checkValidJsonStatement] always returns or throws. *)
Lemma checkValidJsonStatement_total (stmt : value) :
  exists r : completion bool, _checkValidJsonStatement stmt = Some r.
Proof.
destruct stmt as [| |b|z|s]; try (eexists; reflexivity).
unfold _checkValidJsonStatement, _checkValidJsonStatementWith.
match goal with
| |- context [while ?f ?s ?sc] =>
    pose proof (while_enough s f sc) as H; destruct (while f s sc) as [x|]
end.
- eexists. reflexivity.
- exfalso. apply H; [|reflexivity]. cbn [currentIndex]. lia.
Qed.

(** The flag of the loop is raised only where one of the two JSON
    patterns matches. *)
Lemma while_no_json (stmt : string) :
  (forall i : Z,
      matchHere true jsonFunctionRegex (substr stmt i) = None
      /\ matchHere true jsonOperatorRegex (substr stmt i) = None) ->
  forall (fuel : nat) (sc sc' : scan),
    while fuel stmt sc = Some sc' ->
    hasJsonFunction sc' = hasJsonFunction sc.
Proof.
intros Hno. induction fuel as [|fuel IH]; intros sc sc' H; cbn [while] in H;
  destruct (currentIndex sc <? Z.of_nat (String.length stmt))%Z;
  try discriminate; try (injection H as <-; reflexivity).
unfold body in H. destruct (Hno (currentIndex sc)) as [Hf Ho].
rewrite Hf, Ho in H.
destruct (matchHere true tokenCaptureRegex (substr stmt (currentIndex sc)))
  as [tm|]; [|injection H as <-; reflexivity].
destruct (String.eqb (groupText 1 tm) "(");
  [apply IH in H; exact H|].
destruct (String.eqb (groupText 1 tm) ")");
  [apply IH in H; exact H|].
destruct (String.eqb (groupText 1 tm) ";");
  [injection H as <-; reflexivity|].
apply IH in H. exact H.
Qed.

(** A string in which neither a JSON function call nor a JSON operator
    is recognised anywhere is no JSON statement: the answer is [false]
    and nothing is thrown. *)
Lemma checkValidJsonStatement_plain (stmt : string) :
  (forall i : Z,
      matchHere true jsonFunctionRegex (substr stmt i) = None
      /\ matchHere true jsonOperatorRegex (substr stmt i) = None) ->
  _checkValidJsonStatement (VStr stmt) = Some (Return false).
Proof.
intros Hno.
destruct (checkValidJsonStatement_total (VStr stmt)) as [r Hr].
rewrite Hr. f_equal.
unfold _checkValidJsonStatement, _checkValidJsonStatementWith in Hr.
match type of Hr with
| context [while ?f ?s ?sc] =>
    destruct (while f s sc) as [sc'|] eqn:Hw; [|discriminate]
end.
apply (while_no_json _ Hno) in Hw. cbn [hasJsonFunction] in Hw.
cbn [option_map] in Hr. injection Hr as <-.
unfold verdict. rewrite Hw. reflexivity.
Qed.

(** A turn that meets a [;] token raises the other flag, and with both
    flags up the verdict is an error. *)
Lemma verdict_invalid (stmt : string) (sc : scan) :
  hasJsonFunction sc = true ->
  hasInvalidToken sc = true ->
  verdict stmt sc = Throw (Error ("Invalid json statement: " ++ stmt)).
Proof. intros H1 H2. unfold verdict. rewrite H1, H2. reflexivity. Qed.

Lemma verdict_unbalanced (stmt : string) (sc : scan) :
  hasJsonFunction sc = true ->
  openingBrackets sc <> closingBrackets sc ->
  verdict stmt sc = Throw (Error ("Invalid json statement: " ++ stmt)).
Proof.
intros H1 H2. unfold verdict. rewrite H1.
apply Nat.eqb_neq in H2. rewrite H2, orb_true_r. reflexivity.
Qed.

End JsonStatementTermination.

(** ** query.js: formatError *)

Section FormatErrorProperties.

Import Query Reference.

(** C2, as the code runs: query.js reads [ER_DUP_ENTRY] in the first
    case label of the [switch] without declaring it, so unless a global
    of that name exists [formatError] throws a ReferenceError for every
    error, the duplicate-entry error of the scenario included. *)
Theorem formatError_undeclared_constant :
  forall (globals : obj value) (getMessage : string -> string)
         (this : query) (err : DriverError),
    get globals "ER_DUP_ENTRY" = None ->
    formatError globals getMessage this err
    = Throw (ReferenceError "ER_DUP_ENTRY").
Proof.
intros globals getMessage this err H.
unfold formatError, resolve. rewrite H. reflexivity.
Qed.

Lemma formatError_undeclared_constant_witness :
  formatError [] mustBeUnique usersQuery duplicate
  = Throw (ReferenceError "ER_DUP_ENTRY").
Proof.
apply (formatError_undeclared_constant [] mustBeUnique usersQuery duplicate).
reflexivity.
Defined.

(** None of the identifiers that [formatError] leaves free is bound by
    the module. *)
Lemma formatError_free_identifiers :
  forallb (fun ident => negb (existsb (String.eqb ident) moduleScope))
    ["ER_DUP_ENTRY"; "ER_ROW_IS_REFERENCED"; "ER_NO_REFERENCED_ROW";
     "errStack"] = true.
Proof. reflexivity. Qed.

(** With the constants of the MySQL dialect in scope the block itself
    does what the scenario says. *)
Lemma formatError_with_constants :
  exists e : UniqueConstraint,
    formatError mysqlConstants mustBeUnique usersQuery duplicate
    = Return (UniqueConstraintError e)
    /\ uc_fields e = [("name", VStr "john"); ("secretValue", VStr "7")]
    /\ uc_parent e = duplicate
    /\ uc_message e = "Validation error".
Proof.
eexists. split; [vm_compute; reflexivity|]. repeat split.
Qed.

End FormatErrorProperties.

(** ** query.js: run *)

Section RunProperties.

Import Str Query Reference.

Lemma includes_cons (w : string) (c : ascii) (t : string) :
  includes w (String c t) = startsWith w (String c t) || includes w t.
Proof. reflexivity. Qed.

Lemma replaceAllFrom_cons (pat rep : string) (c : ascii) (t : string) :
  replaceAllFrom pat rep 0 (String c t)
  = if startsWith pat (String c t)
    then rep ++ replaceAllFrom pat rep (String.length pat - 1) t
    else String c (replaceAllFrom pat rep 0 t).
Proof. reflexivity. Qed.

Lemma booleansAsBitsFrom_cons (c : ascii) (t : string) :
  booleansAsBitsFrom 0 (String c t)
  = if startsWith " = true" (String c t)
    then " = 1" ++ booleansAsBitsFrom 6 t
    else if startsWith " = false" (String c t)
    then " = 0" ++ booleansAsBitsFrom 7 t
    else String c (booleansAsBitsFrom 0 t).
Proof. reflexivity. Qed.

Lemma startsWith_app (w s : string) :
  startsWith w s = true -> exists s', s = w ++ s'.
Proof.
revert s. induction w as [|a w IH]; intros s H.
- exists s. reflexivity.
- destruct s as [|b s]; [discriminate|]. cbn in H.
  apply andb_prop in H. destruct H as [Hab Hw].
  apply Ascii.eqb_eq in Hab. subst b.
  destruct (IH s Hw) as [s' ->]. exists s'. reflexivity.
Qed.

Lemma differ_startsWith (w r : string) :
  differ w r = true -> forall x, startsWith w (r ++ x) = false.
Proof.
revert r. induction w as [|a w IH]; intros r H x.
- discriminate.
- destruct r as [|b r]; [discriminate|]. cbn in H |- *.
  destruct (Ascii.eqb a b); [|reflexivity]. cbn. apply IH, H.
Qed.

(** A word that cannot begin inside a replacement begins a rewritten text
    only where it began the original. *)
Lemma replaceAll_head (pat rep w : string) :
  allSuffixesDiffer w rep = true ->
  forall t, startsWith w (replaceAllFrom pat rep 0 t) = true ->
            startsWith w t = true.
Proof.
induction w as [|a w IH]; intros Hs t H; [reflexivity|].
cbn [allSuffixesDiffer] in Hs. apply andb_prop in Hs. destruct Hs as [Hd Hs].
destruct t as [|c t]; [discriminate|].
rewrite replaceAllFrom_cons in H.
destruct (startsWith pat (String c t)).
- rewrite (differ_startsWith _ _ Hd) in H. discriminate.
- cbn in H |- *. apply andb_prop in H. destruct H as [Hac Hw].
  rewrite Hac. cbn. apply IH; assumption.
Qed.

Lemma booleansAsBits_head (w : string) :
  allSuffixesDiffer w " = 1" = true ->
  allSuffixesDiffer w " = 0" = true ->
  forall t, startsWith w (booleansAsBitsFrom 0 t) = true ->
            startsWith w t = true.
Proof.
induction w as [|a w IH]; intros H1 H0 t H; [reflexivity|].
cbn [allSuffixesDiffer] in H1, H0.
apply andb_prop in H1. destruct H1 as [Hd1 H1].
apply andb_prop in H0. destruct H0 as [Hd0 H0].
destruct t as [|c t]; [discriminate|].
rewrite booleansAsBitsFrom_cons in H.
destruct (startsWith " = true" (String c t)).
- rewrite (differ_startsWith _ _ Hd1) in H. discriminate.
- destruct (startsWith " = false" (String c t)).
  + rewrite (differ_startsWith _ _ Hd0) in H. discriminate.
  + cbn in H |- *. apply andb_prop in H. destruct H as [Hac Hw].
    rewrite Hac. cbn. apply IH; assumption.
Qed.

(** The two replacements of [run], one after the other, are the single
    pass. *)
Lemma replaceAll_twice (s : string) :
  forall k,
    replaceAllFrom " = false" " = 0" 0 (replaceAllFrom " = true" " = 1" k s)
    = booleansAsBitsFrom k s.
Proof.
induction s as [|c t IH]; intros k; [destruct k; reflexivity|].
destruct k as [|k]; [|cbn; apply IH].
rewrite replaceAllFrom_cons, booleansAsBitsFrom_cons.
destruct (startsWith " = true" (String c t)) eqn:E1.
- cbn. rewrite IH. reflexivity.
- destruct (startsWith " = false" (String c t)) eqn:E2.
  + destruct (startsWith_app _ _ E2) as [s' Hs'].
    cbn in Hs'. injection Hs' as -> ->.
    specialize (IH 7). cbn in IH. cbn. rewrite IH. reflexivity.
  + rewrite replaceAllFrom_cons.
    destruct (startsWith " = false"
                (String c (replaceAllFrom " = true" " = 1" 0 t))) eqn:E3.
    * assert (H : startsWith " = false" (String c t) = true).
      { apply (replaceAll_head " = true" " = 1"); [reflexivity|].
        rewrite replaceAllFrom_cons, E1. exact E3. }
      congruence.
    * rewrite IH. reflexivity.
Qed.

(** Neither pattern is left in the rewritten text. *)
Lemma booleansAsBits_free (w : string) :
  w = " = true" \/ w = " = false" ->
  forall s k, includes w (booleansAsBitsFrom k s) = false.
Proof.
intros Hw. induction s as [|c t IH]; intros k.
- destruct k; destruct Hw as [-> | ->]; reflexivity.
- destruct k as [|k]; [|cbn; apply IH].
  rewrite booleansAsBitsFrom_cons.
  destruct (startsWith " = true" (String c t)) eqn:E1;
    [|destruct (startsWith " = false" (String c t)) eqn:E2].
  + cbn [append]. rewrite !includes_cons, (IH 6).
    destruct Hw as [-> | ->]; reflexivity.
  + cbn [append]. rewrite !includes_cons, (IH 7).
    destruct Hw as [-> | ->]; reflexivity.
  + rewrite includes_cons, (IH 0), orb_false_r.
    destruct (startsWith w (String c (booleansAsBitsFrom 0 t))) eqn:E3;
      [|reflexivity].
    assert (H : startsWith w (String c t) = true).
    { apply booleansAsBits_head.
      - destruct Hw as [-> | ->]; reflexivity.
      - destruct Hw as [-> | ->]; reflexivity.
      - rewrite booleansAsBitsFrom_cons, E1, E2. exact E3. }
    destruct Hw as [-> | ->]; congruence.
Qed.

(** A text without the patterns is left as it is. *)
Lemma booleansAsBits_id (s : string) :
  includes " = true" s = false ->
  includes " = false" s = false ->
  booleansAsBitsFrom 0 s = s.
Proof.
induction s as [|c t IH]; intros H1 H2; [reflexivity|].
rewrite includes_cons in H1, H2.
apply orb_false_elim in H1. destruct H1 as [E1 H1].
apply orb_false_elim in H2. destruct H2 as [E2 H2].
rewrite booleansAsBitsFrom_cons, E1, E2, (IH H1 H2). reflexivity.
Qed.

(** C10. The text that [run] sends for a SELECT query is the text in
    which every occurrence of [ = true] has become [ = 1] and every
    occurrence of [ = false] has become [ = 0], so that neither pattern
    is left in it, and an occurrence inside a quoted literal is rewritten
    like any other; the text of another query is sent as it is. *)
Theorem run_rewrites_booleans :
  forall (this : query) (sql : string) (parameters : option (list value)),
    sent_sql (run this sql parameters)
    = (if isSelectQuery this then booleansAsBits sql else sql)
    /\ includes " = true" (booleansAsBits sql) = false
    /\ includes " = false" (booleansAsBits sql) = false
    /\ booleansAsBits "SELECT * FROM t WHERE ok = true AND note = ' = false'"
       = "SELECT * FROM t WHERE ok = 1 AND note = ' = 0'".
Proof.
intros this sql parameters. split; [|split; [|split]].
- unfold run, rewrite, booleansAsBits. cbn [sent_sql].
  destruct (isSelectQuery this); [|reflexivity]. cbn [andb].
  destruct (includes " = true" sql) eqn:H1.
  + apply (replaceAll_twice sql 0).
  + destruct (includes " = false" sql) eqn:H2.
    * apply (replaceAll_twice sql 0).
    * symmetry. apply booleansAsBits_id; assumption.
- apply booleansAsBits_free. left. reflexivity.
- apply booleansAsBits_free. right. reflexivity.
- reflexivity.
Qed.

End RunProperties.

(** * Further properties *)

(** ** connection-manager.js: the connection configuration *)

Section ConnectionConfigProperties.

Import ConnectionManager Reference.

(** X1. In the object handed to [createPool], a property of
    [dialectOptions] replaces the generated one of the same name, the
    connection string included; the schema is appended to whichever
    connection string results, and only when [config.database] is
    truthy; every other property of [dialectOptions] is passed on. *)
Theorem connectionConfig_properties :
  forall config : Config,
    NoDup (keys (dialectOptions config)) ->
    get (connectionConfig config) "connectString"
    = Some
        (let cs :=
           match get (dialectOptions config) "connectString" with
           | Some v => v
           | None =>
               VStr ("dm://" ++ toString (username config) ++ ":"
                     ++ toString (password config) ++ "@"
                     ++ toString (host config) ++ ":"
                     ++ toString (port config) ++ "?autoCommit=true")
           end in
         if truthy (database config)
         then VStr (toString cs ++ "&schema=" ++ toString (database config))
         else cs)
    /\ get (connectionConfig config) "poolMax"
       = Some match get (dialectOptions config) "poolMax" with
              | Some v => v
              | None => pool_max config
              end
    /\ get (connectionConfig config) "poolTimeout"
       = Some match get (dialectOptions config) "poolTimeout" with
              | Some v => v
              | None => pool_idle config
              end
    /\ (forall k,
          k <> "connectString" -> k <> "poolMax" -> k <> "poolTimeout" ->
          get (connectionConfig config) k = get (dialectOptions config) k).
Proof.
intros config Hnd.
assert (Hbase : forall k,
  get (spread
         [ ("connectString",
            VStr ("dm://" ++ toString (username config) ++ ":"
                  ++ toString (password config) ++ "@"
                  ++ toString (host config) ++ ":"
                  ++ toString (port config) ++ "?autoCommit=true"));
           ("poolMax", pool_max config);
           ("poolTimeout", pool_idle config) ]
         (dialectOptions config)) k
  = match get (dialectOptions config) k with
    | Some v => Some v
    | None =>
        get [ ("connectString",
               VStr ("dm://" ++ toString (username config) ++ ":"
                     ++ toString (password config) ++ "@"
                     ++ toString (host config) ++ ":"
                     ++ toString (port config) ++ "?autoCommit=true"));
              ("poolMax", pool_max config);
              ("poolTimeout", pool_idle config) ] k
    end).
{ intros k. apply get_spread. exact Hnd. }
unfold connectionConfig.
destruct (truthy (database config)).
- repeat split.
  + rewrite get_set, String.eqb_refl, Hbase.
    destruct (get (dialectOptions config) "connectString"); reflexivity.
  + rewrite get_set. cbn [String.eqb Ascii.eqb Bool.eqb]. rewrite Hbase.
    destruct (get (dialectOptions config) "poolMax"); reflexivity.
  + rewrite get_set. cbn [String.eqb Ascii.eqb Bool.eqb]. rewrite Hbase.
    destruct (get (dialectOptions config) "poolTimeout"); reflexivity.
  + intros k H1 H2 H3. rewrite get_set.
    destruct (String.eqb_spec "connectString" k) as [<-|_]; [congruence|].
    rewrite Hbase.
    destruct (get (dialectOptions config) k); [reflexivity|].
    cbn [get].
    destruct (String.eqb_spec "connectString" k) as [<-|_]; [congruence|].
    destruct (String.eqb_spec "poolMax" k) as [<-|_]; [congruence|].
    destruct (String.eqb_spec "poolTimeout" k) as [<-|_]; [congruence|].
    reflexivity.
- repeat split.
  + rewrite Hbase.
    destruct (get (dialectOptions config) "connectString"); reflexivity.
  + rewrite Hbase.
    destruct (get (dialectOptions config) "poolMax"); reflexivity.
  + rewrite Hbase.
    destruct (get (dialectOptions config) "poolTimeout"); reflexivity.
  + intros k H1 H2 H3. rewrite Hbase.
    destruct (get (dialectOptions config) k); [reflexivity|].
    cbn [get].
    destruct (String.eqb_spec "connectString" k) as [<-|_]; [congruence|].
    destruct (String.eqb_spec "poolMax" k) as [<-|_]; [congruence|].
    destruct (String.eqb_spec "poolTimeout" k) as [<-|_]; [congruence|].
    reflexivity.
Qed.

Lemma connectionConfig_properties_witness :
  get (connectionConfig tunedConfig) "connectString"
  = Some (VStr "dm://app:secret@db:5236?autoCommit=false&schema=sequelize_test")
  /\ get (connectionConfig tunedConfig) "poolMax" = Some (VNum 20).
Proof.
destruct (connectionConfig_properties tunedConfig) as [H1 [H2 _]].
- repeat constructor; cbn; intuition discriminate.
- split; [exact H1|exact H2].
Defined.

(** X2. [disconnect] calls the driver's [close] exactly when the
    [_closing] flag is not set, and its promise resolves exactly when
    the flag is set or the close callback reports no error; otherwise
    it rejects with the error of the callback. *)
Theorem disconnect_by_closing_flag :
  forall (c : Connection) (r : option DriverError),
    (In DriverClose (fst (disconnect c r)) <-> _closing c = false)
    /\ (snd (disconnect c r) = Resolved tt <-> _closing c = true \/ r = None)
    /\ (forall e, snd (disconnect c r) = Rejected e <->
                  _closing c = false /\ r = Some e).
Proof.
intros c r. unfold disconnect. destruct (_closing c); cbn [fst snd].
- split; [|split; [|intros e]]; split.
  + intros [H|[]]; discriminate.
  + discriminate.
  + intros _. left. reflexivity.
  + reflexivity.
  + discriminate.
  + intros [H _]. discriminate.
- split; [|split; [|intros e]]; split.
  + reflexivity.
  + intros _. left. reflexivity.
  + destruct r; [discriminate|]. intros _. right. reflexivity.
  + intros [H|H]; [discriminate|]. subst r. reflexivity.
  + destruct r; [|discriminate]. intros H. split; congruence.
  + intros [_ H]. subst r. reflexivity.
Qed.

End ConnectionConfigProperties.

(** ** data-types.js: GEOMETRY and ENUM *)

Section DataTypesFurther.

Import DataTypes Reference.

(** X3. The GEOMETRY constructor accepts exactly an empty type, for
    which the column type is the key of the base class, and the three
    supported names in upper case, each of which is its own column
    type; any other type throws the error that lists the three names. *)
Theorem GEOMETRY_new_sqlType :
  forall (key : string) (type : value),
    match GEOMETRY_new key type with
    | Return g =>
        geometryType g = type
        /\ ((isEmpty type = true /\ GEOMETRY_toSql g = key)
            \/ (type = VStr (GEOMETRY_toSql g)
                /\ In (GEOMETRY_toSql g) ["POINT"; "LINESTRING"; "POLYGON"]))
    | Throw e =>
        e = Error "Supported geometry types are: POINT, LINESTRING, POLYGON"
        /\ exists t, type = VStr t /\ t <> EmptyString
                     /\ ~ In t ["POINT"; "LINESTRING"; "POLYGON"]
    end.
Proof.
intros key type. unfold GEOMETRY_new.
destruct (isEmpty type) eqn:He.
- split; [reflexivity|]. left. split; reflexivity.
- destruct type as [| |b|n|t]; try discriminate He.
  cbn in He.
  destruct (existsb (String.eqb t) SUPPORTED_GEOMETRY_TYPES) eqn:Hin.
  + split; [reflexivity|]. right. split; [reflexivity|].
    apply existsb_exists in Hin. destruct Hin as [x [Hx Heq]].
    apply String.eqb_eq in Heq. subst x. exact Hx.
  + split; [reflexivity|]. exists t. split; [reflexivity|]. split.
    * intros ->. discriminate He.
    * intros Hx.
      assert (Ht : existsb (String.eqb t) SUPPORTED_GEOMETRY_TYPES = true).
      { apply existsb_exists. exists t. split; [exact Hx|apply String.eqb_refl]. }
      congruence.
Qed.

Lemma mathMax_greatest (l : list nat) :
  l <> [] ->
  exists m, mathMax l = Some m /\ (forall n, In n l -> n <= m) /\ In m l.
Proof.
induction l as [|n l IH]; intros H; [congruence|].
cbn [mathMax]. destruct l as [|n' l'].
- exists n. cbn. split; [reflexivity|]. split; [|left; reflexivity].
  intros k [<-|[]]. lia.
- destruct IH as [m [Hm [Hle Hin]]]; [discriminate|].
  rewrite Hm. exists (Nat.max n m). split; [reflexivity|]. split.
  + intros k [<-|Hk]; [lia|]. specialize (Hle k Hk). lia.
  + destruct (Nat.max_spec n m) as [[_ ->]|[_ ->]];
      [right; exact Hin|left; reflexivity].
Qed.

(** X4. For a non-empty list of values the ENUM column is [CHAR(w)]
    where [w] is the length of the longest escaped value: no escaped
    value is longer than [w] and one of them has exactly that
    length. *)
Theorem ENUM_toSql_width :
  forall (escape : string -> string) (values : list string),
    values <> [] ->
    exists w : nat,
      ENUM_toSql escape values
      = "CHAR(" ++ toString (VNum (Z.of_nat w)) ++ ")"
      /\ (forall v, In v values -> String.length (escape v) <= w)
      /\ (exists v, In v values /\ String.length (escape v) = w).
Proof.
intros escape values Hne. unfold ENUM_toSql.
destruct (mathMax_greatest (map String.length (map escape values)))
  as [m [Hm [Hle Hin]]].
- destruct values; [congruence|discriminate].
- exists m. rewrite Hm. split; [reflexivity|]. split.
  + intros v Hv. apply Hle. apply in_map. apply in_map. exact Hv.
  + apply in_map_iff in Hin. destruct Hin as [s [Hs Hin]].
    apply in_map_iff in Hin. destruct Hin as [v [Hv Hin]].
    exists v. split; [exact Hin|]. congruence.
Qed.

Lemma ENUM_toSql_width_witness :
  exists w : nat,
    ENUM_toSql quote ["draft"; "published"]
    = "CHAR(" ++ toString (VNum (Z.of_nat w)) ++ ")"
    /\ (forall v, In v ["draft"; "published"] ->
                  String.length (quote v) <= w)
    /\ (exists v, In v ["draft"; "published"]
                  /\ String.length (quote v) = w).
Proof.
apply (ENUM_toSql_width quote ["draft"; "published"]). discriminate.
Defined.

(** An ENUM without values gets a width that is not a number. *)
Lemma ENUM_toSql_no_values (escape : string -> string) :
  ENUM_toSql escape [] = "CHAR(-Infinity)".
Proof. reflexivity. Qed.

End DataTypesFurther.

(** ** query-generator.js: casts and attribute maps *)

Section CastProperties.

Import Regex QueryGenerator.

(** X5. The type of a cast is rewritten to one of [datetime], [char]
    and [decimal] or left as it is, and rewriting the result once more
    changes nothing, so a cast object that passes through the generator
    twice keeps its type. *)
Theorem castType_idempotent :
  forall (json : value) (type : string),
    castType json (castType json type) = castType json type
    /\ (castType json type = type
        \/ In (castType json type) ["datetime"; "char"; "decimal"]).
Proof.
intros json type.
assert (Hd : castType json "datetime" = "datetime")
  by (unfold castType; destruct (truthy json); vm_compute; reflexivity).
assert (Hc : castType json "char" = "char")
  by (unfold castType; destruct (truthy json); vm_compute; reflexivity).
assert (Hm : castType json "decimal" = "decimal")
  by (unfold castType; destruct (truthy json); vm_compute; reflexivity).
remember (castType json type) as r eqn:Hr. unfold castType in Hr.
destruct (test true (lit "timestamp") type) eqn:H1.
{ subst r. split; [exact Hd|]. right. left. reflexivity. }
destruct (truthy json && test true (lit "boolean") type)%bool eqn:H2.
{ subst r. split; [exact Hc|]. right. right. left. reflexivity. }
destruct (test true (lit "double precision") type
          || test true (lit "boolean") type
          || test true (lit "integer") type)%bool eqn:H3.
{ subst r. split; [exact Hm|]. right. right. right. left. reflexivity. }
destruct (test true (lit "text") type) eqn:H4.
{ subst r. split; [exact Hc|]. right. right. left. reflexivity. }
subst r. split; [|left; reflexivity].
unfold castType. rewrite H1, H2, H3, H4. reflexivity.
Qed.

End CastProperties.

Section AttributesProperties.

Import QueryGenerator Reference.

Variable escape : value -> string.
Variable quoteIdentifier : string -> string.
Variable quoteTable : string -> string.
Variable defaultValueSchemable : value -> bool.




End AttributesProperties.

(** A column named by an array index is listed first in the result,
    wherever its attribute stands in the model. *)
Example attributesToSQL_array_index :
  keys
    (QueryGenerator.attributesToSQL Reference.sqlEscape Reference.quote
       Reference.quote Reference.schemable
       [ ("name",
          {| QueryGenerator.columnField := Some "name";
             QueryGenerator.definition :=
               QueryGenerator.Plain Reference.notes |});
         ("seventh",
          {| QueryGenerator.columnField := Some "7";
             QueryGenerator.definition :=
               QueryGenerator.Plain Reference.notes |}) ]
       None)
  = ["7"; "name"].
Proof. reflexivity. Qed.

(** ** query-generator.js: which tables createTableQuery accepts *)

Section ReferencesClause.

Import Regex QueryGenerator Reference.

(** A type string the pattern matches has a REFERENCES clause. *)
Lemma referencesRegex_clause (dataType : string) (m : result) :
  matchHere false referencesRegex dataType = Some m ->
  hasReferencesClause dataType.
Proof.
intros H. apply matchHere_sound in H; [|reflexivity].
destruct H as [st' [Hm ->]].
unfold referencesRegex in Hm. cbn [seq matches] in Hm.
destruct Hm as [st1 [[mid1 [Hplus ->]] [st2 [Hsp [st3 [Hg2 [-> Hend]]]]]]].
destruct Hplus as [n [Hn Hplus]].
apply (iter_class false) in Hplus.
destruct Hplus as [w1 [Hw1 [Hlen1 [Ha1 Hc1]]]].
destruct Hsp as [c [Hsp [Hc Hc2]]]. cbn [rest caps] in Hsp, Hc2, Hw1, Hc1.
unfold charMatches in Hc. cbn [xorb] in Hc.
apply Ascii.eqb_eq in Hc. subst c.
destruct Hg2 as [mid2 [[st4 [Hlit Hstar]] ->]].
apply matches_lit in Hlit. destruct Hlit as [Hlit Hc4].
destruct Hstar as [n2 [_ Hstar]].
apply (iter_class false) in Hstar.
destruct Hstar as [w2 [Hw2 [_ [Ha2 Hc5]]]].
cbn in Hend.
assert (Hext : forall w, allChars (charMatches false true isLineTerminator) w = true ->
               allChars (fun c => negb (isLineTerminator c)) w = true).
{ induction w as [|c w IH]; [reflexivity|]. cbn [allChars].
  intros Hw. apply andb_prop in Hw. destruct Hw as [Hc Hw].
  rewrite (IH Hw), andb_true_r.
  unfold charMatches in Hc. cbn in Hc. exact Hc. }
exists w1, w2. split; [|split].
- rewrite Hw1, Hsp, Hlit, Hw2, Hend, append_empty_r. reflexivity.
- intros ->. cbn in Hlen1. lia.
- unfold singleLine. rewrite Hw1, Hsp, Hlit, Hw2, Hend, append_empty_r.
  rewrite allChars_app, (Hext _ Ha1).
  change (String " " ("REFERENCES" ++ w2)) with (" REFERENCES" ++ w2).
  rewrite allChars_app, (Hext _ Ha2). reflexivity.
Qed.

End ReferencesClause.

Section CreateTableFurther.

Import Str Regex QueryGenerator Reference.

Variable escape : value -> string.
Variable quoteIdentifier : string -> string.
Variable quoteTable : string -> string.
Variable defaultValueSchemable : value -> bool.

(** A column is refused exactly when its type string mentions
    REFERENCES and the pattern does not match it. *)
Lemma column_outcome (acc : columns) (attr dataType : string) :
  (includes "REFERENCES" dataType = true
   /\ ~ hasReferencesClause dataType
   /\ column quoteIdentifier acc attr dataType = Throw matchIsNull)
  \/ ((includes "REFERENCES" dataType = true -> hasReferencesClause dataType)
      /\ exists acc', column quoteIdentifier acc attr dataType = Return acc').
Proof.
unfold column.
destruct (includes "REFERENCES" dataType) eqn:Href.
- destruct (matchHere false referencesRegex dataType) as [m|] eqn:Hm.
  + right. split; [intros _; exact (referencesRegex_clause _ _ Hm)|].
    destruct (includes "PRIMARY KEY" dataType); eexists; reflexivity.
  + left. split; [reflexivity|]. split.
    * intros Hc. exact (referencesRegex_complete _ Hc Hm).
    * destruct (includes "PRIMARY KEY" dataType); reflexivity.
- right. split; [discriminate|].
  destruct (includes "PRIMARY KEY" dataType);
    [|destruct (includes "JSON" dataType)]; eexists; reflexivity.
Qed.

Lemma columnLoop_outcome (attributes : obj string) :
  forall acc : columns,
    ((exists attr dataType,
         In (attr, dataType) attributes
         /\ includes "REFERENCES" dataType = true
         /\ ~ hasReferencesClause dataType)
     /\ columnLoop quoteIdentifier acc attributes = Throw matchIsNull)
    \/ ((forall attr dataType,
           In (attr, dataType) attributes ->
           includes "REFERENCES" dataType = true ->
           hasReferencesClause dataType)
        /\ exists cols, columnLoop quoteIdentifier acc attributes = Return cols).
Proof.
induction attributes as [|[attr dataType] more IH]; intros acc.
- right. split; [intros ? ? []|]. exists acc. reflexivity.
- cbn [columnLoop].
  destruct (column_outcome acc attr dataType)
    as [[Href [Hno Hcol]]|[Hok [acc' Hcol]]]; rewrite Hcol; cbn [bind].
  + left. split; [|reflexivity].
    exists attr, dataType. split; [left; reflexivity|]. split; assumption.
  + destruct (IH acc') as [[[a [d [Hin [Href Hno]]]] Hloop]|[Hall [cols Hloop]]].
    * left. split; [|exact Hloop].
      exists a, d. split; [right; exact Hin|]. split; assumption.
    * right. split; [|exists cols; exact Hloop].
      intros a d [Heq|Hin] Href.
      -- injection Heq as <- <-. exact (Hok Href).
      -- exact (Hall a d Hin Href).
Qed.

(** X7. [createTableQuery] returns a statement exactly when every type
    string that mentions REFERENCES has the word after some text and a
    space, all on one line; for any other table it throws the
    TypeError of reading a group of a failed match, whatever the other
    columns are. *)
Theorem createTableQuery_throws_iff :
  forall (tableName : string) (attributes : obj string)
         (options : option TableOptions),
    ((exists query,
         createTableQuery quoteIdentifier quoteTable tableName attributes
           options = Return query)
     <-> (forall attr dataType,
            In (attr, dataType) attributes ->
            includes "REFERENCES" dataType = true ->
            hasReferencesClause dataType))
    /\ ((exists query,
           createTableQuery quoteIdentifier quoteTable tableName attributes
             options = Return query)
        \/ createTableQuery quoteIdentifier quoteTable tableName attributes
             options = Throw matchIsNull).
Proof.
intros tableName attributes options. unfold createTableQuery.
destruct (columnLoop_outcome attributes
            {| primaryKeys := []; foreignKeys := []; attrStr := [] |})
  as [[[a [d [Hin [Href Hno]]]] Hloop]|[Hall [cols Hloop]]];
  rewrite Hloop; cbn [bind].
- split; [|right; reflexivity]. split.
  + intros [query Hq]. discriminate Hq.
  + intros Hall. exfalso. exact (Hno (Hall a d Hin Href)).
- split; [|left; eexists; reflexivity]. split.
  + intros _. exact Hall.
  + intros _. eexists. reflexivity.
Qed.

Lemma append_nonempty (a b : string) :
  a <> EmptyString -> a ++ b <> EmptyString.
Proof. destruct a; [congruence|discriminate]. Qed.

(** The SQL of an attribute with [references] has a REFERENCES clause. *)
Lemma attributeToSQL_clause (attribute : attributeArg)
    (options : option AttributeOptions) :
  references (plainOf attribute) <> None ->
  toSql (type (plainOf attribute)) <> EmptyString ->
  singleLine (attributeToSQL escape quoteIdentifier quoteTable
                defaultValueSchemable attribute options) = true ->
  hasReferencesClause (attributeToSQL escape quoteIdentifier quoteTable
                         defaultValueSchemable attribute options).
Proof.
intros Hr Ht Hline. revert Hline.
unfold attributeToSQL, referencesClause.
destruct (references (plainOf attribute)) as [r|]; [|congruence].
cbv zeta.
match goal with
| |- singleLine (?T ++ ?p1 ++ ?p2 ++ ?p3 ++ ?p4 ++ ?p5 ++ ?p6 ++ ?p7 ++ ?p8
                  ++ ?pre ++ " REFERENCES " ++ ?more) = true -> _ =>
    intros Hline;
    exists (T ++ p1 ++ p2 ++ p3 ++ p4 ++ p5 ++ p6 ++ p7 ++ p8 ++ pre),
           (" " ++ more);
    split; [|split; [|exact Hline]]
end.
- rewrite !append_assoc. reflexivity.
- apply append_nonempty. exact Ht.
Qed.

Lemma attributesToSQL_In (options : option AttributeOptions)
    (attributes : obj ModelAttribute) (name sql : string) :
  In (name, sql)
     (attributesToSQL escape quoteIdentifier quoteTable
        defaultValueSchemable attributes options) ->
  exists entry,
    In entry attributes
    /\ sql = attributeToSQL escape quoteIdentifier quoteTable
               defaultValueSchemable (definition (snd entry)) options.
Proof.
unfold attributesToSQL.
assert (H : forall acc,
  In (name, sql)
     (fold_left
        (fun result entry =>
           set result (columnName entry)
             (attributeToSQL escape quoteIdentifier quoteTable
                defaultValueSchemable (definition (snd entry)) options))
        attributes acc) ->
  In (name, sql) acc
  \/ exists entry,
       In entry attributes
       /\ sql = attributeToSQL escape quoteIdentifier quoteTable
                  defaultValueSchemable (definition (snd entry)) options).
{ induction attributes as [|entry more IH]; intros acc Hin.
  - left. exact Hin.
  - cbn [fold_left] in Hin. destruct (IH _ Hin) as [Hacc|[e [He Hsql]]].
    + apply In_set in Hacc. destruct Hacc as [Heq|Hacc]; [|left; exact Hacc].
      right. exists entry. split; [left; reflexivity|]. congruence.
    + right. exists e. split; [right; exact He|exact Hsql]. }
intros Hin. destruct (H [] Hin) as [[]|Hex]. exact Hex.
Qed.

(** X8. What [attributesToSQL] renders is accepted by
    [createTableQuery]: the call returns a statement when every
    attribute either renders without the word REFERENCES or has
    [references], a type that is not rendered empty, and a rendering
    on one line. *)
Theorem createTableQuery_of_attributesToSQL :
  forall (tableName : string) (attributes : obj ModelAttribute)
         (options : option AttributeOptions)
         (tableOptions : option TableOptions),
    (forall entry,
        In entry attributes ->
        let sql := attributeToSQL escape quoteIdentifier quoteTable
                     defaultValueSchemable (definition (snd entry)) options in
        (includes "REFERENCES" sql = false
         \/ (references (plainOf (definition (snd entry))) <> None
             /\ toSql (type (plainOf (definition (snd entry)))) <> EmptyString
             /\ singleLine sql = true))) ->
    exists query,
      createTableQuery quoteIdentifier quoteTable tableName
        (attributesToSQL escape quoteIdentifier quoteTable
           defaultValueSchemable attributes options)
        tableOptions
      = Return query.
Proof.
intros tableName attributes options tableOptions Hwf.
unfold createTableQuery.
destruct (columnLoop_outcome
            (attributesToSQL escape quoteIdentifier quoteTable
               defaultValueSchemable attributes options)
            {| primaryKeys := []; foreignKeys := []; attrStr := [] |})
  as [[[a [d [Hin [Href Hno]]]] _]|[_ [cols Hloop]]].
- exfalso. apply attributesToSQL_In in Hin. destruct Hin as [entry [He ->]].
  destruct (Hwf entry He) as [Hfree|[Hr [Ht Hline]]]; [congruence|].
  apply Hno. apply attributeToSQL_clause; assumption.
- rewrite Hloop. cbn [bind]. eexists. reflexivity.
Qed.

End CreateTableFurther.

Lemma createTableQuery_of_attributesToSQL_witness :
  exists query,
    QueryGenerator.createTableQuery Reference.quote Reference.quote "tasks"
      (QueryGenerator.attributesToSQL Reference.sqlEscape Reference.quote
         Reference.quote Reference.schemable Reference.tasksAttributes None)
      None
    = Return query.
Proof.
apply (createTableQuery_of_attributesToSQL Reference.sqlEscape
         Reference.quote Reference.quote Reference.schemable "tasks"
         Reference.tasksAttributes None None).
intros entry [<-|[<-|[]]]; cbv zeta.
- left. vm_compute. reflexivity.
- right. split; [discriminate|]. split; [discriminate|].
  vm_compute. reflexivity.
Defined.

(** The statement for the [tasks] model. *)
Example createTableQuery_tasks :
  QueryGenerator.createTableQuery Reference.quote Reference.quote "tasks"
    (QueryGenerator.attributesToSQL Reference.sqlEscape Reference.quote
       Reference.quote Reference.schemable Reference.tasksAttributes None)
    None
  = Return
      ("CREATE TABLE IF NOT EXISTS " ++ Reference.quote "tasks" ++ " ("
         ++ Reference.quote "id" ++ " INTEGER NOT NULL auto_increment , "
         ++ Reference.quote "owner_id" ++ " INTEGER, PRIMARY KEY ("
         ++ Reference.quote "id" ++ "), FOREIGN KEY ("
         ++ Reference.quote "owner_id" ++ ") REFERENCES "
         ++ Reference.quote "people" ++ " (" ++ Reference.quote "id"
         ++ ") ON DELETE CASCADE);").
Proof. vm_compute. reflexivity. Qed.

(** ** query-generator.js: what the JSON scan answers *)

Section JsonStatementFurther.

Import Regex QueryGenerator Reference.

Lemma someChar_app (P : ascii -> bool) (a b : string) :
  someChar P (a ++ b) = someChar P a || someChar P b.
Proof.
induction a as [|c a IH]; cbn; [reflexivity|].
rewrite IH. apply orb_assoc.
Qed.

Lemma someChar_allChars (P : ascii -> bool) (s : string) :
  allChars (fun c => negb (P c)) s = true -> someChar P s = false.
Proof.
induction s as [|c s IH]; cbn; [reflexivity|]. intros H.
apply andb_prop in H. destruct H as [Hc Hs].
rewrite (IH Hs). destruct (P c); [discriminate|reflexivity].
Qed.

(** A match of an expression that needs a character reads one. *)
Lemma matches_needs (icase : bool) (P : ascii -> bool) (r : re) :
  within icase anything r = true ->
  needs icase P r = true ->
  forall st st',
    matches icase r st st' ->
    exists w, rest st = w ++ rest st' /\ someChar P w = true.
Proof.
induction r as [|invert p|r1 IH1 r2 IH2|r1 IH1 r2 IH2
               |min max greedy r' IH|i r' IH|i|r' IH|];
  intros Hin Hneed st st' H; cbn [matches within needs] in *;
  try discriminate.
- destruct H as [c [Hr [Hc _]]].
  exists (String c EmptyString). split; [exact Hr|]. cbn.
  rewrite forallb_forall in Hneed. specialize (Hneed c (In_allAscii c)).
  rewrite Hc in Hneed. cbn in Hneed. rewrite Hneed. reflexivity.
- apply andb_prop in Hin. destruct Hin as [Hin1 Hin2].
  destruct H as [mid [H1 H2]].
  destruct (matches_within icase anything r1 Hin1 _ _ H1) as [w1 [E1 _]].
  destruct (matches_within icase anything r2 Hin2 _ _ H2) as [w2 [E2 _]].
  exists (w1 ++ w2). split; [rewrite E1, E2; symmetry; apply append_assoc|].
  rewrite someChar_app.
  apply orb_prop in Hneed. destruct Hneed as [Hn|Hn].
  + destruct (IH1 Hin1 Hn _ _ H1) as [w [E Hw]].
    assert (w = w1).
    { rewrite E1 in E. clear - E.
      assert (Hlen : String.length w = String.length w1).
      { apply (f_equal String.length) in E. rewrite !length_append in E. lia. }
      revert w1 E Hlen. induction w as [|a w IHw]; intros [|b w1] E Hlen;
        try discriminate; [reflexivity|].
      cbn in E, Hlen. injection E as -> E. f_equal. apply IHw; [exact E|lia]. }
    subst w. rewrite Hw. reflexivity.
  + destruct (IH2 Hin2 Hn _ _ H2) as [w [E Hw]].
    assert (w = w2).
    { rewrite E2 in E. clear - E.
      assert (Hlen : String.length w = String.length w2).
      { apply (f_equal String.length) in E. rewrite !length_append in E. lia. }
      revert w2 E Hlen. induction w as [|a w IHw]; intros [|b w2] E Hlen;
        try discriminate; [reflexivity|].
      cbn in E, Hlen. injection E as -> E. f_equal. apply IHw; [exact E|lia]. }
    subst w. rewrite Hw. apply orb_true_r.
- apply andb_prop in Hin. destruct Hin as [Hin1 Hin2].
  apply andb_prop in Hneed. destruct Hneed as [Hn1 Hn2].
  destruct H as [H|H]; [apply (IH1 Hin1 Hn1)|apply (IH2 Hin2 Hn2)]; exact H.
- apply andb_prop in Hneed. destruct Hneed as [Hmin Hn].
  apply Nat.ltb_lt in Hmin.
  destruct H as [n [Hle Hit]].
  inversion Hit as [|n' st0 mid st0' Hfirst Hmore]; subst; [lia|].
  destruct (IH Hin Hn _ _ Hfirst) as [w1 [E1 Hw1]]. cbn [clearCaps rest] in E1.
  apply (iter_within _ _ anything) in Hmore;
    [|apply (matches_within icase anything r' Hin)].
  destruct Hmore as [w2 [E2 _]].
  exists (w1 ++ w2). split; [rewrite E1, E2; symmetry; apply append_assoc|].
  rewrite someChar_app, Hw1. reflexivity.
- destruct H as [mid [H ->]]. apply (IH Hin Hneed) in H. exact H.
Qed.

Lemma allChars_drop (P : ascii -> bool) (n : nat) (s : string) :
  allChars P s = true -> allChars P (Str.drop n s) = true.
Proof.
revert s. induction n as [|n IH]; intros s H; [destruct s; exact H|].
destruct s as [|c s]; [reflexivity|]. cbn in H |- *.
apply andb_prop in H. destruct H as [_ H]. apply IH. exact H.
Qed.

Lemma unmarked_no_match (r : re) (stmt : string) (i : Z) :
  boundsOrdered r = true ->
  within true anything r = true ->
  needs true jsonMark r = true ->
  unmarked stmt = true ->
  matchHere true r (substr stmt i) = None.
Proof.
intros Hb Hin Hneed Hstmt.
destruct (matchHere true r (substr stmt i)) as [m|] eqn:Hm; [|reflexivity].
exfalso. apply matchHere_sound in Hm; [|exact Hb].
destruct Hm as [st' [Hm _]].
apply (matches_needs true jsonMark r Hin Hneed) in Hm.
destruct Hm as [w [E Hw]]. cbn [rest] in E.
assert (Hsub : allChars (fun c => negb (jsonMark c)) (substr stmt i) = true).
{ unfold substr. destruct (i <? 0)%Z; apply allChars_drop; exact Hstmt. }
rewrite E, allChars_app in Hsub. apply andb_prop in Hsub.
destruct Hsub as [Hsub _]. apply someChar_allChars in Hsub. congruence.
Qed.

(** X10. A path that has none of the characters [(], [-], [@], [?],
    [|] and [#] is never taken for a JSON statement: the check answers
    [false] and throws nothing, whatever else the path holds, a [;]
    included. *)
Theorem checkValidJsonStatement_unmarked :
  forall stmt : string,
    unmarked stmt = true ->
    _checkValidJsonStatement (VStr stmt) = Some (Return false).
Proof.
intros stmt H. apply checkValidJsonStatement_plain. intros i. split.
- apply unmarked_no_match; [reflexivity|vm_compute; reflexivity
                           |vm_compute; reflexivity|exact H].
- apply unmarked_no_match; [reflexivity|vm_compute; reflexivity
                           |vm_compute; reflexivity|exact H].
Qed.

Lemma checkValidJsonStatement_unmarked_witness :
  _checkValidJsonStatement (VStr "profile.address; city") = Some (Return false).
Proof.
apply (checkValidJsonStatement_unmarked "profile.address; city").
vm_compute. reflexivity.
Defined.

(** X9. [_checkValidJsonStatement] comes to an end on every argument,
    within one turn of the loop per character: it answers [true] or
    [false], or throws the error that quotes the statement; an
    argument that is not a string is answered [false]. *)
Theorem checkValidJsonStatement_outcome :
  forall stmt : value,
    exists r : completion bool,
      _checkValidJsonStatement stmt = Some r
      /\ (r = Return true \/ r = Return false
          \/ exists s, stmt = VStr s
                       /\ r = Throw (Error ("Invalid json statement: " ++ s)))
      /\ ((forall s, stmt <> VStr s) -> r = Return false).
Proof.
intros stmt. destruct (checkValidJsonStatement_total stmt) as [r Hr].
exists r. split; [exact Hr|].
destruct stmt as [| |b|z|s];
  try (cbn in Hr; injection Hr as <-; split;
       [right; left; reflexivity|intros _; reflexivity]).
split; [|intros Hs; exfalso; exact (Hs s eq_refl)].
unfold _checkValidJsonStatement, _checkValidJsonStatementWith in Hr.
match type of Hr with
| context [while ?f ?s ?sc] =>
    destruct (while f s sc) as [sc'|]; [|discriminate]
end.
cbn [option_map] in Hr. injection Hr as <-. unfold verdict.
destruct (hasJsonFunction sc'); cbn [andb].
- destruct (hasInvalidToken sc' || negb (openingBrackets sc' =? closingBrackets sc')%nat)%bool.
  + right. right. exists s. split; reflexivity.
  + left. reflexivity.
- right. left. reflexivity.
Qed.

End JsonStatementFurther.

(** ** query-generator.js: the clauses of upsertQuery *)

Section UpsertFurther.

Import Str QueryGenerator Reference.

Variable quoteIdentifier : string -> string.
Variable quoteTable : string -> string.
Variable removeNullValuesFromHash : obj value -> obj value.
Variable valueSql : nat -> value -> option RawAttribute -> string.

Lemma assignedFrom_later (identityInsert : bool) (keys : list string) :
  forall idx, assignedFrom identityInsert (S idx) keys = filter notId keys.
Proof.
induction keys as [|key more IH]; intros idx; [reflexivity|].
cbn [assignedFrom filter Nat.eqb]. rewrite andb_false_r, orb_false_l.
unfold notId at 1. rewrite IH. destruct (String.eqb key "id"); reflexivity.
Qed.

Lemma assignedFrom_filter (identityInsert : bool) (keys : list string) :
  assignedFrom identityInsert 0 keys
  = filter notId (afterIdentity _ identityInsert keys).
Proof.
destruct keys as [|key more]; [destruct identityInsert; reflexivity|].
cbn [assignedFrom Nat.eqb]. rewrite !assignedFrom_later.
destruct identityInsert; cbn [andb orb afterIdentity tl filter].
- reflexivity.
- unfold notId. destruct (String.eqb key "id"); reflexivity.
Qed.

(** X11. The UPDATE clause of the upsert assigns the keys of
    [updateValues] in order, without the first one when an inserted
    value belongs to an auto-increment attribute and without any key
    called [id]; when nothing is left the clause is the bare words
    UPDATE SET. *)
Theorem updateClause_closed_form :
  forall (identityInsert : bool) (updateValues : obj value),
    updateClause identityInsert updateValues
    = "UPDATE SET "
      ++ join ", "
           (map assignment
              (filter notId
                 (afterIdentity _ identityInsert (keys updateValues)))).
Proof.
intros identityInsert updateValues.
rewrite updateClause_assigned, assignedFrom_filter. reflexivity.
Qed.

Lemma join_cons (sep x : string) (l : list string) :
  l <> [] -> join sep (x :: l) = x ++ sep ++ join sep l.
Proof. destruct l; [congruence|reflexivity]. Qed.

Lemma insertFields_later (render : string -> string)
    (identityInsert : bool) (fields : list string) :
  forall (idx : nat) (q : string) (added : bool),
    insertFields render identityInsert (S idx) fields q added
    = q ++ match fields with
           | [] => EmptyString
           | _ :: _ =>
               (if added then ", " else EmptyString)
                 ++ join ", " (map render fields)
           end.
Proof.
induction fields as [|field more IH]; intros idx q added.
- cbn. symmetry. apply append_empty_r.
- cbn [insertFields Nat.eqb]. rewrite andb_false_r. rewrite IH.
  destruct more as [|f more'].
  + cbn [map]. unfold join. cbn [String.concat].
    rewrite append_empty_r. destruct added; rewrite ?append_assoc; reflexivity.
  + cbn [map]. rewrite (join_cons ", " (render field)); [|discriminate].
    destruct added; rewrite ?append_assoc; reflexivity.
Qed.

Lemma insertFields_closed (render : string -> string)
    (identityInsert : bool) (fields : list string) (q : string) :
  insertFields render identityInsert 0 fields q false
  = q ++ join ", " (map render (afterIdentity _ identityInsert fields)).
Proof.
destruct fields as [|field more].
- destruct identityInsert; cbn; symmetry; apply append_empty_r.
- cbn [insertFields Nat.eqb]. rewrite andb_true_r.
  destruct identityInsert; cbn [afterIdentity tl];
    rewrite insertFields_later.
  + destruct more; reflexivity.
  + destruct more as [|f more'].
    * cbn [map]. unfold join. cbn [String.concat].
      rewrite append_empty_r. reflexivity.
    * cbn [map]. rewrite (join_cons ", " (render field)); [|discriminate].
      rewrite ?append_assoc. reflexivity.
Qed.

Lemma selectFields_later (fv : list (string * string)) :
  forall (idx : nat) (q : string),
    selectFields (S idx) fv q
    = q ++ match fv with
           | [] => EmptyString
           | _ :: _ => ", " ++ join ", " (map selected fv)
           end.
Proof.
induction fv as [|[field value] more IH]; intros idx q.
- cbn. symmetry. apply append_empty_r.
- cbn [selectFields Nat.eqb andb Nat.ltb Nat.leb]. rewrite IH.
  destruct more as [|x more'].
  + cbn [map]. unfold join, selected. cbn [String.concat fst snd].
    rewrite append_empty_r, ?append_assoc. reflexivity.
  + cbn [map]. rewrite (join_cons ", " (selected (field, value))); [|discriminate].
    unfold selected. cbn [fst snd]. rewrite ?append_assoc. reflexivity.
Qed.

Lemma selectFields_closed (fv : list (string * string)) :
  selectFields 0 fv "SELECT "
  = "SELECT " ++ nullId fv ++ join ", " (map selected fv).
Proof.
destruct fv as [|[field value] more]; [reflexivity|].
cbn [selectFields Nat.eqb andb Nat.ltb Nat.leb nullId].
rewrite selectFields_later.
destruct (String.eqb field (dquote ++ "id" ++ dquote)); cbn [negb];
  (destruct more as [|x more'];
   [ cbn [map]; unfold join, selected; cbn [String.concat fst snd];
     rewrite append_empty_r, ?append_assoc; reflexivity
   | cbn [map]; rewrite (join_cons ", " (selected (field, value)));
     [|discriminate];
     unfold selected; cbn [fst snd]; rewrite ?append_assoc;
     reflexivity ]).
Qed.

Lemma renderValues_fields (map0 : obj RawAttribute)
    (insertValues : obj value) :
  forall idx,
    map fst (renderValues quoteIdentifier valueSql idx map0 insertValues)
    = map quoteIdentifier (keys insertValues).
Proof.
induction insertValues as [|[key value] more IH]; intros idx;
  [reflexivity|].
cbn [renderValues map keys fst]. rewrite IH. reflexivity.
Qed.

(** X12. The statement of the upsert in closed form: the SELECT lists
    every inserted value with its column, after a NULL [id] column
    unless the first column is [id]; the INSERT names the same columns
    in its column list and, behind [T2.], in its VALUES list, both
    without the first column when an inserted value belongs to an
    auto-increment attribute. *)
Theorem upsertQuery_closed_form :
  forall (tableName : string) (insertValues updateValues : obj value)
         (model : Model),
    let kept := removeNullValuesFromHash insertValues in
    let identityInsert := identityInsertOf (modelAttributeMap model) kept in
    let fv := renderValues quoteIdentifier valueSql 0
                (modelAttributeMap model) kept in
    let columns :=
      afterIdentity _ identityInsert (map quoteIdentifier (keys kept)) in
    upsertQuery quoteIdentifier quoteTable removeNullValuesFromHash valueSql
      tableName insertValues updateValues model
    = "MERGE INTO " ++ quoteTable tableName ++ " AS T1 USING ("
      ++ ("SELECT " ++ nullId fv ++ join ", " (map selected fv)
          ++ " FROM DUAL")
      ++ ") AS T2" ++ newline
      ++ "      ON T1." ++ dquote ++ "id" ++ dquote ++ " = T2."
      ++ dquote ++ "id" ++ dquote ++ " " ++ newline
      ++ "      WHEN MATCHED THEN "
      ++ updateClause identityInsert updateValues ++ newline
      ++ "      WHEN NOT MATCHED THEN "
      ++ ("INSERT (" ++ join ", " columns ++ ") VALUES ("
          ++ join ", " (map (fun f => "T2." ++ f) columns) ++ ")")
      ++ ";".
Proof.
intros tableName insertValues updateValues model kept identityInsert fv
  columns.
unfold upsertQuery. fold kept. fold identityInsert. fold fv.
rewrite selectFields_closed, !insertFields_closed.
unfold fv at 3 4. rewrite renderValues_fields. fold columns.
rewrite map_id, ?append_assoc. reflexivity.
Qed.

End UpsertFurther.

(** Updating nothing but the key leaves an UPDATE clause that assigns
    nothing. *)
Example updateClause_nothing_assigned :
  QueryGenerator.updateClause false [("id", VNum 1)] = "UPDATE SET ".
Proof. reflexivity. Qed.

(** ** query.js: the results of a bulk insert and of the version query *)

Section FormatResultsProperties.

Import Query Reference.



(** The turns given to the loop are enough when every turn moves
    forward. *)
Lemma insertedIds_enough (field : string) (bound : Z) :
  forall (fuel : nat) (i : Z) (result : list (obj value)),
    (forall j, (i <= j < bound)%Z -> (j + 1 <= toDouble (j + 1))%Z) ->
    (bound - i <= Z.of_nat fuel)%Z ->
    insertedIds fuel field i bound result <> None.
Proof.
induction fuel as [|fuel IH]; intros i result Hstep Hfuel; cbn [insertedIds];
  destruct (i <? bound)%Z eqn:E; try discriminate;
  apply Z.ltb_lt in E; [lia|].
pose proof (Hstep i ltac:(lia)) as Hi.
apply IH; [|lia].
intros j Hj. apply Hstep. lia.
Qed.



(** Past 2^53 the loop gives fewer rows than were inserted, or does
    not end. *)
Example bulkInsertResult_rounded :
  bulkInsertResult "id" (2 ^ 53 - 1) 2
  = Some [[("id", VNum (2 ^ 53 - 1))]]
  /\ bulkInsertResult "id" (2 ^ 53) 2 = None.
Proof. vm_compute. split; reflexivity. Qed.

Lemma indexOf_absent (c : ascii) (s : string) :
  allChars (fun a => negb (Ascii.eqb a c)) s = true ->
  QueryGenerator.indexOf c s = (-1)%Z.
Proof.
induction s as [|a s IH]; intros H; [reflexivity|].
cbn [allChars] in H. apply andb_prop in H. destruct H as [Ha Hs].
cbn [QueryGenerator.indexOf].
destruct (Ascii.eqb a c); [discriminate|].
rewrite (IH Hs). reflexivity.
Qed.

Lemma indexOf_first (c : ascii) (pre post : string) :
  allChars (fun a => negb (Ascii.eqb a c)) pre = true ->
  QueryGenerator.indexOf c (pre ++ String c post)
  = Z.of_nat (String.length pre).
Proof.
induction pre as [|a pre IH]; intros H.
- cbn. rewrite Ascii.eqb_refl. reflexivity.
- cbn [allChars] in H. apply andb_prop in H. destruct H as [Ha Hs].
  cbn [append QueryGenerator.indexOf String.length].
  destruct (Ascii.eqb a c); [discriminate|].
  rewrite (IH Hs).
  destruct (Z.of_nat (String.length pre) <? 0)%Z eqn:E;
    [apply Z.ltb_lt in E; lia|lia].
Qed.

Lemma drop_append (pre s : string) :
  Str.drop (String.length pre) (pre ++ s) = s.
Proof.
induction pre as [|a pre IH]; [destruct s; reflexivity|exact IH].
Qed.

(** X14. The version reported for a banner is the banner from its
    first capital V on; a banner without a capital V is cut down to
    its last character. *)
Theorem versionOf_banner :
  forall (pre post : string) (c : ascii),
    allChars notV pre = true ->
    versionOf [RowObject [("BANNER", VStr (pre ++ String "V" post))]]
    = Return (VStr (String "V" post))
    /\ (notV c = true ->
        versionOf [RowObject [("BANNER", VStr (pre ++ String c EmptyString))]]
        = Return (VStr (String c EmptyString))).
Proof.
intros pre post c Hpre. split.
- unfold versionOf. cbn [get]. rewrite String.eqb_refl.
  assert (Ht : truthy (VStr (pre ++ String "V" post)) = true)
    by (destruct pre; reflexivity).
  rewrite Ht. rewrite (indexOf_first "V" pre post Hpre).
  unfold QueryGenerator.substr.
  destruct (Z.of_nat (String.length pre) <? 0)%Z eqn:E;
    [apply Z.ltb_lt in E; lia|].
  rewrite Nat2Z.id, drop_append. reflexivity.
- intros Hc. unfold versionOf. cbn [get]. rewrite String.eqb_refl.
  assert (Ht : truthy (VStr (pre ++ String c EmptyString)) = true)
    by (destruct pre; reflexivity).
  rewrite Ht. rewrite indexOf_absent.
  + unfold QueryGenerator.substr. cbn [Z.ltb Z.compare].
    rewrite length_append. cbn [String.length].
    replace (Z.to_nat (Z.max (Z.of_nat (String.length pre + 1) + -1) 0))
      with (String.length pre) by lia.
    rewrite drop_append. reflexivity.
  + rewrite allChars_app. unfold notV in Hpre, Hc.
    rewrite Hpre. cbn [allChars]. rewrite Hc. reflexivity.
Qed.

Lemma versionOf_banner_witness :
  versionOf [RowObject [("BANNER", VStr "DM Database Server 64 V8")]]
  = Return (VStr "V8")
  /\ versionOf [RowObject [("BANNER", VStr "8.1.2.128")]]
     = Return (VStr "8").
Proof.
destruct (versionOf_banner "DM Database Server 64 " "8" "8") as [H _];
  [reflexivity|].
destruct (versionOf_banner "8.1.2.12" "" "8") as [_ H'];
  [reflexivity|].
split; [exact H|apply H'; reflexivity].
Defined.

End FormatResultsProperties.

(** ** query.js: handleShowIndexesQuery *)

Section ShowIndexesProperties.

Import Query Reference.

Lemma reduce_app (a b : list IndexRow)
    (acc : obj (IndexRow * list (option IndexField))) :
  reduce (a ++ b) acc = (acc' <- reduce a acc ;; reduce b acc').
Proof.
revert acc. induction a as [|item a IH]; intros acc; [reflexivity|].
cbn [app reduce]. destruct (collect acc item); cbn [bind];
  [apply IH|reflexivity].
Qed.

Lemma distinct_snoc (l : list string) (x : string) :
  distinct (l ++ [x])
  = if existsb (String.eqb x) (distinct l)
    then distinct l else (distinct l ++ [x])%list.
Proof. unfold distinct. rewrite fold_left_app. reflexivity. Qed.

Lemma existsb_eqb_In (x : string) (l : list string) :
  existsb (String.eqb x) l = true <-> In x l.
Proof.
rewrite existsb_exists. split.
- intros [y [Hy Heq]]. apply String.eqb_eq in Heq. subst y. exact Hy.
- intros H. exists x. split; [exact H|apply String.eqb_refl].
Qed.

Lemma find_app (A : Type) (p : A -> bool) (a b : list A) :
  find p (a ++ b)
  = match find p a with
    | Some x => Some x
    | None => find p b
    end.
Proof.
induction a as [|x a IH]; [reflexivity|]. cbn.
destruct (p x); [reflexivity|exact IH].
Qed.

Lemma find_none_filter (A : Type) (p : A -> bool) (l : list A) :
  find p l = None -> filter p l = [].
Proof.
induction l as [|x l IH]; [reflexivity|]. cbn.
destruct (p x); [discriminate|exact IH].
Qed.

Lemma elementAt_assignAt (A : Type) (a : list (option A)) (m : nat) (v : A) :
  forall n,
    elementAt A n (assignAt A a m v)
    = if (n =? m)%nat then Some v else elementAt A n a.
Proof.
revert a. induction m as [|m IH]; intros a n.
- destruct a as [|x a]; destruct n as [|n]; cbn; try reflexivity.
  unfold elementAt. destruct n; reflexivity.
- destruct a as [|x a]; destruct n as [|n]; cbn [assignAt Nat.eqb];
    try reflexivity.
  + unfold elementAt at 1. cbn [nth_error].
    fold (elementAt A n (assignAt A [] m v)). rewrite IH.
    destruct (n =? m)%nat; [reflexivity|].
    unfold elementAt. destruct n; reflexivity.
  + unfold elementAt at 1. cbn [nth_error].
    fold (elementAt A n (assignAt A a m v)). rewrite IH. reflexivity.
Qed.

Lemma elementAt_place (fields : list (option IndexField)) (item : IndexRow)
    (n : nat) :
  elementAt _ n (place fields item)
  = if (Seq_in_index item =? Z.of_nat n + 1)%Z
    then Some (fieldOf item) else elementAt _ n fields.
Proof.
unfold place.
destruct (0 <=? Seq_in_index item - 1)%Z eqn:E.
- apply Z.leb_le in E. rewrite elementAt_assignAt.
  destruct (Nat.eqb_spec n (Z.to_nat (Seq_in_index item - 1))) as [Hn|Hn];
    destruct (Z.eqb_spec (Seq_in_index item) (Z.of_nat n + 1)) as [Hz|Hz];
    try reflexivity; exfalso; lia.
- apply Z.leb_gt in E.
  destruct (Z.eqb_spec (Seq_in_index item) (Z.of_nat n + 1)) as [Hz|Hz];
    [exfalso; lia|reflexivity].
Qed.

Lemma elementAt_placed (rows : list IndexRow) (n : nat) :
  forall fields,
    elementAt _ n (fold_left place rows fields)
    = match findLast _ (fun r => (Seq_in_index r =? Z.of_nat n + 1)%Z) rows with
      | Some r => Some (fieldOf r)
      | None => elementAt _ n fields
      end.
Proof.
induction rows as [|r rows IH]; intros fields; [reflexivity|].
cbn [fold_left findLast]. rewrite IH.
destruct (findLast _ _ rows); [reflexivity|].
rewrite elementAt_place.
destruct (Seq_in_index r =? Z.of_nat n + 1)%Z; reflexivity.
Qed.

Lemma findLast_filter (A : Type) (p q : A -> bool) (l : list A) :
  findLast A p (filter q l) = findLast A (fun x => q x && p x) l.
Proof.
induction l as [|x l IH]; [reflexivity|]. cbn [filter findLast].
destruct (q x) eqn:Hq; cbn [findLast andb]; rewrite IH;
  [reflexivity|].
destruct (findLast A _ l); reflexivity.
Qed.

Lemma reduce_collected (data : list IndexRow) :
  forallb (fun r => plainName (Key_name r)) data = true ->
  exists acc, reduce data [] = Return acc /\ collected data acc.
Proof.
induction data as [|item rows IH] using rev_ind; intros Hdata.
- exists []. split; [reflexivity|]. split; [constructor|].
  split; [reflexivity|]. intros k. reflexivity.
- rewrite forallb_app in Hdata. apply andb_prop in Hdata.
  destruct Hdata as [Hrows Hitem]. cbn [forallb] in Hitem.
  rewrite andb_true_r in Hitem. unfold plainName in Hitem.
  apply andb_prop in Hitem. destruct Hitem as [Hitem Hindex].
  apply negb_true_iff in Hitem.
  assert (Hplain : arrayIndex (Key_name item) = None)
    by (destruct (arrayIndex (Key_name item)); [discriminate|reflexivity]).
  destruct (IH Hrows) as [acc [Hacc [Hnd [Hkeys Hget]]]].
  rewrite reduce_app, Hacc. cbn [bind reduce].
  unfold collect. rewrite Hitem.
  destruct (get acc (Key_name item)) as [[first fields]|] eqn:Hk.
  + cbn [bind]. eexists. split; [reflexivity|].
    pose proof (get_In_keys _ _ _ _ Hk) as Hin.
    split; [apply keys_set_nodup; exact Hnd|]. split.
    * rewrite keys_set_present by exact Hin.
      rewrite map_app. cbn [map]. rewrite distinct_snoc, <- Hkeys.
      apply existsb_eqb_In in Hin. rewrite Hin. reflexivity.
    * intros k. rewrite get_set, find_app, filter_app, fold_left_app.
      cbn [find filter].
      destruct (String.eqb_spec (Key_name item) k) as [<-|Hne].
      -- rewrite Hget in Hk.
         destruct (find (fun r => String.eqb (Key_name r) (Key_name item)) rows);
           [|discriminate].
         injection Hk as <- <-. reflexivity.
      -- rewrite Hget.
         destruct (find (fun r => String.eqb (Key_name r) k) rows);
           reflexivity.
  + cbn [bind]. eexists. split; [reflexivity|].
    pose proof (get_None_keys _ _ _ Hk) as Hnotin.
    split; [apply keys_set_nodup; exact Hnd|]. split.
    * rewrite set_fresh by assumption. unfold keys. rewrite map_app.
      cbn [map fst]. fold (keys acc).
      rewrite map_app. cbn [map]. rewrite distinct_snoc, <- Hkeys.
      destruct (existsb (String.eqb (Key_name item)) (keys acc)) eqn:E;
        [apply existsb_eqb_In in E; contradiction|reflexivity].
    * intros k. rewrite get_set, find_app, filter_app, fold_left_app.
      cbn [find filter].
      destruct (String.eqb_spec (Key_name item) k) as [<-|Hne].
      -- rewrite Hget in Hk.
         destruct (find (fun r => String.eqb (Key_name r) (Key_name item)) rows)
           eqn:Hf; [discriminate|].
         rewrite (find_none_filter _ _ _ Hf). reflexivity.
      -- rewrite Hget.
         destruct (find (fun r => String.eqb (Key_name r) k) rows);
           reflexivity.
Qed.

(** X15. [handleShowIndexesQuery] gives one index per name, in the
    order in which the names first appear; an index takes its table,
    type and uniqueness from the first row of its name, is primary
    when it is called PRIMARY, and has at position [n] of its fields
    the column of the last row of its name whose [Seq_in_index] is
    [n + 1], and nothing where there is no such row. This holds when
    no index is named like a property that an empty object inherits
    and none is named by an array index, which the grouping object
    would enumerate first. *)
Theorem handleShowIndexesQuery_groups :
  forall data : list IndexRow,
    forallb (fun r => plainName (Key_name r)) data = true ->
    exists result,
      handleShowIndexesQuery data = Return result
      /\ map name result = distinct (map Key_name data)
      /\ forall idx,
           In idx result ->
           exists first,
             find (fun r => String.eqb (Key_name r) (name idx)) data
             = Some first
             /\ primary idx = String.eqb (name idx) "PRIMARY"
             /\ tableName idx = Table first
             /\ unique idx = negb (strictEq (Non_unique first) (VNum 1))
             /\ index_type idx = Index_type first
             /\ forall n,
                  elementAt _ n (index_fields idx)
                  = option_map fieldOf
                      (findLast _
                         (fun r =>
                            String.eqb (Key_name r) (name idx)
                            && (Seq_in_index r =? Z.of_nat n + 1)%Z)
                         data).
Proof.
intros data Hdata.
destruct (reduce_collected data Hdata) as [acc [Hacc [Hnd [Hkeys Hget]]]].
unfold handleShowIndexesQuery. rewrite Hacc. cbn [bind].
eexists. split; [reflexivity|].
assert (Hgroup : forall g, In g acc ->
  find (fun r => String.eqb (Key_name r) (fst g)) data = Some (fst (snd g))
  /\ Key_name (fst (snd g)) = fst g
  /\ snd (snd g)
     = fold_left place
         (filter (fun r => String.eqb (Key_name r) (fst g)) data) []).
{ intros [k [first fields]] Hin. cbn [fst snd].
  pose proof (In_get _ _ _ _ Hnd Hin) as Hk. rewrite Hget in Hk.
  destruct (find (fun r => String.eqb (Key_name r) k) data) as [f|] eqn:Hf;
    [|discriminate].
  injection Hk as -> <-. split; [reflexivity|]. split; [|reflexivity].
  apply find_some in Hf. destruct Hf as [_ Hf].
  apply String.eqb_eq in Hf. exact Hf. }
split.
- rewrite <- Hkeys, map_map. unfold keys. apply map_ext_in.
  intros g Hin. destruct (Hgroup g Hin) as [_ [Hname _]]. exact Hname.
- intros idx Hin. apply in_map_iff in Hin. destruct Hin as [g [<- Hin]].
  destruct (Hgroup g Hin) as [Hfind [Hname Hfields]].
  exists (fst (snd g)). unfold indexOfGroup. cbn [name primary tableName unique
    index_type index_fields].
  rewrite Hname. repeat split; try reflexivity; try exact Hfind.
  intros n. rewrite Hfields, elementAt_placed, findLast_filter.
  destruct (findLast _ _ data); [reflexivity|].
  unfold elementAt. destruct n; reflexivity.
Qed.

Lemma handleShowIndexesQuery_groups_witness :
  exists result,
    handleShowIndexesQuery indexRows = Return result
    /\ map name result = ["PRIMARY"; "t_email"].
Proof.
destruct (handleShowIndexesQuery_groups indexRows) as [result [H [Hn _]]].
- reflexivity.
- exists result. split; [exact H|exact Hn].
Defined.

(** The indexes of that listing: the columns of the primary key come
    out in the order of [Seq_in_index]. *)
Example handleShowIndexesQuery_rows :
  option_map (map (fun idx => (name idx, map (option_map attribute) (index_fields idx))))
    (match handleShowIndexesQuery indexRows with
     | Return result => Some result
     | Throw _ => None
     end)
  = Some [ ("PRIMARY", [Some (VStr "a"); Some (VStr "b")]);
           ("t_email", [Some (VStr "email")]) ].
Proof. reflexivity. Qed.

(** An index named by an array index comes first, wherever its rows
    are. *)
Example handleShowIndexesQuery_array_index :
  option_map (map name)
    (match handleShowIndexesQuery
             [ {| Key_name := "b_idx"; Seq_in_index := 1;
                  Column_name := VStr "b"; Sub_part := VNull;
                  Collation := VStr "A"; Table := VStr "t";
                  Non_unique := VNum 1; Index_type := VStr "BTREE" |};
               {| Key_name := "7"; Seq_in_index := 1;
                  Column_name := VStr "a"; Sub_part := VNull;
                  Collation := VStr "A"; Table := VStr "t";
                  Non_unique := VNum 1; Index_type := VStr "BTREE" |} ] with
     | Return result => Some result
     | Throw _ => None
     end)
  = Some ["7"; "b_idx"].
Proof. reflexivity. Qed.

(** An index called like an inherited property makes the call throw. *)
Example handleShowIndexesQuery_inherited :
  handleShowIndexesQuery
    [ {| Key_name := "constructor"; Seq_in_index := 1;
         Column_name := VStr "a"; Sub_part := VNull; Collation := VStr "A";
         Table := VStr "t"; Non_unique := VNum 1;
         Index_type := VStr "BTREE" |} ]
  = Throw fieldsOfUndefined.
Proof. reflexivity. Qed.

End ShowIndexesProperties.

(** ** query.js: what formatError gives *)

Section FormatErrorFurther.

Import Query Reference.

Variable globals : obj value.
Variable getMessage : string -> string.

Lemma duplicateEntry_outcome (this : query) (err : DriverError) :
  match duplicateEntry globals getMessage this err with
  | Return e => parentOf e = err /\ exists u, e = UniqueConstraintError u
  | Throw x => get globals "errStack" = None /\ x = ReferenceError "errStack"
  end.
Proof.
unfold duplicateEntry, resolve.
destruct (get globals "errStack"); cbn [bind].
- split; [reflexivity|]. eexists. reflexivity.
- split; reflexivity.
Qed.

Lemma foreignKey_outcome (this : query) (err : DriverError)
    (errCode : value) :
  match foreignKey globals this err errCode with
  | Return e =>
      parentOf e = err
      /\ exists f r,
           e = ForeignKeyConstraintError f
           /\ get globals "ER_ROW_IS_REFERENCED" = Some r
           /\ fk_reltype f
              = if String.eqb (toString errCode) (toString r)
                then "parent" else "child"
  | Throw x =>
      exists ident,
        In ident freeIdentifiers
        /\ get globals ident = None /\ x = ReferenceError ident
  end.
Proof.
unfold foreignKey, resolve.
destruct (get globals "ER_ROW_IS_REFERENCED") as [r|] eqn:Hr; cbn [bind].
- destruct (get globals "errStack") eqn:Hs; cbn [bind].
  + split; [reflexivity|]. eexists. exists r.
    split; [reflexivity|]. split; reflexivity.
  + exists "errStack". split; [right; right; right; left; reflexivity|].
    split; [exact Hs|reflexivity].
- exists "ER_ROW_IS_REFERENCED".
  split; [right; left; reflexivity|]. split; [exact Hr|reflexivity].
Qed.

(** X16. Whatever the driver error, [formatError] either returns an
    error that carries the driver error as its parent or throws a
    ReferenceError for one of the four identifiers it reads without
    declaring, unbound at that point. What it returns goes by
    [err.errno || err.code]: a unique-constraint error when the code is
    [ER_DUP_ENTRY], else a foreign-key error when it is one of the two
    foreign-key codes, with the relation [parent] exactly for the text
    of [ER_ROW_IS_REFERENCED], else a database error. *)
Theorem formatError_outcome :
  forall (this : query) (err : DriverError),
    match formatError globals getMessage this err with
    | Return e =>
        parentOf e = err
        /\ exists d,
             get globals "ER_DUP_ENTRY" = Some d
             /\ match e with
                | UniqueConstraintError _ => strictEq (errCodeOf err) d = true
                | ForeignKeyConstraintError f =>
                    strictEq (errCodeOf err) d = false
                    /\ exists r,
                         get globals "ER_ROW_IS_REFERENCED" = Some r
                         /\ (strictEq (errCodeOf err) r = true
                             \/ exists n,
                                  get globals "ER_NO_REFERENCED_ROW" = Some n
                                  /\ strictEq (errCodeOf err) n = true)
                         /\ fk_reltype f
                            = if String.eqb (toString (errCodeOf err))
                                   (toString r)
                              then "parent" else "child"
                | DatabaseError _ _ =>
                    strictEq (errCodeOf err) d = false
                    /\ exists r n,
                         get globals "ER_ROW_IS_REFERENCED" = Some r
                         /\ get globals "ER_NO_REFERENCED_ROW" = Some n
                         /\ strictEq (errCodeOf err) r = false
                         /\ strictEq (errCodeOf err) n = false
                end
    | Throw x =>
        exists ident,
          In ident freeIdentifiers
          /\ get globals ident = None /\ x = ReferenceError ident
    end.
Proof.
intros this err. unfold formatError. fold (errCodeOf err).
unfold resolve at 1.
destruct (get globals "ER_DUP_ENTRY") as [d|] eqn:Hd; cbn [bind];
  [|exists "ER_DUP_ENTRY"; split; [left; reflexivity|];
    split; [exact Hd|reflexivity]].
destruct (strictEq (errCodeOf err) d) eqn:Ed.
{ pose proof (duplicateEntry_outcome this err) as H.
  destruct (duplicateEntry globals getMessage this err) as [e|x].
  - destruct H as [Hp [u ->]]. split; [exact Hp|].
    exists d. split; [reflexivity|exact Ed].
  - destruct H as [Hs ->]. exists "errStack".
    split; [right; right; right; left; reflexivity|].
    split; [exact Hs|reflexivity]. }
unfold resolve at 1.
destruct (get globals "ER_ROW_IS_REFERENCED") as [r|] eqn:Hr; cbn [bind];
  [|exists "ER_ROW_IS_REFERENCED"; split; [right; left; reflexivity|];
    split; [exact Hr|reflexivity]].
destruct (strictEq (errCodeOf err) r) eqn:Er.
{ pose proof (foreignKey_outcome this err (errCodeOf err)) as H.
  destruct (foreignKey globals this err (errCodeOf err)) as [e|x];
    [|exact H].
  destruct H as [Hp [f [r' [-> [Hr' Hrel]]]]]. split; [exact Hp|].
  exists d. split; [reflexivity|]. split; [exact Ed|].
  rewrite Hr in Hr'. injection Hr' as <-.
  exists r. split; [reflexivity|]. split; [left; exact Er|exact Hrel]. }
unfold resolve at 1.
destruct (get globals "ER_NO_REFERENCED_ROW") as [n|] eqn:Hn; cbn [bind];
  [|exists "ER_NO_REFERENCED_ROW";
    split; [right; right; left; reflexivity|];
    split; [exact Hn|reflexivity]].
destruct (strictEq (errCodeOf err) n) eqn:En.
{ pose proof (foreignKey_outcome this err (errCodeOf err)) as H.
  destruct (foreignKey globals this err (errCodeOf err)) as [e|x];
    [|exact H].
  destruct H as [Hp [f [r' [-> [Hr' Hrel]]]]]. split; [exact Hp|].
  exists d. split; [reflexivity|]. split; [exact Ed|].
  rewrite Hr in Hr'. injection Hr' as <-.
  exists r. split; [reflexivity|]. split; [|exact Hrel].
  right. exists n. split; [reflexivity|exact En]. }
unfold resolve.
destruct (get globals "errStack") as [s|] eqn:Hs; cbn [bind];
  [|exists "errStack"; split; [right; right; right; left; reflexivity|];
    split; [exact Hs|reflexivity]].
split; [reflexivity|]. exists d. split; [reflexivity|].
split; [exact Ed|]. exists r, n. repeat split; assumption.
Qed.

End FormatErrorFurther.

(** ** query-generator.js: changeColumnQuery *)

Section ChangeColumnProperties.

Import Str Regex QueryGenerator Reference.

Variable quoteIdentifier : string -> string.
Variable quoteTable : string -> string.

Lemma run_lit (w : string) (k : cont) :
  forall st,
    run false (lit w) k st
    = if startsWith w (rest st)
      then k {| rest := drop (String.length w) (rest st); caps := caps st |}
      else None.
Proof.
induction w as [|a w IH]; intros [r cs].
- cbn. destruct r; reflexivity.
- assert (Hchr : forall k' r' cs',
    run false (chr a) k' {| rest := r'; caps := cs' |}
    = match r' with
      | String b t =>
          if Ascii.eqb a b then k' {| rest := t; caps := cs' |} else None
      | EmptyString => None
      end).
  { intros k' r' cs'. cbn [run chr rest caps]. destruct r' as [|b t];
      [reflexivity|]. unfold charMatches. cbn [xorb]. reflexivity. }
  destruct w as [|a' w'].
  + cbn [lit]. rewrite Hchr. cbn [rest caps startsWith String.length drop].
    destruct r as [|b t]; [reflexivity|].
    destruct (Ascii.eqb a b); [|reflexivity].
    cbn [andb]. destruct t; reflexivity.
  + change (lit (String a (String a' w')))
      with (Cat (chr a) (lit (String a' w'))).
    cbn [run]. rewrite Hchr. cbn [rest caps].
    destruct r as [|b t]; [reflexivity|].
    cbn [startsWith]. destruct (Ascii.eqb a b); [|reflexivity].
    rewrite IH. cbn [rest caps andb String.length drop]. reflexivity.
Qed.

Lemma lookahead_lit (w : string) (st : state) :
  run false (lookahead (lit w)) (fun st' => Some st') st
  = if startsWith w (rest st) then Some st else None.
Proof.
unfold lookahead. cbn [run]. rewrite run_lit.
destruct (startsWith w (rest st)); reflexivity.
Qed.

(** The lazy quantifier goes on to the first position where
    REFERENCES follows. *)
Lemma lazy_until (tail : string) (cs : list (nat * string)) :
  forall (p : string) (fuel : nat),
    untilReferences p ("REFERENCES" ++ tail) = true ->
    String.length p < fuel ->
    rep (run false dot) [] fuel 0 None false
      (fun st' =>
         run false (lookahead (lit "REFERENCES")) (fun st'' => Some st'') st')
      {| rest := p ++ "REFERENCES" ++ tail; caps := cs |}
    = Some {| rest := "REFERENCES" ++ tail; caps := cs |}.
Proof.
induction p as [|c p IH]; intros fuel Hp Hfuel;
  (destruct fuel as [|fuel]; [cbn in Hfuel; lia|]); cbn [rep Nat.eqb negb].
- rewrite lookahead_lit. reflexivity.
- cbn [untilReferences] in Hp. apply andb_prop in Hp. destruct Hp as [Hp Hrest].
  apply andb_prop in Hp. destruct Hp as [Hc Hstart].
  apply negb_true_iff in Hstart.
  rewrite lookahead_lit. cbn [rest]. rewrite Hstart. cbn [orElse].
  rewrite clearCaps_nil. unfold dot. cbn [append]. rewrite run_class_cons.
  apply negb_true_iff in Hc.
  unfold charMatches. rewrite Hc. cbn [xorb rest andb String.length].
  match goal with
  | |- context [(?a =? S ?a)%nat] =>
      replace (a =? S a)%nat with false by (symmetry; apply Nat.eqb_neq; lia)
  end.
  cbn [Nat.pred option_map]. apply IH; [exact Hrest|].
  cbn in Hfuel. lia.
Qed.

Lemma startsWith_shorter (w s v : string) :
  String.length w <= String.length s ->
  startsWith w (s ++ v) = startsWith w s.
Proof.
revert s. induction w as [|a w IH]; intros s H; [reflexivity|].
destruct s as [|b s]; [cbn in H; lia|]. cbn [append startsWith].
rewrite IH; [reflexivity|]. cbn in H. lia.
Qed.

Lemma untilReferences_first (p tail : string) :
  singleLine p = true ->
  includes "REFERENCES" (p ++ "REFERENCE") = false ->
  untilReferences p ("REFERENCES" ++ tail) = true.
Proof.
induction p as [|c p IH]; intros Hline Hinc; [reflexivity|].
unfold singleLine in Hline. cbn [allChars] in Hline.
apply andb_prop in Hline. destruct Hline as [Hc Hline].
cbn [append includes] in Hinc. apply orb_false_iff in Hinc.
destruct Hinc as [Hstart Hinc].
cbn [untilReferences]. rewrite Hc, (IH Hline Hinc), andb_true_r.
cbn [andb]. apply negb_true_iff.
change ("REFERENCES" ++ tail) with ("REFERENCE" ++ "S" ++ tail).
rewrite <- append_assoc. rewrite startsWith_shorter; [exact Hstart|].
rewrite length_append. cbn. lia.
Qed.

Lemma includes_here (w a b : string) : includes w (a ++ w ++ b) = true.
Proof.
induction a as [|c a IH].
- cbn [append]. pose proof (startsWith_prefix w b) as H.
  destruct (w ++ b); cbn [includes]; rewrite H; reflexivity.
- cbn [append includes]. rewrite IH. apply orb_true_r.
Qed.

Lemma run_before (c : ascii) (p tail : string) (cs : list (nat * string)) :
  isLineTerminator c = false ->
  untilReferences p ("REFERENCES" ++ tail) = true ->
  run false beforeReferencesRegex (fun st => Some st)
    {| rest := String c (p ++ "REFERENCES" ++ tail); caps := cs |}
  = Some {| rest := "REFERENCES" ++ tail; caps := cs |}.
Proof.
intros Hc Hp.
change (run false beforeReferencesRegex (fun st => Some st)
          {| rest := String c (p ++ "REFERENCES" ++ tail); caps := cs |})
  with (rep (run false dot) []
          (S (String.length (String c (p ++ "REFERENCES" ++ tail)) + 1))
          1 None false
          (fun st' =>
             run false (lookahead (lit "REFERENCES")) (fun st'' => Some st'') st')
          {| rest := String c (p ++ "REFERENCES" ++ tail); caps := cs |}).
cbn [rep Nat.eqb negb]. rewrite clearCaps_nil.
unfold dot at 1. rewrite run_class_cons.
unfold charMatches. rewrite Hc. cbn [xorb andb Nat.pred option_map].
apply lazy_until; [exact Hp|].
cbn [String.length]. rewrite length_append. lia.
Qed.

Lemma replaceMatch_beforeReferences (pre tail : string) :
  pre <> EmptyString ->
  singleLine pre = true ->
  includes "REFERENCES" (pre ++ "REFERENCE") = false ->
  replaceMatch beforeReferencesRegex EmptyString (pre ++ "REFERENCES" ++ tail)
  = "REFERENCES" ++ tail.
Proof.
intros Hne Hline Hinc. destruct pre as [|c p]; [congruence|].
unfold singleLine in Hline. cbn [allChars] in Hline.
apply andb_prop in Hline. destruct Hline as [Hc Hline].
apply negb_true_iff in Hc.
cbn [append includes] in Hinc. apply orb_false_iff in Hinc.
destruct Hinc as [_ Hinc].
assert (Hm : matchHere false beforeReferencesRegex
               (String c (p ++ "REFERENCES" ++ tail))
             = Some {| matched := String c p; groups := [] |}).
{ unfold matchHere. rewrite run_before;
    [|exact Hc|apply untilReferences_first; assumption].
  cbn [rest caps].
  change (String c (p ++ "REFERENCES" ++ tail))
    with (String c p ++ "REFERENCES" ++ tail).
  rewrite consumed_append. reflexivity. }
change (String c p ++ "REFERENCES" ++ tail)
  with (String c (p ++ "REFERENCES" ++ tail)).
cbn [replaceMatch]. rewrite Hm. cbn [matched].
change (String c (p ++ "REFERENCES" ++ tail))
  with (String c p ++ "REFERENCES" ++ tail).
apply drop_append.
Qed.

(** X17. Changing a single column: a definition without the word
    REFERENCES is put in a CHANGE clause under the column's name
    between backquotes; a definition in which REFERENCES first comes
    after some text on one line gives no CHANGE clause at all, only
    the foreign key that starts at that word. *)
Theorem changeColumnQuery_single :
  forall (tableName attributeName pre tail : string),
    pre <> EmptyString ->
    singleLine pre = true ->
    includes "REFERENCES" (pre ++ "REFERENCE") = false ->
    changeColumnQuery quoteIdentifier quoteTable tableName
      [(attributeName, pre ++ "REFERENCES" ++ tail)]
    = "ALTER TABLE " ++ quoteTable tableName ++ " ADD FOREIGN KEY ("
      ++ quoteIdentifier attributeName ++ ") REFERENCES" ++ tail ++ ";"
    /\ changeColumnQuery quoteIdentifier quoteTable tableName
         [(attributeName, pre)]
       = "ALTER TABLE " ++ quoteTable tableName ++ " CHANGE `"
         ++ attributeName ++ "` `" ++ attributeName ++ "` " ++ pre ++ ";".
Proof.
intros tableName attributeName pre tail Hne Hline Hinc. split.
- unfold changeColumnQuery. cbn [fold_left fst snd]. unfold change.
  rewrite includes_here.
  rewrite (replaceMatch_beforeReferences pre tail Hne Hline Hinc).
  cbn [attrString constraintString push app join String.concat].
  rewrite ?append_assoc. reflexivity.
- assert (Hpre : includes "REFERENCES" pre = false).
  { clear - Hinc. induction pre as [|c p IH]; [reflexivity|].
    cbn [append includes] in Hinc |- *. apply orb_false_iff in Hinc.
    destruct Hinc as [Hstart Hinc]. rewrite (IH Hinc), orb_false_r.
    destruct (startsWith "REFERENCES" (String c p)) eqn:E; [|reflexivity].
    apply startsWith_app in E. destruct E as [s' E].
    change (String c (p ++ "REFERENCE")) with (String c p ++ "REFERENCE")
      in Hstart.
    rewrite E in Hstart. rewrite append_assoc in Hstart.
    rewrite startsWith_prefix in Hstart. discriminate. }
  unfold changeColumnQuery. cbn [fold_left fst snd]. unfold change.
  rewrite Hpre.
  cbn [attrString constraintString push app join String.concat].
  rewrite ?append_assoc. reflexivity.
Qed.

End ChangeColumnProperties.

Lemma changeColumnQuery_single_witness :
  QueryGenerator.changeColumnQuery Reference.quote Reference.quote "tasks"
    [("owner_id", "INTEGER REFERENCES people (id)")]
  = "ALTER TABLE " ++ Reference.quote "tasks" ++ " ADD FOREIGN KEY ("
    ++ Reference.quote "owner_id" ++ ") REFERENCES people (id);"
  /\ QueryGenerator.changeColumnQuery Reference.quote Reference.quote "tasks"
       [("owner_id", "INTEGER ")]
     = "ALTER TABLE " ++ Reference.quote "tasks"
       ++ " CHANGE `owner_id` `owner_id` INTEGER ;".
Proof.
apply (changeColumnQuery_single Reference.quote Reference.quote "tasks"
         "owner_id" "INTEGER " " people (id)").
- discriminate.
- reflexivity.
- reflexivity.
Defined.

(** ** query-generator.js: the attribute map of upsertQuery *)

Section AttributeMapProperties.

Import QueryGenerator Reference.

Lemma modelAttributeMap_fold (k : string) (attrs : obj RawAttribute) :
  forall acc : obj RawAttribute,
    get (fold_left
           (fun m kv =>
              let m1 := set m (fst kv) (snd kv) in
              match present (field (snd kv)) with
              | Some f => set m1 f (snd kv)
              | None => m1
              end)
           attrs acc) k
    = match findLast _ (goesBy k) attrs with
      | Some kv => Some (snd kv)
      | None => get acc k
      end.
Proof.
induction attrs as [|kv attrs IH]; intros acc; [reflexivity|].
cbn [fold_left findLast]. rewrite IH.
destruct (findLast _ (goesBy k) attrs); [reflexivity|].
unfold goesBy. cbv zeta.
destruct (present (field (snd kv))) as [f|].
- rewrite !get_set.
  destruct (String.eqb f k), (String.eqb (fst kv) k); reflexivity.
- rewrite get_set, orb_false_r.
  destruct (String.eqb (fst kv) k); reflexivity.
Qed.

(** X18. The attribute map of an upsert finds an attribute under its
    key and under its column name; when several attributes go by the
    same name the one declared last is found. An upsert is an identity
    insert exactly when one of the inserted keys finds an attribute
    whose [autoIncrement] is [true]. *)
Theorem modelAttributeMap_lookup :
  forall (model : Model) (insertValues : obj value) (k : string),
    get (modelAttributeMap model) k
    = match rawAttributes model with
      | Some attrs => option_map snd (findLast _ (goesBy k) attrs)
      | None => None
      end
    /\ identityInsertOf (modelAttributeMap model) insertValues
       = existsb
           (fun kv =>
              match rawAttributes model with
              | Some attrs =>
                  match findLast _ (goesBy (fst kv)) attrs with
                  | Some a => strictEq (ra_autoIncrement (snd a)) (VBool true)
                  | None => false
                  end
              | None => false
              end)
           insertValues.
Proof.
intros model insertValues k.
assert (Hget : forall key,
  get (modelAttributeMap model) key
  = match rawAttributes model with
    | Some attrs => option_map snd (findLast _ (goesBy key) attrs)
    | None => None
    end).
{ intros key. unfold modelAttributeMap.
  destruct (rawAttributes model) as [attrs|]; [|reflexivity].
  rewrite modelAttributeMap_fold.
  destruct (findLast _ (goesBy key) attrs); reflexivity. }
split; [apply Hget|].
unfold identityInsertOf. induction insertValues as [|kv more IH];
  [reflexivity|].
cbn [existsb]. rewrite IH, Hget.
destruct (rawAttributes model) as [attrs|]; [|reflexivity].
destruct (findLast _ (goesBy (fst kv)) attrs); reflexivity.
Qed.

End AttributeMapProperties.
